(** * routing-oracle: the oracle pipeline, its scoring helpers and the
      structured report format, embedded from [oracle-pipeline.ts],
      [types.ts] and [reporter.ts].

    Conventions of the embedding.
    - A JavaScript string is a [string]: a sequence of code units, each
      below [0x100]; strings with other code units are not covered.
      [String.prototype.includes] is written out as a substring search.
    - A JavaScript number is an IEEE 754 binary64 value, [spec_float] with
      precision 53 and maximal exponent 1024; arithmetic is the correctly
      rounded arithmetic of [SpecFloat].  An array length is a [nat].
    - A value of static type [unknown] is a [JsValue] tree.
    - An [async] function is a computation over the world the awaited calls
      act on: the tool caller's own state and the list of calls made so far.
      It settles as [Fulfilled] or [Rejected]. *)

From Stdlib Require Import String Ascii List ZArith NArith Bool Lia PeanoNat.
From Stdlib Require Import Floats.SpecFloat.
From Stdlib Require Import Sorting.Permutation.
Import ListNotations.

Local Open Scope string_scope.
Local Open Scope list_scope.

#[local] Set Warnings "-register-all".

(* ================================================================== *)
(** ** Strings *)

(** [starts_with s m]: [m] is an initial segment of [s]. *)
Fixpoint starts_with (s m : string) {struct m} : bool :=
  match m with
  | EmptyString => true
  | String c m' =>
      match s with
      | EmptyString => false
      | String d s' => Ascii.eqb c d && starts_with s' m'
      end
  end.

(** [includes s m] is [s.includes(m)]: [m] occurs in [s] at some position. *)
Fixpoint includes (s m : string) : bool :=
  starts_with s m ||
  match s with
  | EmptyString => false
  | String _ s' => includes s' m
  end.

(** [Array.prototype.join] with separator [sep]. *)
Fixpoint join (sep : string) (xs : list string) : string :=
  match xs with
  | [] => ""
  | [x] => x
  | x :: rest => x ++ sep ++ join sep rest
  end.

(** The line feed, written [\n] in the source's template literals. *)
Definition LF : string := String (ascii_of_nat 10) EmptyString.

(* ================================================================== *)
(** ** Numbers *)

Definition number : Type := spec_float.

Definition prec : Z := 53.
Definition emax : Z := 1024.

Definition Number_of_Z (z : Z) : number := binary_normalize prec emax z 0 false.
Definition Number_of_nat (n : nat) : number := Number_of_Z (Z.of_nat n).

Definition num_div : number -> number -> number := SFdiv prec emax.
Definition num_mul : number -> number -> number := SFmul prec emax.
Definition num_leb : number -> number -> bool := SFleb.

Definition num_zero : number := S754_zero false.
Definition num_one : number := Number_of_Z 1.

Definition is_NaN (x : number) : bool :=
  match x with S754_nan => true | _ => false end.

(** [Math.round]: the integral number closest to [x], ties toward
    [+Infinity]; an integral [x], an infinity, a zero and [NaN] are returned
    as they are, and a result of magnitude zero keeps the sign of [x]. *)
Definition Math_round (x : number) : number :=
  match x with
  | S754_finite s m e =>
      if (0 <=? e)%Z then x
      else
        let k := ((2 * cond_Zopp s (Zpos m) + 2 ^ (- e)) / 2 ^ (1 - e))%Z in
        if (k =? 0)%Z then S754_zero s else Number_of_Z k
  | _ => x
  end.

(* ================================================================== *)
(** ** Values of static type [unknown] *)

(** What a tool may hand back: any JavaScript value built from primitives,
    arrays and plain objects.  An object lists its own properties in
    enumeration order. *)
Inductive JsValue : Type :=
| JsUndefined
| JsNull
| JsBool (b : bool)
| JsNumber (x : number)
| JsString (s : string)
| JsArray (items : list JsValue)
| JsObject (props : list (string * JsValue)).

(** Property read [o[key]]: [undefined] when the property is absent. *)
Fixpoint get_prop (key : string) (props : list (string * JsValue)) : JsValue :=
  match props with
  | [] => JsUndefined
  | (k, v) :: rest => if String.eqb k key then v else get_prop key rest
  end.

(* ================================================================== *)
(** ** [types.ts]: enumerations *)

Inductive TaskCategory : Type :=
| architecture | code_generation | code_review | research | security_review
| planning | documentation | testing | devops | exploration.

Definition TaskCategory_str (c : TaskCategory) : string :=
  match c with
  | architecture => "architecture"
  | code_generation => "code_generation"
  | code_review => "code_review"
  | research => "research"
  | security_review => "security_review"
  | planning => "planning"
  | documentation => "documentation"
  | testing => "testing"
  | devops => "devops"
  | exploration => "exploration"
  end.

Inductive Capability : Type := cap_reasoning | cap_context | cap_speed | cap_code.

Definition Capability_str (c : Capability) : string :=
  match c with
  | cap_reasoning => "reasoning"
  | cap_context => "context"
  | cap_speed => "speed"
  | cap_code => "code"
  end.

Inductive VotingStrategy : Type :=
| simple_majority | supermajority | unanimous | proof_of_learning | higher_order.

Definition STRATEGIES : list VotingStrategy :=
  [simple_majority; supermajority; unanimous; proof_of_learning; higher_order].

Definition VotingStrategy_str (s : VotingStrategy) : string :=
  match s with
  | simple_majority => "simple_majority"
  | supermajority => "supermajority"
  | unanimous => "unanimous"
  | proof_of_learning => "proof_of_learning"
  | higher_order => "higher_order"
  end.

Inductive VoteDecision : Type := approved | rejected | pending | timeout.

Definition VoteDecision_str (d : VoteDecision) : string :=
  match d with
  | approved => "approved"
  | rejected => "rejected"
  | pending => "pending"
  | timeout => "timeout"
  end.

Inductive AgentDecision : Type := approve | reject | abstain.

Definition AgentDecision_str (d : AgentDecision) : string :=
  match d with
  | approve => "approve"
  | reject => "reject"
  | abstain => "abstain"
  end.

(* ================================================================== *)
(** ** [types.ts]: the shapes inferred from the schemas *)

Record Capabilities : Type := {
  cap_reasoning_score : number;
  cap_contextWindow : number;
  cap_codeGeneration : number;
  cap_speed_score : number;
  cap_cost : number
}.

Record Alternative : Type := {
  alt_model : string;
  alt_score : number;
  alt_tradeoff : string
}.

Record Governance : Type := {
  gov_domain : string;
  gov_votingThreshold : string;
  gov_promotionReason : string
}.

Record DelegateResponse : Type := {
  recommended_model : string;
  dr_reasoning : string;
  dr_capabilities : Capabilities;
  estimated_tokens : number;
  dr_alternatives : list Alternative;
  dr_governance : option Governance
}.

Record CategoryStats : Type := {
  cs_count : number;
  cs_successRate : number;
  cs_avgDurationMs : number
}.

Record CliWeather : Type := {
  cw_cli : string;
  cw_totalTasks : number;
  cw_successRate : number;
  cw_avgDurationMs : number;
  cw_byCategory : list (string * CategoryStats)
}.

Record AdaptiveBonus : Type := {
  ab_cli : string;
  ab_category : string;
  ab_staticBonus : number;
  ab_adaptiveBonus : number;
  ab_sampleCount : number;
  ab_sufficient : bool
}.

Record RecommendedMapping : Type := {
  rm_category : string;
  recommendedCli : string;
  rm_successRate : number;
  rm_sampleCount : number;
  rm_confidence : string
}.

Record Overall : Type := {
  ov_totalTasks : number;
  ov_successRate : number;
  ov_avgDurationMs : number
}.

Record WeatherResponse : Type := {
  overall : Overall;
  cliWeather : list CliWeather;
  adaptiveBonuses : list AdaptiveBonus;
  tierRecommendations : list (list (string * JsValue));
  learningInsights : option (list (list (string * JsValue)));
  recommendedMappings : option (list RecommendedMapping);
  explorationRate : number;
  coldStartThreshold : number;
  collectedAt : string
}.

Record VoteCounts : Type := {
  vc_approve : number;
  vc_reject : number;
  vc_abstain : number;
  vc_error : number
}.

Record AgentVote : Type := {
  av_role : string;
  av_decision : AgentDecision;
  av_confidence : number;
  av_reasoning : string;
  av_simulated : bool;
  av_error : bool
}.

Record VoteResponse : Type := {
  vr_proposal : string;
  vr_strategy : VotingStrategy;
  vr_decision : VoteDecision;
  approvalPercentage : number;
  voteCounts : VoteCounts;
  votes : list AgentVote;
  durationMs : number;
  vr_simulateVotes : bool
}.

(** Known-good routing expectation for a task category. *)
Record RoutingExpectation : Type := {
  exp_category : TaskCategory;
  task : string;
  preferredCapability : Capability;
  expectedPrimaryCli : string;
  acceptableModels : list string
}.

(** Result of validating a single routing decision. *)
Record RoutingValidation : Type := {
  category : TaskCategory;
  recommended : string;
  expected : string;
  correct : bool;
  reasoning : string;
  alternatives : list string
}.

(** Full oracle report; [null] is [None]. *)
Record OracleReport : Type := {
  validations : list RoutingValidation;
  accuracy : number;
  weather : option WeatherResponse;
  voteResult : option VoteResponse
}.

(** Pipeline configuration; an omitted optional property is [None]. *)
Record OracleConfig : Type := {
  expectations : list RoutingExpectation;
  includeWeather : option bool;
  includeVote : option bool;
  voteStrategy : option VotingStrategy
}.

(* ================================================================== *)
(** ** [types.ts]: the schemas, as validating parsers

    [schema.parse(raw)] either returns the typed value or throws; here it
    returns [Some] or [None].  An object schema reads the properties it
    names and drops the others; [z.number()] refuses [NaN]; an [.optional()]
    property may be absent or [undefined]. *)

Definition z_string (v : JsValue) : option string :=
  match v with JsString s => Some s | _ => None end.

Definition z_number (v : JsValue) : option number :=
  match v with
  | JsNumber x => if is_NaN x then None else Some x
  | _ => None
  end.

Definition z_boolean (v : JsValue) : option bool :=
  match v with JsBool b => Some b | _ => None end.

Definition z_unknown (v : JsValue) : option JsValue := Some v.

(** All elements parse, or the whole list is refused. *)
Fixpoint parse_all {A B : Type} (p : A -> option B) (xs : list A) : option (list B) :=
  match xs with
  | [] => Some []
  | x :: rest =>
      match p x with
      | Some y =>
          match parse_all p rest with
          | Some ys => Some (y :: ys)
          | None => None
          end
      | None => None
      end
  end.

Definition z_array {A : Type} (p : JsValue -> option A) (v : JsValue) : option (list A) :=
  match v with JsArray items => parse_all p items | _ => None end.

(** A property name other than [__proto__]. *)
Definition plain_name {A : Type} (kv : string * A) : bool :=
  negb (String.eqb (fst kv) "__proto__").

(** [z.record(valueType)]: every property must parse; the result holds the
    parsed properties in the order of the input, except one named
    [__proto__], which zod leaves out of what it returns. *)
Definition z_record {A : Type} (p : JsValue -> option A) (v : JsValue)
  : option (list (string * A)) :=
  match v with
  | JsObject props =>
      match parse_all (fun kv => match p (snd kv) with
                                 | Some a => Some (fst kv, a)
                                 | None => None
                                 end) props with
      | Some parsed => Some (filter plain_name parsed)
      | None => None
      end
  | _ => None
  end.

Definition z_optional {A : Type} (p : JsValue -> option A) (v : JsValue)
  : option (option A) :=
  match v with
  | JsUndefined => Some None
  | _ => match p v with Some a => Some (Some a) | None => None end
  end.

(** [z.enum(names)]: the member whose name the string is. *)
Definition z_enum {A : Type} (members : list A) (name : A -> string) (v : JsValue)
  : option A :=
  match v with
  | JsString s => find (fun a => String.eqb (name a) s) members
  | _ => None
  end.

(** [z.object(shape)]: the input must be a plain object. *)
Definition z_object {A : Type} (shape : list (string * JsValue) -> option A)
  (v : JsValue) : option A :=
  match v with JsObject props => shape props | _ => None end.

Notation "x <-? e ;; k" :=
  (match e with Some x => k | None => None end)
  (at level 61, e at next level, right associativity).

Definition CapabilitiesSchema : JsValue -> option Capabilities :=
  z_object (fun o =>
    a <-? z_number (get_prop "reasoning" o) ;;
    b <-? z_number (get_prop "contextWindow" o) ;;
    c <-? z_number (get_prop "codeGeneration" o) ;;
    d <-? z_number (get_prop "speed" o) ;;
    e <-? z_number (get_prop "cost" o) ;;
    Some (Build_Capabilities a b c d e)).

Definition AlternativeSchema : JsValue -> option Alternative :=
  z_object (fun o =>
    a <-? z_string (get_prop "model" o) ;;
    b <-? z_number (get_prop "score" o) ;;
    c <-? z_string (get_prop "tradeoff" o) ;;
    Some (Build_Alternative a b c)).

Definition GovernanceSchema : JsValue -> option Governance :=
  z_object (fun o =>
    a <-? z_string (get_prop "domain" o) ;;
    b <-? z_string (get_prop "votingThreshold" o) ;;
    c <-? z_string (get_prop "promotionReason" o) ;;
    Some (Build_Governance a b c)).

Definition DelegateResponseSchema : JsValue -> option DelegateResponse :=
  z_object (fun o =>
    a <-? z_string (get_prop "recommended_model" o) ;;
    b <-? z_string (get_prop "reasoning" o) ;;
    c <-? CapabilitiesSchema (get_prop "capabilities" o) ;;
    d <-? z_number (get_prop "estimated_tokens" o) ;;
    e <-? z_array AlternativeSchema (get_prop "alternatives" o) ;;
    f <-? z_optional GovernanceSchema (get_prop "governance" o) ;;
    Some (Build_DelegateResponse a b c d e f)).

Definition CategoryStatsSchema : JsValue -> option CategoryStats :=
  z_object (fun o =>
    a <-? z_number (get_prop "count" o) ;;
    b <-? z_number (get_prop "successRate" o) ;;
    c <-? z_number (get_prop "avgDurationMs" o) ;;
    Some (Build_CategoryStats a b c)).

Definition CliWeatherSchema : JsValue -> option CliWeather :=
  z_object (fun o =>
    a <-? z_string (get_prop "cli" o) ;;
    b <-? z_number (get_prop "totalTasks" o) ;;
    c <-? z_number (get_prop "successRate" o) ;;
    d <-? z_number (get_prop "avgDurationMs" o) ;;
    e <-? z_record CategoryStatsSchema (get_prop "byCategory" o) ;;
    Some (Build_CliWeather a b c d e)).

Definition AdaptiveBonusSchema : JsValue -> option AdaptiveBonus :=
  z_object (fun o =>
    a <-? z_string (get_prop "cli" o) ;;
    b <-? z_string (get_prop "category" o) ;;
    c <-? z_number (get_prop "staticBonus" o) ;;
    d <-? z_number (get_prop "adaptiveBonus" o) ;;
    e <-? z_number (get_prop "sampleCount" o) ;;
    f <-? z_boolean (get_prop "sufficient" o) ;;
    Some (Build_AdaptiveBonus a b c d e f)).

Definition RecommendedMappingSchema : JsValue -> option RecommendedMapping :=
  z_object (fun o =>
    a <-? z_string (get_prop "category" o) ;;
    b <-? z_string (get_prop "recommendedCli" o) ;;
    c <-? z_number (get_prop "successRate" o) ;;
    d <-? z_number (get_prop "sampleCount" o) ;;
    e <-? z_string (get_prop "confidence" o) ;;
    Some (Build_RecommendedMapping a b c d e)).

Definition OverallSchema : JsValue -> option Overall :=
  z_object (fun o =>
    a <-? z_number (get_prop "totalTasks" o) ;;
    b <-? z_number (get_prop "successRate" o) ;;
    c <-? z_number (get_prop "avgDurationMs" o) ;;
    Some (Build_Overall a b c)).

Definition WeatherResponseSchema : JsValue -> option WeatherResponse :=
  z_object (fun o =>
    a <-? OverallSchema (get_prop "overall" o) ;;
    b <-? z_array CliWeatherSchema (get_prop "cliWeather" o) ;;
    c <-? z_array AdaptiveBonusSchema (get_prop "adaptiveBonuses" o) ;;
    d <-? z_array (z_record z_unknown) (get_prop "tierRecommendations" o) ;;
    e <-? z_optional (z_array (z_record z_unknown)) (get_prop "learningInsights" o) ;;
    f <-? z_optional (z_array RecommendedMappingSchema)
            (get_prop "recommendedMappings" o) ;;
    g <-? z_number (get_prop "explorationRate" o) ;;
    h <-? z_number (get_prop "coldStartThreshold" o) ;;
    i <-? z_string (get_prop "collectedAt" o) ;;
    Some (Build_WeatherResponse a b c d e f g h i)).

Definition VoteCountsSchema : JsValue -> option VoteCounts :=
  z_object (fun o =>
    a <-? z_number (get_prop "approve" o) ;;
    b <-? z_number (get_prop "reject" o) ;;
    c <-? z_number (get_prop "abstain" o) ;;
    d <-? z_number (get_prop "error" o) ;;
    Some (Build_VoteCounts a b c d)).

Definition AgentVoteSchema : JsValue -> option AgentVote :=
  z_object (fun o =>
    a <-? z_string (get_prop "role" o) ;;
    b <-? z_enum [approve; reject; abstain] AgentDecision_str (get_prop "decision" o) ;;
    c <-? z_number (get_prop "confidence" o) ;;
    d <-? z_string (get_prop "reasoning" o) ;;
    e <-? z_boolean (get_prop "simulated" o) ;;
    f <-? z_boolean (get_prop "error" o) ;;
    Some (Build_AgentVote a b c d e f)).

Definition VoteResponseSchema : JsValue -> option VoteResponse :=
  z_object (fun o =>
    a <-? z_string (get_prop "proposal" o) ;;
    b <-? z_enum STRATEGIES VotingStrategy_str (get_prop "strategy" o) ;;
    c <-? z_enum [approved; rejected; pending; timeout] VoteDecision_str
            (get_prop "decision" o) ;;
    d <-? z_number (get_prop "approvalPercentage" o) ;;
    e <-? VoteCountsSchema (get_prop "voteCounts" o) ;;
    f <-? z_array AgentVoteSchema (get_prop "votes" o) ;;
    g <-? z_number (get_prop "durationMs" o) ;;
    h <-? z_boolean (get_prop "simulateVotes" o) ;;
    Some (Build_VoteResponse a b c d e f g h)).

(* ================================================================== *)
(** ** Numbers to strings and back

    [Number::toString] in radix 10 prints the shortest decimal that reads
    back as the same number, and [StringNumericValue] rounds a decimal to
    the nearest number, ties to even. *)

Definition digit_char (d : Z) : ascii := ascii_of_nat (48 + Z.to_nat d).

Fixpoint dec_digits (fuel : nat) (z : Z) (acc : string) : string :=
  match fuel with
  | O => acc
  | S fuel' =>
      let acc' := String (digit_char (z mod 10)) acc in
      if (z <? 10)%Z then acc' else dec_digits fuel' (z / 10) acc'
  end.

(** The decimal digits of a non-negative integer. *)
Definition Z_to_dec (z : Z) : string :=
  dec_digits (S (Z.to_nat (Z.log2 z))) z "".

(** Template-literal interpolation of an array length. *)
Definition nat_to_string (n : nat) : string := Z_to_dec (Z.of_nat n).

Fixpoint zeros (n : nat) : string :=
  match n with O => "" | S n' => String "0" (zeros n') end.

Fixpoint take (n : nat) (s : string) : string :=
  match n, s with
  | S n', String c s' => String c (take n' s')
  | _, _ => ""
  end.

Fixpoint drop (n : nat) (s : string) : string :=
  match n, s with
  | S n', String _ s' => drop n' s'
  | _, _ => s
  end.

(** The number nearest to [num / den], for positive [num] and [den]. *)
Definition round_ratio (num den : Z) : number :=
  let '(q, e, l) := SFdiv_core_binary prec emax num 0 den 0 in
  binary_round_aux prec emax false q e l.

(** The number nearest to [s * 10 ^ p], for [s >= 0]. *)
Definition decimal_to_number (s p : Z) : number :=
  if (s =? 0)%Z then num_zero
  else if (0 <=? p)%Z then Number_of_Z (s * 10 ^ p)
  else round_ratio s (10 ^ (- p)).

Definition number_eqb (x y : number) : bool :=
  match x, y with
  | S754_zero a, S754_zero b => Bool.eqb a b
  | S754_infinity a, S754_infinity b => Bool.eqb a b
  | S754_nan, S754_nan => true
  | S754_finite a m e, S754_finite b m' e' =>
      Bool.eqb a b && Pos.eqb m m' && Z.eqb e e'
  | _, _ => false
  end.

(** [num / den * 10 ^ p] as a fraction. *)
Definition scale10 (num den p : Z) : Z * Z :=
  if (0 <=? p)%Z then (num * 10 ^ p, den)%Z else (num, den * 10 ^ (- p))%Z.

(** The [n] with [10 ^ (n - 1) <= num / den < 10 ^ n], for [num < den]. *)
Fixpoint magnitude_below (fuel : nat) (num den j : Z) : Z :=
  match fuel with
  | O => (1 - j)%Z
  | S fuel' =>
      if (den <=? num * 10 ^ j)%Z then (1 - j)%Z
      else magnitude_below fuel' num den (j + 1)
  end.

(** The [n] with [10 ^ (n - 1) <= num / den < 10 ^ n]. *)
Definition magnitude10 (num den : Z) : Z :=
  if (den <=? num)%Z
  then Z.of_nat (String.length (Z_to_dec (num / den)))
  else magnitude_below (S (Z.to_nat (Z.log2 den))) num den 1.

(** The digits [s], the exponent [n] and the length [k] of the shortest
    decimal [s * 10 ^ (n - k)], [10 ^ (k - 1) <= s < 10 ^ k], that reads back
    as the positive number [x = num / den]; among the candidates of one
    length the one nearest to [x], the even one on a tie.  Seventeen digits
    always suffice; should the search run out of [fuel], the answer is [exact],
    the decimal that is [x] exactly. *)
Fixpoint shortest_digits (fuel : nat) (x : number) (num den n k : Z)
  (exact : Z * Z * Z) : Z * Z * Z :=
  let '(a, b) := scale10 num den (k - n) in
  let lo := (a / b)%Z in
  let hi := if (lo + 1 =? 10 ^ k)%Z then (10 ^ (k - 1), n + 1)%Z else (lo + 1, n)%Z in
  let in_range s := ((10 ^ (k - 1) <=? s) && (s <? 10 ^ k))%Z in
  let ok_lo := in_range lo && number_eqb (decimal_to_number lo (n - k)) x in
  let ok_hi := in_range (fst hi)
               && number_eqb (decimal_to_number (fst hi) (snd hi - k)) x in
  let prefer_hi :=
    match (2 * a ?= (2 * lo + 1) * b)%Z with
    | Lt => false
    | Gt => true
    | Eq => Z.odd lo
    end in
  match fuel with
  | O => exact
  | S fuel' =>
      if ok_lo && ok_hi then
        if prefer_hi then (fst hi, snd hi, k) else (lo, n, k)
      else if ok_lo then (lo, n, k)
      else if ok_hi then (fst hi, snd hi, k)
      else shortest_digits fuel' x num den n (k + 1) exact
  end.

(** The decimal that is [m * 2 ^ e] exactly: its digits, its exponent [n]
    and its length. *)
Definition exact_digits (m : positive) (e : Z) : Z * Z * Z :=
  let s := if (0 <=? e)%Z then (Zpos m * 2 ^ e)%Z else (Zpos m * 5 ^ (- e))%Z in
  let k := Z.of_nat (String.length (Z_to_dec s)) in
  (s, (if (0 <=? e)%Z then 0 else e) + k, k)%Z.

(** The sign and the digits of a decimal exponent, as in [e+21] and [e-7]. *)
Definition exponent_str (e : Z) : string :=
  (if (e <? 0)%Z then "-" else "+") ++ Z_to_dec (Z.abs e).

(** Steps 6 to 10 of [Number::toString]: lay out the digits [s] of length
    [k] for the decimal exponent [n]. *)
Definition layout_digits (s n k : Z) : string :=
  let ds := Z_to_dec s in
  if ((k <=? n) && (n <=? 21))%Z then ds ++ zeros (Z.to_nat (n - k))
  else if ((0 <? n) && (n <=? 21))%Z then
    take (Z.to_nat n) ds ++ "." ++ drop (Z.to_nat n) ds
  else if ((-6 <? n) && (n <=? 0))%Z then "0." ++ zeros (Z.to_nat (- n)) ++ ds
  else if (k =? 1)%Z then ds ++ "e" ++ exponent_str (n - 1)
  else take 1 ds ++ "." ++ drop 1 ds ++ "e" ++ exponent_str (n - 1).

(** [Number::toString(x, 10)]. *)
Definition Number_toString (x : number) : string :=
  match x with
  | S754_nan => "NaN"
  | S754_zero _ => "0"
  | S754_infinity s => if s then "-Infinity" else "Infinity"
  | S754_finite s m e =>
      let num := if (0 <=? e)%Z then (Zpos m * 2 ^ e)%Z else Zpos m in
      let den := if (0 <=? e)%Z then 1%Z else (2 ^ (- e))%Z in
      let '(d, n, k) :=
        shortest_digits 20 (S754_finite false m e) num den (magnitude10 num den) 1
                        (exact_digits m e) in
      (if s then "-" else "") ++ layout_digits d n k
  end.

(* ================================================================== *)
(** ** [oracle-pipeline.ts]: the tool caller and [async] functions *)

(** How a promise settles.  What is thrown is either whatever the tool
    caller rejected with or the schema's validation error. *)
Inductive Thrown : Type :=
| CallRejected (reason : JsValue)
| ZodError.

Inductive Settled (A : Type) : Type :=
| Fulfilled (a : A)
| Rejected (e : Thrown).

Arguments Fulfilled {A} a.
Arguments Rejected {A} e.

(** One invocation of the boundary: the tool name and the argument map. *)
Definition Call : Type := (string * list (string * JsValue))%type.

Section WithCaller.

(** The private state of the tool caller (a connection, a counter of a
    test double, ...). *)
Context {St : Type}.

(** [interface ToolCaller]: [call(toolName, args)] settles with a value of
    unknown shape or rejects, and may change the caller's own state. *)
Record ToolCaller : Type := {
  call : string -> list (string * JsValue) -> St -> Settled JsValue * St
}.

(** What an awaited call acts on: the caller's state and the calls issued
    so far, oldest first. *)
Record World : Type := {
  caller_state : St;
  calls : list Call
}.

Definition Async (A : Type) : Type := World -> Settled A * World.

Definition ret {A : Type} (a : A) : Async A := fun w => (Fulfilled a, w).

Definition throw {A : Type} (e : Thrown) : Async A := fun w => (Rejected e, w).

Definition bind {A B : Type} (m : Async A) (k : A -> Async B) : Async B :=
  fun w =>
    match m w with
    | (Fulfilled a, w') => k a w'
    | (Rejected e, w') => (Rejected e, w')
    end.

(** [try { m } catch { h }]: the handler does not look at what was thrown. *)
Definition try_catch {A : Type} (m : Async A) (h : Async A) : Async A :=
  fun w =>
    match m w with
    | (Fulfilled a, w') => (Fulfilled a, w')
    | (Rejected _, w') => h w'
    end.

(** [await caller.call(toolName, args)]. *)
Definition await_call (caller : ToolCaller) (toolName : string)
  (args : list (string * JsValue)) : Async JsValue :=
  fun w =>
    let '(r, s') := call caller toolName args (caller_state w) in
    (r, {| caller_state := s'; calls := calls w ++ [(toolName, args)] |}).

(** [schema.parse(raw)], throwing on a shape mismatch. *)
Definition parse {A : Type} (schema : JsValue -> option A) (raw : JsValue)
  : Async A :=
  match schema raw with
  | Some a => ret a
  | None => throw ZodError
  end.

Notation "x <- m ;; k" := (bind m (fun x => k))
  (at level 61, m at next level, right associativity).

(** The bidirectional-substring rule of [routeAndValidate]. *)
Definition model_matches (recommended_model m : string) : bool :=
  includes recommended_model m || includes m recommended_model.

(** Step 1: Route a task and validate against expectation. *)
Definition routeAndValidate (caller : ToolCaller) (expectation : RoutingExpectation)
  : Async RoutingValidation :=
  raw <- await_call caller "delegate_to_model"
           [("task", JsString (task expectation));
            ("preferred_capability",
             JsString (Capability_str (preferredCapability expectation)))] ;;
  result <- parse DelegateResponseSchema raw ;;
  let correct :=
    existsb (fun m => model_matches (recommended_model result) m)
            (acceptableModels expectation) in
  ret {| category := exp_category expectation;
         recommended := recommended_model result;
         expected := expectedPrimaryCli expectation;
         correct := correct;
         reasoning := dr_reasoning result;
         alternatives := map alt_model (dr_alternatives result) |}.

(** Step 2: Fetch weather report for routing context. *)
Definition fetchWeather (caller : ToolCaller) : Async WeatherResponse :=
  raw <- await_call caller "weather_report" [("includeAdaptive", JsBool true)] ;;
  parse WeatherResponseSchema raw.

(** The count of validations flagged correct: [filter(v => v.correct).length]. *)
Definition count_correct (validations : list RoutingValidation) : nat :=
  length (filter correct validations).

(** One line of the proposal's summary. *)
Definition summary_line (v : RoutingValidation) : string :=
  TaskCategory_str (category v) ++ ": " ++
  (if correct v then "CORRECT" else "WRONG") ++ " " ++
  "(got " ++ recommended v ++ ", expected " ++ expected v ++ ")".

(** The proposal text of [voteOnQuality]. *)
Definition build_proposal (validations : list RoutingValidation) : string :=
  let correct := count_correct validations in
  let total := length validations in
  let accuracy :=
    if (0 <? total)%nat
    then Math_round (num_mul (num_div (Number_of_nat correct) (Number_of_nat total))
                             (Number_of_Z 100))
    else num_zero in
  let summary := join LF (map summary_line validations) in
  "Routing accuracy is " ++ Number_toString accuracy ++ "% (" ++
    nat_to_string correct ++ "/" ++ nat_to_string total ++ " correct)." ++ LF ++ LF ++
  "Results:" ++ LF ++ summary ++ LF ++ LF ++
  "Should we approve this routing quality?".

(** Step 3: Vote on routing quality.  An omitted or [undefined] strategy
    takes the default ['simple_majority']. *)
Definition voteOnQuality (caller : ToolCaller)
  (validations : list RoutingValidation) (strategy : option VotingStrategy)
  : Async VoteResponse :=
  let strategy := match strategy with Some s => s | None => simple_majority end in
  let proposal := build_proposal validations in
  raw <- await_call caller "consensus_vote"
           [("proposal", JsString proposal);
            ("strategy", JsString (VotingStrategy_str strategy));
            ("quickMode", JsBool true);
            ("simulateVotes", JsBool false)] ;;
  parse VoteResponseSchema raw.

(** Compute accuracy from validations. *)
Definition computeAccuracy (validations : list RoutingValidation) : number :=
  if (length validations =? 0)%nat then num_zero
  else
    let correct := count_correct validations in
    num_div
      (Math_round
         (num_mul (num_div (Number_of_nat correct)
                           (Number_of_nat (length validations)))
                  (Number_of_Z 1000)))
      (Number_of_Z 1000).

(** Extract misrouted categories from validations. *)
Definition getMisrouted (validations : list RoutingValidation)
  : list RoutingValidation :=
  filter (fun v => negb (correct v)) validations.

(** Check if weather confirms expected CLI for a category.  The optional
    chain yields [undefined] when there is no mapping list. *)
Definition weatherConfirms (weather : WeatherResponse) (category expectedCli : string)
  : bool :=
  let mapping :=
    match recommendedMappings weather with
    | Some mappings => find (fun m => String.eqb (rm_category m) category) mappings
    | None => None
    end in
  match mapping with
  | None => false
  | Some mapping => String.eqb (recommendedCli mapping) expectedCli
  end.

(** The validation pushed by the [catch] branch of the routing loop. *)
Definition error_validation (exp : RoutingExpectation) : RoutingValidation :=
  {| category := exp_category exp;
     recommended := "ERROR";
     expected := expectedPrimaryCli exp;
     correct := false;
     reasoning := "Tool call failed";
     alternatives := [] |}.

(** The [for ... of] loop of step 1; [validations] is the array being
    pushed to. *)
Fixpoint route_all (caller : ToolCaller) (exps : list RoutingExpectation)
  (validations : list RoutingValidation) : Async (list RoutingValidation) :=
  match exps with
  | [] => ret validations
  | exp :: rest =>
      validations' <-
        try_catch
          (v <- routeAndValidate caller exp ;; ret (validations ++ [v]))
          (ret (validations ++ [error_validation exp])) ;;
      route_all caller rest validations'
  end.

(** [x === true] on an optional boolean property. *)
Definition is_true (b : option bool) : bool :=
  match b with Some true => true | _ => false end.

(** Run the complete routing oracle pipeline. *)
Definition runOraclePipeline (caller : ToolCaller) (config : OracleConfig)
  : Async OracleReport :=
  (* Step 1: Route all tasks *)
  validations <- route_all caller (expectations config) [] ;;
  let accuracy := computeAccuracy validations in
  (* Step 2: Fetch weather (if configured) *)
  weather <-
    (if is_true (includeWeather config)
     then try_catch (w <- fetchWeather caller ;; ret (Some w)) (ret None)
     else ret None) ;;
  (* Step 3: Vote on quality (if configured) *)
  voteResult <-
    (if is_true (includeVote config)
     then try_catch
            (v <- voteOnQuality caller validations (voteStrategy config) ;;
             ret (Some v))
            (ret None)
     else ret None) ;;
  ret {| validations := validations;
         accuracy := accuracy;
         weather := weather;
         voteResult := voteResult |}.

End WithCaller.

Arguments ToolCaller St : clear implicits.
Arguments World St : clear implicits.
Arguments Async St A : clear implicits.

(* ================================================================== *)
(** ** [JSON.stringify(value, null, 2)] and [JSON.parse(text)]

    The two built-ins as ECMA-262 specifies them, on [JsValue]. *)

Definition DQUOTE : ascii := ascii_of_nat 34.
Definition BACKSLASH : ascii := ascii_of_nat 92.

Definition is_finite (x : number) : bool :=
  match x with
  | S754_zero _ | S754_finite _ _ _ => true
  | S754_infinity _ | S754_nan => false
  end.

(** A hexadecimal digit, in lower case. *)
Definition hex_char (d : N) : ascii :=
  if (d <? 10)%N then ascii_of_N (48 + d) else ascii_of_N (87 + d).

(** [QuoteJSONString] on one code unit: the short escapes, [\u00xx] for the
    other control characters, the code unit itself otherwise. *)
Definition escape_char (c : ascii) : string :=
  let n := N_of_ascii c in
  if (n =? 8)%N then String BACKSLASH "b"
  else if (n =? 9)%N then String BACKSLASH "t"
  else if (n =? 10)%N then String BACKSLASH "n"
  else if (n =? 12)%N then String BACKSLASH "f"
  else if (n =? 13)%N then String BACKSLASH "r"
  else if (n =? 34)%N then String BACKSLASH (String DQUOTE "")
  else if (n =? 92)%N then String BACKSLASH (String BACKSLASH "")
  else if (n <? 32)%N then
    String BACKSLASH
      (String "u" (String "0" (String "0"
         (String (hex_char (n / 16)) (String (hex_char (n mod 16)) "")))))
  else String c "".

Fixpoint quote_body (s : string) : string :=
  match s with
  | EmptyString => ""
  | String c rest => escape_char c ++ quote_body rest
  end.

Definition QuoteJSONString (s : string) : string :=
  String DQUOTE (quote_body s ++ String DQUOTE "").

(** The gap of [JSON.stringify(value, null, 2)]: two spaces. *)
Definition gap : string := "  ".

(** [SerializeJSONProperty], with [SerializeJSONArray] and
    [SerializeJSONObject] as the inner loops: [None] is [undefined].  An
    [undefined] element of an array is written [null]; a property whose value
    is [undefined] is left out. *)
Fixpoint SerializeJSONProperty (indent : string) (v : JsValue) {struct v}
  : option string :=
  match v with
  | JsUndefined => None
  | JsNull => Some "null"
  | JsBool b => Some (if b then "true" else "false")
  | JsNumber x => Some (if is_finite x then Number_toString x else "null")
  | JsString s => Some (QuoteJSONString s)
  | JsArray items =>
      let stepback := indent in
      let indent := (indent ++ gap)%string in
      let partial :=
        (fix elements (l : list JsValue) : list string :=
           match l with
           | [] => []
           | x :: rest =>
               match SerializeJSONProperty indent x with
               | Some str => str
               | None => "null"
               end :: elements rest
           end) items in
      Some match partial with
           | [] => "[]"
           | _ =>
               ("[" ++ LF ++ indent ++ join ("," ++ LF ++ indent) partial
                ++ LF ++ stepback ++ "]")%string
           end
  | JsObject props =>
      let stepback := indent in
      let indent := (indent ++ gap)%string in
      let partial :=
        (fix members (l : list (string * JsValue)) : list string :=
           match l with
           | [] => []
           | (k, x) :: rest =>
               match SerializeJSONProperty indent x with
               | Some str => (QuoteJSONString k ++ ": " ++ str)%string :: members rest
               | None => members rest
               end
           end) props in
      Some match partial with
           | [] => "{}"
           | _ =>
               ("{" ++ LF ++ indent ++ join ("," ++ LF ++ indent) partial
                ++ LF ++ stepback ++ "}")%string
           end
  end.

Definition JSON_stringify (v : JsValue) : option string :=
  SerializeJSONProperty "" v.

(** *** Parsing *)

Definition is_ws (c : ascii) : bool :=
  let n := N_of_ascii c in
  ((n =? 32) || (n =? 9) || (n =? 10) || (n =? 13))%N.

Fixpoint skip_ws (s : string) : string :=
  match s with
  | EmptyString => ""
  | String c rest => if is_ws c then skip_ws rest else s
  end.

Definition is_digit (c : ascii) : bool :=
  let n := N_of_ascii c in ((48 <=? n) && (n <=? 57))%N.

(** The characters a JSON number is made of. *)
Definition is_number_char (c : ascii) : bool :=
  is_digit c ||
  (let n := N_of_ascii c in ((n =? 43) || (n =? 45) || (n =? 46) || (n =? 69) || (n =? 101))%N).

(** The longest prefix of characters satisfying [p], and the rest. *)
Fixpoint span (p : ascii -> bool) (s : string) : string * string :=
  match s with
  | EmptyString => ("", "")
  | String c rest =>
      if p c then let '(a, b) := span p rest in (String c a, b) else ("", s)
  end.

Definition digit_value (c : ascii) : Z := Z.of_N (N_of_ascii c) - 48.

(** The integer a string of decimal digits denotes. *)
Definition Z_of_digits (s : string) : Z :=
  fold_left (fun acc c => (10 * acc + digit_value c)%Z) (list_ascii_of_string s) 0%Z.

(** The exponent part of a JSON number: [e] or [E], a sign, digits. *)
Definition parse_exponent (s : string) : option Z :=
  match s with
  | EmptyString => Some 0%Z
  | String c rest =>
      if ((N_of_ascii c =? 101) || (N_of_ascii c =? 69))%N then
        let '(neg, ds) :=
          match rest with
          | String sign rest' =>
              if (N_of_ascii sign =? 45)%N then (true, rest')
              else if (N_of_ascii sign =? 43)%N then (false, rest')
              else (false, rest)
          | EmptyString => (false, rest)
          end in
        match span is_digit ds with
        | (EmptyString, _) => None
        | (digits, EmptyString) =>
            Some (if neg then (- Z_of_digits digits)%Z else Z_of_digits digits)
        | (_, String _ _) => None
        end
      else None
  end.

(** The value of a JSON number token: [-? int frac? exp?], rounded to the
    nearest number. *)
Definition parse_number (tok : string) : option number :=
  let '(neg, s1) :=
    match tok with
    | String c rest => if (N_of_ascii c =? 45)%N then (true, rest) else (false, tok)
    | EmptyString => (false, tok)
    end in
  let '(int_part, s2) := span is_digit s1 in
  let int_ok :=
    match int_part with
    | EmptyString => false
    | String c EmptyString => true
    | String c _ => negb (N_of_ascii c =? 48)%N
    end in
  let '(frac_part, s3) :=
    match s2 with
    | String c rest =>
        if (N_of_ascii c =? 46)%N
        then let '(f, r) := span is_digit rest in (Some f, r)
        else (None, s2)
    | EmptyString => (None, s2)
    end in
  let frac_ok := match frac_part with Some EmptyString => false | _ => true end in
  let frac := match frac_part with Some f => f | None => "" end in
  if int_ok && frac_ok then
    match parse_exponent s3 with
    | Some e =>
        let magnitude :=
          decimal_to_number (Z_of_digits (int_part ++ frac)%string)
                            (e - Z.of_nat (String.length frac)) in
        Some (if neg then SFopp magnitude else magnitude)
    | None => None
    end
  else None.

Definition hex_value (c : ascii) : option N :=
  let n := N_of_ascii c in
  if ((48 <=? n) && (n <=? 57))%N then Some (n - 48)%N
  else if ((97 <=? n) && (n <=? 102))%N then Some (n - 87)%N
  else if ((65 <=? n) && (n <=? 70))%N then Some (n - 55)%N
  else None.

(** The character an escape letter stands for. *)
Definition unescape (e : ascii) : option ascii :=
  let n := N_of_ascii e in
  if (n =? 34)%N then Some DQUOTE
  else if (n =? 92)%N then Some BACKSLASH
  else if (n =? 47)%N then Some "/"%char
  else if (n =? 98)%N then Some (ascii_of_N 8)
  else if (n =? 102)%N then Some (ascii_of_N 12)
  else if (n =? 110)%N then Some (ascii_of_N 10)
  else if (n =? 114)%N then Some (ascii_of_N 13)
  else if (n =? 116)%N then Some (ascii_of_N 9)
  else None.

(** The characters of a string literal after its opening quote, up to the
    closing quote, and what follows it.  A code unit above [0xFF] has no
    counterpart in [string]: at an escape for one the reader gives up, and
    [JSON_parse] below reports the text as outside this development. *)
Fixpoint parse_string_body (s : string) : option (string * string) :=
  match s with
  | EmptyString => None
  | String c rest =>
      if Ascii.eqb c DQUOTE then Some ("", rest)
      else if Ascii.eqb c BACKSLASH then
        match rest with
        | EmptyString => None
        | String e rest1 =>
            if Ascii.eqb e "u" then
              match rest1 with
              | String h1 (String h2 (String h3 (String h4 rest2))) =>
                  match hex_value h1, hex_value h2, hex_value h3, hex_value h4 with
                  | Some a, Some b, Some c', Some d =>
                      if ((a =? 0) && (b =? 0))%N then
                        match parse_string_body rest2 with
                        | Some (body, after) =>
                            Some (String (ascii_of_N (16 * c' + d)) body, after)
                        | None => None
                        end
                      else None
                  | _, _, _, _ => None
                  end
              | _ => None
              end
            else
              match unescape e with
              | Some c' =>
                  match parse_string_body rest1 with
                  | Some (body, after) => Some (String c' body, after)
                  | None => None
                  end
              | None => None
              end
        end
      else if (N_of_ascii c <? 32)%N then None
      else
        match parse_string_body rest with
        | Some (body, after) => Some (String c body, after)
        | None => None
        end
  end.

(** An array index: the canonical decimal form of an integer from 0 to
    [2 ^ 32 - 2].  An object lists the properties so named first, by
    ascending index, and its other properties after them, in the order of
    their creation ([OrdinaryOwnPropertyKeys]). *)
Definition array_index (key : string) : option Z :=
  match key with
  | EmptyString => None
  | String c rest =>
      let canonical :=
        forallb is_digit (list_ascii_of_string key)
        && (negb (N_of_ascii c =? 48)%N
            || match rest with EmptyString => true | String _ _ => false end) in
      if canonical && (Z_of_digits key <? 2 ^ 32 - 1)%Z
      then Some (Z_of_digits key) else None
  end.

Definition has_prop (key : string) (props : list (string * JsValue)) : bool :=
  existsb (fun kv => String.eqb (fst kv) key) props.

(** A new value for the property [key], where the property is. *)
Fixpoint overwrite_prop (key : string) (v : JsValue) (props : list (string * JsValue))
  : list (string * JsValue) :=
  match props with
  | [] => []
  | (k, x) :: rest =>
      if String.eqb k key then (k, v) :: rest else (k, x) :: overwrite_prop key v rest
  end.

(** A new property whose name is the array index [i], among the properties
    named by array indices. *)
Fixpoint insert_index (i : Z) (key : string) (v : JsValue)
  (props : list (string * JsValue)) : list (string * JsValue) :=
  match props with
  | [] => [(key, v)]
  | (k, x) :: rest =>
      match array_index k with
      | Some j =>
          if (j <? i)%Z then (k, x) :: insert_index i key v rest
          else (key, v) :: props
      | None => (key, v) :: props
      end
  end.

(** [CreateDataProperty] on the object being read: a repeated name
    overwrites the value in place; a new name takes its place in the order
    of enumeration. *)
Definition set_prop (key : string) (v : JsValue) (props : list (string * JsValue))
  : list (string * JsValue) :=
  if has_prop key props then overwrite_prop key v props
  else
    match array_index key with
    | Some i => insert_index i key v props
    | None => props ++ [(key, v)]
    end.

(** A JSON value at the head of [s], after white space, and what follows
    it.  Every call spends one unit of [fuel]. *)
Fixpoint parse_value (fuel : nat) (s : string) {struct fuel}
  : option (JsValue * string) :=
  match fuel with
  | O => None
  | S fuel' =>
      match skip_ws s with
      | EmptyString => None
      | String c rest =>
          if Ascii.eqb c "{" then
            match skip_ws rest with
            | String c' rest' =>
                if Ascii.eqb c' "}" then Some (JsObject [], rest')
                else parse_members fuel' rest []
            | EmptyString => None
            end
          else if Ascii.eqb c "[" then
            match skip_ws rest with
            | String c' rest' =>
                if Ascii.eqb c' "]" then Some (JsArray [], rest')
                else parse_elements fuel' rest []
            | EmptyString => None
            end
          else if Ascii.eqb c DQUOTE then
            match parse_string_body rest with
            | Some (str, after) => Some (JsString str, after)
            | None => None
            end
          else if starts_with (String c rest) "true"
          then Some (JsBool true, drop 4 (String c rest))
          else if starts_with (String c rest) "false"
          then Some (JsBool false, drop 5 (String c rest))
          else if starts_with (String c rest) "null"
          then Some (JsNull, drop 4 (String c rest))
          else
            let '(tok, after) := span is_number_char (String c rest) in
            match parse_number tok with
            | Some x => Some (JsNumber x, after)
            | None => None
            end
      end
  end
with parse_elements (fuel : nat) (s : string) (acc : list JsValue) {struct fuel}
  : option (JsValue * string) :=
  match fuel with
  | O => None
  | S fuel' =>
      match parse_value fuel' s with
      | Some (v, after) =>
          match skip_ws after with
          | String c rest =>
              if Ascii.eqb c "," then parse_elements fuel' rest (acc ++ [v])
              else if Ascii.eqb c "]" then Some (JsArray (acc ++ [v]), rest)
              else None
          | EmptyString => None
          end
      | None => None
      end
  end
with parse_members (fuel : nat) (s : string) (acc : list (string * JsValue))
  {struct fuel} : option (JsValue * string) :=
  match fuel with
  | O => None
  | S fuel' =>
      match skip_ws s with
      | String q rest =>
          if Ascii.eqb q DQUOTE then
            match parse_string_body rest with
            | Some (key, after_key) =>
                match skip_ws after_key with
                | String colon rest1 =>
                    if Ascii.eqb colon ":" then
                      match parse_value fuel' rest1 with
                      | Some (v, after) =>
                          match skip_ws after with
                          | String c rest2 =>
                              if Ascii.eqb c ","
                              then parse_members fuel' rest2 (set_prop key v acc)
                              else if Ascii.eqb c "}"
                              then Some (JsObject (set_prop key v acc), rest2)
                              else None
                          | EmptyString => None
                          end
                      | None => None
                      end
                    else None
                | EmptyString => None
                end
            | None => None
            end
          else None
      | EmptyString => None
      end
  end.

(** What [JSON.parse(text)] does: it returns a value, or it throws a
    [SyntaxError]; [Unrepresented] is for the texts this development cannot
    follow it on. *)
Inductive Parsed : Type :=
| Value (v : JsValue)
| SyntaxError
| Unrepresented.

(** An escape [\uXXXX] for a code unit above [0xFF], anywhere in the text. *)
Fixpoint has_wide_escape (s : string) : bool :=
  match s with
  | EmptyString => false
  | String c rest =>
      (Ascii.eqb c BACKSLASH
       && match rest with
          | String u (String h1 (String h2 (String h3 (String h4 _)))) =>
              Ascii.eqb u "u"
              && match hex_value h1, hex_value h2, hex_value h3, hex_value h4 with
                 | Some a, Some b, Some _, Some _ => negb ((a =? 0) && (b =? 0))%N
                 | _, _, _, _ => false
                 end
          | _ => false
          end)
      || has_wide_escape rest
  end.

(** [JSON.parse(text)]: one value, white space around it, nothing else.
    When the reader gives up on a text that holds an escape for a code unit
    above [0xFF], [JSON.parse] may well read the text, to a string that has
    no counterpart in [string]: nothing is said of such a text. *)
Definition JSON_parse (text : string) : Parsed :=
  match parse_value (2 * String.length text + 2) text with
  | Some (v, after) =>
      match skip_ws after with
      | EmptyString => Value v
      | String _ _ => SyntaxError
      end
  | None => if has_wide_escape text then Unrepresented else SyntaxError
  end.


(** *** What survives the round trip *)

(** The number is finite and is not [-0] (which is printed ["0"]).  A
    finite number is a mantissa and an exponent in the canonical form of
    binary64, as every number an operation returns is. *)
Definition json_number_ok (x : number) : bool :=
  match x with
  | S754_zero s => negb s
  | S754_finite _ m e => bounded prec emax m e
  | S754_infinity _ | S754_nan => false
  end.

Fixpoint distinct (keys : list string) : bool :=
  match keys with
  | [] => true
  | k :: rest => negb (existsb (String.eqb k) rest) && distinct rest
  end.

(** The order in which an object lists its properties: those named by
    array indices first, by ascending index, then the others. *)
Fixpoint enumeration_ordered (keys : list string) : bool :=
  match keys with
  | [] => true
  | k :: rest =>
      forallb (fun k' =>
                 match array_index k, array_index k' with
                 | Some i, Some j => (i <? j)%Z
                 | None, Some _ => false
                 | _, None => true
                 end) rest
      && enumeration_ordered rest
  end.

(** The property names of an object, as every JavaScript object has them:
    no name twice, and in the order of enumeration. *)
Definition own_keys (keys : list string) : bool :=
  distinct keys && enumeration_ordered keys.

(** A value that [JSON.stringify] writes without loss: no [undefined] and
    no number that is not finite or is [-0]; its objects list their
    properties as JavaScript objects do. *)
Fixpoint json_safe (v : JsValue) : bool :=
  match v with
  | JsUndefined => false
  | JsNull | JsBool _ | JsString _ => true
  | JsNumber x => json_number_ok x
  | JsArray items => forallb json_safe items
  | JsObject props =>
      forallb (fun kv => json_safe (snd kv)) props && own_keys (map fst props)
  end.

(** The fuel [parse_value] needs to read a value back. *)
Fixpoint fuel_for (v : JsValue) : nat :=
  match v with
  | JsArray items => S (list_sum (map (fun x => S (fuel_for x)) items))
  | JsObject props => S (list_sum (map (fun kv => S (fuel_for (snd kv))) props))
  | _ => 1
  end.

(** What [SerializeJSONArray] writes for an element. *)
Definition elem_str (indent : string) (x : JsValue) : string :=
  match SerializeJSONProperty indent x with
  | Some str => str
  | None => "null"
  end.

(** What [SerializeJSONObject] writes for a property with a value. *)
Definition member_str (indent : string) (kv : string * JsValue) : string :=
  (QuoteJSONString (fst kv) ++ ": " ++ elem_str indent (snd kv))%string.

Definition all_ws (s : string) : bool := forallb is_ws (list_ascii_of_string s).

(** Nothing follows, or what follows cannot continue a number. *)
Definition delimited (rest : string) : bool :=
  match rest with
  | EmptyString => true
  | String c _ => negb (is_number_char c)
  end.

(* ================================================================== *)
(** ** Reports as JavaScript values

    The object a typed value is at run time: the properties in the order
    the pipeline and the schemas create them, an absent optional property
    left out, [null] for an absent telemetry snapshot or vote outcome. *)

Definition optional_prop {A : Type} (name : string) (to_js : A -> JsValue)
  (o : option A) : list (string * JsValue) :=
  match o with
  | Some a => [(name, to_js a)]
  | None => []
  end.

Definition RoutingValidation_to_js (v : RoutingValidation) : JsValue :=
  JsObject
    [("category", JsString (TaskCategory_str (category v)));
     ("recommended", JsString (recommended v));
     ("expected", JsString (expected v));
     ("correct", JsBool (correct v));
     ("reasoning", JsString (reasoning v));
     ("alternatives", JsArray (map JsString (alternatives v)))].

Definition CategoryStats_to_js (c : CategoryStats) : JsValue :=
  JsObject
    [("count", JsNumber (cs_count c));
     ("successRate", JsNumber (cs_successRate c));
     ("avgDurationMs", JsNumber (cs_avgDurationMs c))].

Definition CliWeather_to_js (c : CliWeather) : JsValue :=
  JsObject
    [("cli", JsString (cw_cli c));
     ("totalTasks", JsNumber (cw_totalTasks c));
     ("successRate", JsNumber (cw_successRate c));
     ("avgDurationMs", JsNumber (cw_avgDurationMs c));
     ("byCategory",
      JsObject (map (fun kv => (fst kv, CategoryStats_to_js (snd kv)))
                    (cw_byCategory c)))].

Definition AdaptiveBonus_to_js (b : AdaptiveBonus) : JsValue :=
  JsObject
    [("cli", JsString (ab_cli b));
     ("category", JsString (ab_category b));
     ("staticBonus", JsNumber (ab_staticBonus b));
     ("adaptiveBonus", JsNumber (ab_adaptiveBonus b));
     ("sampleCount", JsNumber (ab_sampleCount b));
     ("sufficient", JsBool (ab_sufficient b))].

Definition RecommendedMapping_to_js (m : RecommendedMapping) : JsValue :=
  JsObject
    [("category", JsString (rm_category m));
     ("recommendedCli", JsString (recommendedCli m));
     ("successRate", JsNumber (rm_successRate m));
     ("sampleCount", JsNumber (rm_sampleCount m));
     ("confidence", JsString (rm_confidence m))].

Definition WeatherResponse_to_js (w : WeatherResponse) : JsValue :=
  JsObject
    ([("overall",
       JsObject
         [("totalTasks", JsNumber (ov_totalTasks (overall w)));
          ("successRate", JsNumber (ov_successRate (overall w)));
          ("avgDurationMs", JsNumber (ov_avgDurationMs (overall w)))]);
      ("cliWeather", JsArray (map CliWeather_to_js (cliWeather w)));
      ("adaptiveBonuses", JsArray (map AdaptiveBonus_to_js (adaptiveBonuses w)));
      ("tierRecommendations", JsArray (map JsObject (tierRecommendations w)))]
     ++ optional_prop "learningInsights" (fun l => JsArray (map JsObject l))
          (learningInsights w)
     ++ optional_prop "recommendedMappings"
          (fun l => JsArray (map RecommendedMapping_to_js l)) (recommendedMappings w)
     ++ [("explorationRate", JsNumber (explorationRate w));
         ("coldStartThreshold", JsNumber (coldStartThreshold w));
         ("collectedAt", JsString (collectedAt w))]).

Definition AgentVote_to_js (a : AgentVote) : JsValue :=
  JsObject
    [("role", JsString (av_role a));
     ("decision", JsString (AgentDecision_str (av_decision a)));
     ("confidence", JsNumber (av_confidence a));
     ("reasoning", JsString (av_reasoning a));
     ("simulated", JsBool (av_simulated a));
     ("error", JsBool (av_error a))].

Definition VoteResponse_to_js (v : VoteResponse) : JsValue :=
  JsObject
    [("proposal", JsString (vr_proposal v));
     ("strategy", JsString (VotingStrategy_str (vr_strategy v)));
     ("decision", JsString (VoteDecision_str (vr_decision v)));
     ("approvalPercentage", JsNumber (approvalPercentage v));
     ("voteCounts",
      JsObject
        [("approve", JsNumber (vc_approve (voteCounts v)));
         ("reject", JsNumber (vc_reject (voteCounts v)));
         ("abstain", JsNumber (vc_abstain (voteCounts v)));
         ("error", JsNumber (vc_error (voteCounts v)))]);
     ("votes", JsArray (map AgentVote_to_js (votes v)));
     ("durationMs", JsNumber (durationMs v));
     ("simulateVotes", JsBool (vr_simulateVotes v))].

Definition nullable {A : Type} (to_js : A -> JsValue) (o : option A) : JsValue :=
  match o with
  | Some a => to_js a
  | None => JsNull
  end.

Definition OracleReport_to_js (report : OracleReport) : JsValue :=
  JsObject
    [("validations", JsArray (map RoutingValidation_to_js (validations report)));
     ("accuracy", JsNumber (accuracy report));
     ("weather", nullable WeatherResponse_to_js (weather report));
     ("voteResult", nullable VoteResponse_to_js (voteResult report))].

(* ================================================================== *)
(** ** [reporter.ts] *)

Inductive ReportFormat : Type := markdown | json | text.

(** [`${Math.round(x * 100)}`]. *)
Definition percent (x : number) : string :=
  Number_toString (Math_round (num_mul x (Number_of_Z 100))).

Definition generateMarkdownReport (report : OracleReport) : string :=
  let lines := ["# Routing Oracle Report"; ""] in
  let lines :=
    lines ++
    [("**Accuracy:** " ++ percent (accuracy report) ++ "% " ++
      "(" ++ nat_to_string (length (filter correct (validations report))) ++ "/" ++
      nat_to_string (length (validations report)) ++ ")")%string] in
  let lines := lines ++ [""] in
  let lines := lines ++ ["## Routing Results"; ""] in
  let lines := lines ++ ["| Category | Model | Expected CLI | Status |"] in
  let lines := lines ++ ["|----------|-------|-------------|--------|"] in
  let lines :=
    lines ++
    map (fun v =>
           let icon := if correct v then "PASS" else "FAIL" in
           ("| " ++ TaskCategory_str (category v) ++ " | " ++ recommended v ++ " | " ++
            expected v ++ " | " ++ icon ++ " |")%string)
        (validations report) in
  let lines := lines ++ [""] in
  let misrouted := filter (fun v => negb (correct v)) (validations report) in
  let lines :=
    if (0 <? length misrouted)%nat then
      lines ++ ["## Misrouted Categories"; ""] ++
      flat_map (fun v =>
                  [("- **" ++ TaskCategory_str (category v) ++ "**: got `" ++
                    recommended v ++ "`, expected `" ++ expected v ++ "`")%string;
                   ("  Reasoning: " ++ reasoning v)%string])
               misrouted ++
      [""]
    else lines in
  let lines :=
    match weather report with
    | Some w =>
        lines ++
        ["## Weather Context"; "";
         ("- Total tasks: " ++ Number_toString (ov_totalTasks (overall w)))%string;
         ("- Overall success: " ++ percent (ov_successRate (overall w)) ++ "%")%string;
         ("- CLIs reporting: " ++ nat_to_string (length (cliWeather w)))%string;
         ""]
    | None => lines
    end in
  let lines :=
    match voteResult report with
    | Some v =>
        lines ++
        ["## Quality Vote"; "";
         ("- Decision: **" ++ VoteDecision_str (vr_decision v) ++ "**")%string;
         ("- Approval: " ++ Number_toString (approvalPercentage v) ++ "%")%string;
         ("- Strategy: " ++ VotingStrategy_str (vr_strategy v))%string;
         ""]
    | None => lines
    end in
  join LF lines.

Definition formatValidationLine (v : RoutingValidation) : string :=
  let status := if correct v then "[PASS]" else "[FAIL]" in
  (status ++ " " ++ TaskCategory_str (category v) ++ ": " ++ recommended v ++
   " (expected: " ++ expected v ++ ")")%string.

Definition generateTextReport (report : OracleReport) : string :=
  let lines :=
    [("Routing Oracle: " ++ percent (accuracy report) ++ "% accuracy")%string] in
  let lines := lines ++ [""] in
  let lines := lines ++ map formatValidationLine (validations report) in
  let lines :=
    match voteResult report with
    | Some v =>
        lines ++
        ["";
         ("Vote: " ++ VoteDecision_str (vr_decision v) ++ " (" ++
          Number_toString (approvalPercentage v) ++ "%)")%string]
    | None => lines
    end in
  join LF lines.

(** Generate a formatted report from oracle results.  An omitted format is
    ['markdown'].  [JSON.stringify] of an object is never [undefined]. *)
Definition generateReport (report : OracleReport) (format : option ReportFormat)
  : string :=
  match format with
  | Some json =>
      match JSON_stringify (OracleReport_to_js report) with
      | Some str => str
      | None => ""
      end
  | Some text => generateTextReport report
  | _ => generateMarkdownReport report
  end.

(* ================================================================== *)
(** ** The routing stage, described call by call

    These definitions are not in the source: they say, without the
    [try]/[catch] and the array being pushed to, what the loop of step 1 is
    expected to compute, and the theorems below compare the loop with them. *)

(** The argument map [routeAndValidate] sends for an expectation. *)
Definition delegate_args (exp : RoutingExpectation) : list (string * JsValue) :=
  [("task", JsString (task exp));
   ("preferred_capability", JsString (Capability_str (preferredCapability exp)))].

(** The validation built from a response that passed the schema. *)
Definition validated (exp : RoutingExpectation) (result : DelegateResponse)
  : RoutingValidation :=
  {| category := exp_category exp;
     recommended := recommended_model result;
     expected := expectedPrimaryCli exp;
     correct := existsb (fun m => includes (recommended_model result) m
                                  || includes m (recommended_model result))
                        (acceptableModels exp);
     reasoning := dr_reasoning result;
     alternatives := map alt_model (dr_alternatives result) |}.

(** The routing call for an expectation failed: it rejected, or what it
    returned does not have the shape of a routing response. *)
Definition routing_failed (r : Settled JsValue) : Prop :=
  match r with
  | Rejected _ => True
  | Fulfilled raw => DelegateResponseSchema raw = None
  end.

(** How the routing calls settle when they are issued one after the other,
    in the order of the expectations, each on the state the previous one
    left; and the state after the last. *)
Fixpoint routing_outcomes {St : Type} (caller : ToolCaller St)
  (exps : list RoutingExpectation) (s : St) : list (Settled JsValue) * St :=
  match exps with
  | [] => ([], s)
  | exp :: rest =>
      let '(r, s') := call caller "delegate_to_model" (delegate_args exp) s in
      let '(rs, s'') := routing_outcomes caller rest s' in
      (r :: rs, s'')
  end.

(** The validation expected for an expectation whose call settled as [r]. *)
Definition validation_of (exp : RoutingExpectation) (r : Settled JsValue)
  : RoutingValidation :=
  match r with
  | Fulfilled raw =>
      match DelegateResponseSchema raw with
      | Some result => validated exp result
      | None => error_validation exp
      end
  | Rejected _ => error_validation exp
  end.

(** The routing call [routeAndValidate] issues for an expectation. *)
Definition delegate_call (exp : RoutingExpectation) : Call :=
  ("delegate_to_model", delegate_args exp).

(** The validations the loop is expected to push for [exps], started on
    the caller state [s]. *)
Definition expected_validations {St : Type} (caller : ToolCaller St)
  (exps : list RoutingExpectation) (s : St) : list RoutingValidation :=
  map (fun p => validation_of (fst p) (snd p))
      (combine exps (fst (routing_outcomes caller exps s))).

(** The argument map [voteOnQuality] sends for a validation list. *)
Definition vote_args (validations : list RoutingValidation)
  (strategy : option VotingStrategy) : list (string * JsValue) :=
  [("proposal", JsString (build_proposal validations));
   ("strategy",
    JsString (VotingStrategy_str
                (match strategy with Some s => s | None => simple_majority end)));
   ("quickMode", JsBool true);
   ("simulateVotes", JsBool false)].

(** The world the routing stage leaves. *)
Definition after_routing {St : Type} (caller : ToolCaller St) (config : OracleConfig)
  (w : World St) : World St :=
  {| caller_state :=
       snd (routing_outcomes caller (expectations config) (caller_state w));
     calls := calls w ++ map delegate_call (expectations config) |}.

(** The world the telemetry stage leaves: the one it found when it is not
    requested. *)
Definition after_weather {St : Type} (caller : ToolCaller St) (config : OracleConfig)
  (w : World St) : World St :=
  if is_true (includeWeather config)
  then snd (fetchWeather caller (after_routing caller config w))
  else after_routing caller config w.

(** [l] is what is left of [vs] when the validations flagged correct are
    crossed out and the others stay where they are. *)
Inductive misrouted_of : list RoutingValidation -> list RoutingValidation -> Prop :=
| misrouted_nil : misrouted_of [] []
| misrouted_keep (v : RoutingValidation) (vs l : list RoutingValidation) :
    correct v = false -> misrouted_of vs l -> misrouted_of (v :: vs) (v :: l)
| misrouted_drop (v : RoutingValidation) (vs l : list RoutingValidation) :
    correct v = true -> misrouted_of vs l -> misrouted_of (v :: vs) l.

(** [a] occurs in [b] as a contiguous run of code units. *)
Definition substring (a b : string) : Prop :=
  exists pre post : string, b = (pre ++ a ++ post)%string.

(** The acceptable set matches the recommendation: some acceptable model
    contains it or is contained in it. *)
Definition acceptable (exp : RoutingExpectation) (recommended_model : string) : Prop :=
  exists m : string,
    In m (acceptableModels exp) /\
    (substring m recommended_model \/ substring recommended_model m).

(* ================================================================== *)
(** ** Fixtures of the test suite ([fixtures/mock-responses.ts]) *)

Module Fixtures.

Definition num (digits exponent : Z) : JsValue :=
  JsNumber (decimal_to_number digits exponent).

Definition int (z : Z) : JsValue := JsNumber (Number_of_Z z).

Definition EXPECT_ARCHITECTURE : RoutingExpectation :=
  {| exp_category := architecture;
     task := "Design a microservices architecture for a payment system";
     preferredCapability := cap_reasoning;
     expectedPrimaryCli := "claude";
     acceptableModels := ["claude-opus"; "claude-sonnet"] |}.

Definition EXPECT_CODE_GENERATION : RoutingExpectation :=
  {| exp_category := code_generation;
     task := "Write unit tests for a TypeScript REST API";
     preferredCapability := cap_code;
     expectedPrimaryCli := "codex";
     acceptableModels := ["codex-5.3"; "codex-5.2"; "claude-sonnet"] |}.

Definition EXPECT_CODE_REVIEW : RoutingExpectation :=
  {| exp_category := code_review;
     task := "Review this pull request for security vulnerabilities";
     preferredCapability := cap_reasoning;
     expectedPrimaryCli := "codex";
     acceptableModels := ["codex-5.3"; "codex-5.2"; "claude-sonnet"] |}.

Definition capabilities (a b c d e : Z) : JsValue :=
  JsObject [("reasoning", int a); ("contextWindow", int b);
            ("codeGeneration", int c); ("speed", int d); ("cost", int e)].

Definition alternative (model : string) (score : Z) (tradeoff : string) : JsValue :=
  JsObject [("model", JsString model); ("score", int score);
            ("tradeoff", JsString tradeoff)].

Definition MOCK_DELEGATE_ARCHITECTURE : JsValue :=
  JsObject
    [("recommended_model", JsString "claude-opus");
     ("reasoning",
      JsString "Selected claude-opus for architecture task: strong reasoning, plan billing");
     ("capabilities", capabilities 10 200000 9 5 10);
     ("estimated_tokens", int 30);
     ("alternatives",
      JsArray [alternative "claude-sonnet" 66 "faster but less capable";
               alternative "gemini-pro" 55 "cheaper but less capable"])].

Definition MOCK_DELEGATE_CODE : JsValue :=
  JsObject
    [("recommended_model", JsString "codex-5.3");
     ("reasoning",
      JsString "Selected codex-5.3 for code generation: strong code, testing task");
     ("capabilities", capabilities 10 400000 10 7 5);
     ("estimated_tokens", int 22);
     ("alternatives",
      JsArray [alternative "codex-5.2" 77 "faster but less capable";
               alternative "claude-sonnet" 66 "cheaper but less capable"])].

Definition MOCK_DELEGATE_WRONG : JsValue :=
  JsObject
    [("recommended_model", JsString "gemini-flash");
     ("reasoning", JsString "Selected gemini-flash: fast fallback model");
     ("capabilities", capabilities 6 1000000 6 10 2);
     ("estimated_tokens", int 15);
     ("alternatives", JsArray [])].

Definition MOCK_WEATHER_COLD : JsValue :=
  JsObject
    [("overall",
      JsObject [("totalTasks", int 0); ("successRate", int 0);
                ("avgDurationMs", int 0)]);
     ("cliWeather", JsArray []);
     ("adaptiveBonuses", JsArray []);
     ("tierRecommendations", JsArray []);
     ("explorationRate", num 1 (-1));
     ("coldStartThreshold", int 10);
     ("collectedAt", JsString "2026-02-14T12:00:00Z")].

Definition mapping (category cli : string) (rate : JsValue) (samples : Z)
  (confidence : string) : JsValue :=
  JsObject [("category", JsString category); ("recommendedCli", JsString cli);
            ("successRate", rate); ("sampleCount", int samples);
            ("confidence", JsString confidence)].

(** [MOCK_WEATHER_HEALTHY], without its per-CLI and bonus breakdowns. *)
Definition MOCK_WEATHER_MAPPED : JsValue :=
  JsObject
    [("overall",
      JsObject [("totalTasks", int 50); ("successRate", num 92 (-2));
                ("avgDurationMs", int 3500)]);
     ("cliWeather", JsArray []);
     ("adaptiveBonuses", JsArray []);
     ("tierRecommendations", JsArray []);
     ("recommendedMappings",
      JsArray [mapping "architecture" "claude" (int 1) 8 "medium";
               mapping "code_generation" "codex" (num 9 (-1)) 10 "high"]);
     ("explorationRate", num 1 (-1));
     ("coldStartThreshold", int 10);
     ("collectedAt", JsString "2026-02-14T12:00:00Z")].

Definition category_stats (count : Z) (rate : JsValue) (duration : Z) : JsValue :=
  JsObject [("count", int count); ("successRate", rate);
            ("avgDurationMs", int duration)].

Definition cli_weather (cli : string) (tasks : Z) (rate : JsValue) (duration : Z)
  (byCategory : list (string * JsValue)) : JsValue :=
  JsObject [("cli", JsString cli); ("totalTasks", int tasks); ("successRate", rate);
            ("avgDurationMs", int duration); ("byCategory", JsObject byCategory)].

Definition adaptive_bonus (cli category : string) (static adaptive samples : Z)
  (sufficient : bool) : JsValue :=
  JsObject [("cli", JsString cli); ("category", JsString category);
            ("staticBonus", int static); ("adaptiveBonus", int adaptive);
            ("sampleCount", int samples); ("sufficient", JsBool sufficient)].

Definition MOCK_WEATHER_HEALTHY : JsValue :=
  JsObject
    [("overall",
      JsObject [("totalTasks", int 50); ("successRate", num 92 (-2));
                ("avgDurationMs", int 3500)]);
     ("cliWeather",
      JsArray
        [cli_weather "claude" 20 (num 95 (-2)) 4000
           [("architecture", category_stats 8 (int 1) 5000);
            ("security_review", category_stats 6 (num 83 (-2)) 4500);
            ("planning", category_stats 6 (int 1) 3000)];
         cli_weather "codex" 18 (num 89 (-2)) 3000
           [("code_generation", category_stats 10 (num 9 (-1)) 2500);
            ("testing", category_stats 5 (num 8 (-1)) 3500);
            ("code_review", category_stats 3 (int 1) 3000)];
         cli_weather "gemini" 12 (num 92 (-2)) 3500
           [("research", category_stats 5 (int 1) 4000);
            ("documentation", category_stats 4 (num 75 (-2)) 3000);
            ("exploration", category_stats 3 (int 1) 3500)]]);
     ("adaptiveBonuses",
      JsArray [adaptive_bonus "claude" "architecture" 15 3 8 false;
               adaptive_bonus "codex" "code_generation" 15 2 10 true]);
     ("tierRecommendations", JsArray []);
     ("learningInsights",
      JsArray [JsObject [("cli", JsString "claude");
                         ("category", JsString "architecture");
                         ("trend", JsString "improving");
                         ("confidence", num 7 (-1))]]);
     ("recommendedMappings",
      JsArray [mapping "architecture" "claude" (int 1) 8 "medium";
               mapping "code_generation" "codex" (num 9 (-1)) 10 "high"]);
     ("explorationRate", num 1 (-1));
     ("coldStartThreshold", int 10);
     ("collectedAt", JsString "2026-02-14T12:00:00Z")].

(** [{ ...MOCK_WEATHER_COLD, overall: { ...overall, avgDurationMs } }]: the
    cold snapshot, with another average duration. *)
Definition weather_cold_lasting (avgDurationMs : number) : JsValue :=
  JsObject
    [("overall",
      JsObject [("totalTasks", int 0); ("successRate", int 0);
                ("avgDurationMs", JsNumber avgDurationMs)]);
     ("cliWeather", JsArray []);
     ("adaptiveBonuses", JsArray []);
     ("tierRecommendations", JsArray []);
     ("explorationRate", num 1 (-1));
     ("coldStartThreshold", int 10);
     ("collectedAt", JsString "2026-02-14T12:00:00Z")].

(** [{ ...MOCK_WEATHER_HEALTHY, tierRecommendations: [{ tier: 'fast', 1:
    'claude-sonnet', 0: 'codex-5.3', budget: { tokens: 1e21, note: null },
    tags: ['cheap', true] }] }]: the healthy snapshot with one tier
    recommendation, an open record; the object lists its two properties
    named by array indices first. *)
Definition weather_healthy_tiered : JsValue :=
  JsObject
    (set_prop "tierRecommendations"
       (JsArray
          [JsObject
             (set_prop "tags" (JsArray [JsString "cheap"; JsBool true])
                (set_prop "budget"
                   (JsObject [("tokens", num 1 21); ("note", JsNull)])
                   (set_prop "0" (JsString "codex-5.3")
                      (set_prop "1" (JsString "claude-sonnet")
                         (set_prop "tier" (JsString "fast") [])))))])
       match MOCK_WEATHER_HEALTHY with JsObject props => props | _ => [] end).

Definition agent_vote (role : string) (confidence : JsValue) (why : string)
  : JsValue :=
  JsObject [("role", JsString role); ("decision", JsString "approve");
            ("confidence", confidence); ("reasoning", JsString why);
            ("simulated", JsBool false); ("error", JsBool false)].

Definition MOCK_VOTE_APPROVED : JsValue :=
  JsObject
    [("proposal", JsString "Routing quality is acceptable");
     ("strategy", JsString "simple_majority");
     ("decision", JsString "approved");
     ("approvalPercentage", int 100);
     ("voteCounts",
      JsObject [("approve", int 3); ("reject", int 0); ("abstain", int 0);
                ("error", int 0)]);
     ("votes",
      JsArray
        [agent_vote "Software Architect" (num 9 (-1))
           "Routing decisions match expected mappings.";
         agent_vote "Security Engineer" (num 85 (-2))
           "Security tasks correctly routed to claude.";
         agent_vote "Developer Experience" (num 88 (-2))
           "Code tasks routed to codex as expected."]);
     ("durationMs", int 15000);
     ("simulateVotes", JsBool false)].

(** [createMockCaller(responses)]: one canned response per tool name, a
    rejection for a tool without one. *)
Definition createMockCaller (responses : list (string * JsValue)) : ToolCaller unit :=
  {| call := fun toolName _ s =>
       match get_prop toolName responses with
       | JsUndefined =>
           (Rejected (CallRejected (JsString ("No mock: " ++ toolName)%string)), s)
       | response => (Fulfilled response, s)
       end |}.

(** The caller that rejects every call. *)
Definition failing_caller : ToolCaller unit :=
  {| call := fun _ _ s => (Rejected (CallRejected (JsString "Network error")), s) |}.

(** The caller that answers its [n]-th call with the [n]-th response,
    whatever the tool, and with [undefined] past the end. *)
Definition sequence_caller (responses : list JsValue) : ToolCaller nat :=
  {| call := fun _ _ callCount =>
       (Fulfilled (nth callCount responses JsUndefined), Datatypes.S callCount) |}.

Definition start {St : Type} (s : St) : World St :=
  {| caller_state := s; calls := [] |}.

Definition config_of (exps : list RoutingExpectation) (w v : option bool)
  : OracleConfig :=
  {| expectations := exps; includeWeather := w; includeVote := v;
     voteStrategy := None |}.

Definition mapping_of (category cli : string) (rate : number) (samples : Z)
  (confidence : string) : RecommendedMapping :=
  {| rm_category := category; recommendedCli := cli; rm_successRate := rate;
     rm_sampleCount := Number_of_Z samples; rm_confidence := confidence |}.

(** A snapshot with the overall figures and the mapping list [mappings]. *)
Definition snapshot (tasks : Z) (rate : number)
  (mappings : option (list RecommendedMapping)) : WeatherResponse :=
  {| overall := {| ov_totalTasks := Number_of_Z tasks; ov_successRate := rate;
                   ov_avgDurationMs := Number_of_Z 0 |};
     cliWeather := [];
     adaptiveBonuses := [];
     tierRecommendations := [];
     learningInsights := None;
     recommendedMappings := mappings;
     explorationRate := decimal_to_number 1 (-1);
     coldStartThreshold := Number_of_Z 10;
     collectedAt := "2026-02-14T12:00:00Z" |}.

(** The mapping list of [MOCK_WEATHER_HEALTHY]. *)
Definition WEATHER_HEALTHY : WeatherResponse :=
  snapshot 50 (decimal_to_number 92 (-2))
    (Some [mapping_of "architecture" "claude" (Number_of_Z 1) 8 "medium";
           mapping_of "code_generation" "codex" (decimal_to_number 9 (-1)) 10 "high"]).

(** [MOCK_WEATHER_COLD] has no mapping list. *)
Definition WEATHER_COLD : WeatherResponse := snapshot 0 num_zero None.

Definition validation (c : TaskCategory) (got want : string) (ok : bool)
  : RoutingValidation :=
  {| category := c; recommended := got; expected := want; correct := ok;
     reasoning := ""; alternatives := [] |}.

Definition agent (role : string) (confidence : number) (why : string) : AgentVote :=
  {| av_role := role; av_decision := approve; av_confidence := confidence;
     av_reasoning := why; av_simulated := false; av_error := false |}.

(** [MOCK_VOTE_APPROVED], typed. *)
Definition VOTE_APPROVED : VoteResponse :=
  {| vr_proposal := "Routing quality is acceptable";
     vr_strategy := simple_majority;
     vr_decision := approved;
     approvalPercentage := Number_of_Z 100;
     voteCounts := {| vc_approve := Number_of_Z 3; vc_reject := num_zero;
                      vc_abstain := num_zero; vc_error := num_zero |};
     votes := [agent "Software Architect" (decimal_to_number 9 (-1))
                 "Routing decisions match expected mappings.";
               agent "Security Engineer" (decimal_to_number 85 (-2))
                 "Security tasks correctly routed to claude.";
               agent "Developer Experience" (decimal_to_number 88 (-2))
                 "Code tasks routed to codex as expected."];
     durationMs := Number_of_Z 15000;
     vr_simulateVotes := false |}.

(** [SAMPLE_REPORT] of the reporter's tests. *)
Definition SAMPLE_REPORT : OracleReport :=
  {| validations :=
       [{| category := architecture; recommended := "claude-opus";
           expected := "claude"; correct := true;
           reasoning := "Good architecture routing";
           alternatives := ["claude-sonnet"] |};
        {| category := code_generation; recommended := "gemini-flash";
           expected := "codex"; correct := false;
           reasoning := "Wrong model selected"; alternatives := [] |}];
     accuracy := decimal_to_number 5 (-1);
     weather := Some WEATHER_HEALTHY;
     voteResult := Some VOTE_APPROVED |}.

End Fixtures.

(* ================================================================== *)
(** ** Vocabulary for reading back what was written *)

(** A string of decimal digits. *)
Definition all_digits (s : string) : bool := forallb is_digit (list_ascii_of_string s).

(** The value of a digit string continuing the value [acc]. *)
Definition digits_from (acc : Z) (s : string) : Z :=
  fold_left (fun acc c => 10 * acc + digit_value c)%Z (list_ascii_of_string s) acc.

(** Nothing follows, or what follows is not a digit. *)
Definition ends_digits (rest : string) : bool :=
  match rest with
  | EmptyString => true
  | String c _ => negb (is_digit c)
  end.

(** The exponent part of a token: nothing, for the exponent zero, or [e]
    and a signed exponent. *)
Definition exponent_part (ex : string) (e : Z) : Prop :=
  (ex = "" /\ e = 0%Z) \/ ex = String "e" (exponent_str e).

(** The integer part of a JSON number: one digit, or digits that do not
    start with a zero. *)
Definition integer_part (ip : string) : Prop :=
  exists (c : ascii) (tail : string),
    ip = String c tail /\ (tail = "" \/ (N_of_ascii c =? 48)%N = false).

(** The digits [d] of length [k] with the exponent [n] denote [x]. *)
Definition denotes (x : number) (t : Z * Z * Z) : Prop :=
  let '(d, n, k) := t in
  (1 <= k)%Z /\ (10 ^ (k - 1) <= d < 10 ^ k)%Z /\ decimal_to_number d (n - k) = x.

(** A value read back from what the serializer wrote for it, whatever the
    indentation and whatever follows. *)
Definition reads_back (v : JsValue) : Prop :=
  forall (indent rest : string) (fuel : nat),
    all_ws indent = true -> delimited rest = true -> (fuel_for v <= fuel)%nat ->
    parse_value fuel (elem_str indent v ++ rest) = Some (v, rest).

(** The property at the end of a path of names, from the value [v]. *)
Fixpoint get_path (path : list string) (v : JsValue) : JsValue :=
  match path with
  | [] => v
  | key :: rest =>
      get_path rest (get_prop key match v with JsObject props => props | _ => [] end)
  end.

(** The first character of what is written for a value is not white space
    and does not close an array. *)
Definition starts_a_value (str : string) : Prop :=
  exists (c : ascii) (tail : string),
    str = String c tail /\ is_ws c = false /\ Ascii.eqb c "]" = false.

(* ================================================================== *)
(** ** Vocabulary for the bounds on the accuracy *)

Local Open Scope Z_scope.

(** Something was lost: the location is not exact. *)
Definition inexact (mrs : shr_record) : bool := shr_r mrs || shr_s mrs.

Definition Zb (b : bool) : Z := if b then 1 else 0.

(** [x] is positive and normal, and its value is the integer [z]. *)
Definition normal_int (z : Z) (x : number) : Prop :=
  exists (m : positive) (e : Z),
    x = S754_finite false m e /\
    2 ^ 52 <= Zpos m < 2 ^ 53 /\ -52 <= e <= 0 /\ Zpos m = z * 2 ^ (- e).

(** [x] is positive and normal, and its value is at most the integer [B]. *)
Definition normal_le (B : Z) (x : number) : Prop :=
  exists (m : positive) (e : Z),
    x = S754_finite false m e /\
    2 ^ 52 <= Zpos m < 2 ^ 53 /\ -200 <= e <= 0 /\ Zpos m <= B * 2 ^ (- e).

(** [0 <= x <= 1]. *)
Definition in_unit_interval (x : number) : bool :=
  num_leb num_zero x && num_leb x num_one.

(** The accuracy formula on the counts [c <= n]. *)
Definition accuracy_of_counts (c n : nat) : number :=
  num_div
    (Math_round (num_mul (num_div (Number_of_nat c) (Number_of_nat n))
                         (Number_of_Z 1000)))
    (Number_of_Z 1000).

Local Close Scope Z_scope.

(* ================================================================== *)
(** ** [types.ts]: the schemas of what the tools take *)

Definition CAPABILITIES : list Capability :=
  [cap_reasoning; cap_context; cap_speed; cap_code].

Definition CATEGORIES : list TaskCategory :=
  [architecture; code_generation; code_review; research; security_review;
   planning; documentation; testing; devops; exploration].

Inductive BillingMode : Type := bm_plan | bm_api.

Definition BillingMode_str (b : BillingMode) : string :=
  match b with
  | bm_plan => "plan"
  | bm_api => "api"
  end.

Inductive CliName : Type := cli_claude | cli_gemini | cli_codex.

Definition CliName_str (c : CliName) : string :=
  match c with
  | cli_claude => "claude"
  | cli_gemini => "gemini"
  | cli_codex => "codex"
  end.

(** [z.string().min(lo)]: a string of at least [lo] code units. *)
Definition z_string_min (lo : nat) (v : JsValue) : option string :=
  match v with
  | JsString s => if (lo <=? String.length s)%nat then Some s else None
  | _ => None
  end.

(** [z.string().min(lo).max(hi)]. *)
Definition z_string_min_max (lo hi : nat) (v : JsValue) : option string :=
  match v with
  | JsString s =>
      if ((lo <=? String.length s) && (String.length s <=? hi))%nat
      then Some s else None
  | _ => None
  end.

Record DelegateInput : Type := {
  di_task : string;
  di_preferred_capability : option Capability;
  di_model_hint : option string;
  di_estimate_tokens : option bool;
  di_billing_mode : option BillingMode
}.

Definition DelegateInputSchema : JsValue -> option DelegateInput :=
  z_object (fun o =>
    a <-? z_string_min 1 (get_prop "task" o) ;;
    b <-? z_optional (z_enum CAPABILITIES Capability_str)
            (get_prop "preferred_capability" o) ;;
    c <-? z_optional z_string (get_prop "model_hint" o) ;;
    d <-? z_optional z_boolean (get_prop "estimate_tokens" o) ;;
    e <-? z_optional (z_enum [bm_plan; bm_api] BillingMode_str)
            (get_prop "billing_mode" o) ;;
    Some (Build_DelegateInput a b c d e)).

Record WeatherInput : Type := {
  wi_cli : option CliName;
  wi_category : option TaskCategory;
  wi_includeAdaptive : option bool
}.

Definition WeatherInputSchema : JsValue -> option WeatherInput :=
  z_object (fun o =>
    a <-? z_optional (z_enum [cli_claude; cli_gemini; cli_codex] CliName_str)
            (get_prop "cli" o) ;;
    b <-? z_optional (z_enum CATEGORIES TaskCategory_str) (get_prop "category" o) ;;
    c <-? z_optional z_boolean (get_prop "includeAdaptive" o) ;;
    Some (Build_WeatherInput a b c)).

Record VoteInput : Type := {
  vi_proposal : string;
  vi_strategy : option VotingStrategy;
  vi_quickMode : option bool;
  vi_simulateVotes : option bool
}.

Definition VoteInputSchema : JsValue -> option VoteInput :=
  z_object (fun o =>
    a <-? z_string_min_max 1 4000 (get_prop "proposal" o) ;;
    b <-? z_optional (z_enum STRATEGIES VotingStrategy_str) (get_prop "strategy" o) ;;
    c <-? z_optional z_boolean (get_prop "quickMode" o) ;;
    d <-? z_optional z_boolean (get_prop "simulateVotes" o) ;;
    Some (Build_VoteInput a b c d)).

(** The arguments of a call are what the schema of the tool's input
    accepts.  The pipeline calls no other tool than these three. *)
Definition conforms (c : Call) : bool :=
  let accepted {A : Type} (r : option A) :=
    match r with Some _ => true | None => false end in
  if String.eqb (fst c) "delegate_to_model"
  then accepted (DelegateInputSchema (JsObject (snd c)))
  else if String.eqb (fst c) "weather_report"
  then accepted (WeatherInputSchema (JsObject (snd c)))
  else if String.eqb (fst c) "consensus_vote"
  then accepted (VoteInputSchema (JsObject (snd c)))
  else false.

(* ================================================================== *)
(** ** Routing responses as JavaScript values *)

Definition Capabilities_to_js (c : Capabilities) : JsValue :=
  JsObject
    [("reasoning", JsNumber (cap_reasoning_score c));
     ("contextWindow", JsNumber (cap_contextWindow c));
     ("codeGeneration", JsNumber (cap_codeGeneration c));
     ("speed", JsNumber (cap_speed_score c));
     ("cost", JsNumber (cap_cost c))].

Definition Alternative_to_js (a : Alternative) : JsValue :=
  JsObject
    [("model", JsString (alt_model a));
     ("score", JsNumber (alt_score a));
     ("tradeoff", JsString (alt_tradeoff a))].

Definition Governance_to_js (g : Governance) : JsValue :=
  JsObject
    [("domain", JsString (gov_domain g));
     ("votingThreshold", JsString (gov_votingThreshold g));
     ("promotionReason", JsString (gov_promotionReason g))].

Definition DelegateResponse_to_js (r : DelegateResponse) : JsValue :=
  JsObject
    ([("recommended_model", JsString (recommended_model r));
      ("reasoning", JsString (dr_reasoning r));
      ("capabilities", Capabilities_to_js (dr_capabilities r));
      ("estimated_tokens", JsNumber (estimated_tokens r));
      ("alternatives", JsArray (map Alternative_to_js (dr_alternatives r)))]
     ++ optional_prop "governance" Governance_to_js (dr_governance r)).

(* ================================================================== *)
(** ** Vocabulary for the further properties *)

(** What the caller answers does not depend on what it was asked before. *)
Definition history_free {St : Type} (caller : ToolCaller St) : Prop :=
  forall (toolName : string) (args : list (string * JsValue)) (s s' : St),
    fst (call caller toolName args s) = fst (call caller toolName args s').

(** The calls of the two optional stages, for the validations [vs]. *)
Definition optional_calls (config : OracleConfig) (vs : list RoutingValidation)
  : list Call :=
  (if is_true (includeWeather config)
   then [("weather_report", [("includeAdaptive", JsBool true)])] else [])
  ++ (if is_true (includeVote config)
      then [("consensus_vote", vote_args vs (voteStrategy config))] else []).

(* ================================================================== *)
(** ** The lines of the readable reports

    What [generateMarkdownReport] and [generateTextReport] push to their
    [lines] arrays, section by section. *)

Definition markdown_row (v : RoutingValidation) : string :=
  ("| " ++ TaskCategory_str (category v) ++ " | " ++ recommended v ++ " | " ++
   expected v ++ " | " ++ (if correct v then "PASS" else "FAIL") ++ " |")%string.

Definition misrouted_bullet (v : RoutingValidation) : string :=
  ("- **" ++ TaskCategory_str (category v) ++ "**: got `" ++ recommended v ++
   "`, expected `" ++ expected v ++ "`")%string.

Definition misrouted_lines (vs : list RoutingValidation) : list string :=
  match getMisrouted vs with
  | [] => []
  | misrouted =>
      ["## Misrouted Categories"; ""]
      ++ flat_map (fun v => [misrouted_bullet v; ("  Reasoning: " ++ reasoning v)%string])
                  misrouted
      ++ [""]
  end.

Definition weather_lines (weather : option WeatherResponse) : list string :=
  match weather with
  | Some w =>
      ["## Weather Context"; "";
       ("- Total tasks: " ++ Number_toString (ov_totalTasks (overall w)))%string;
       ("- Overall success: " ++ percent (ov_successRate (overall w)) ++ "%")%string;
       ("- CLIs reporting: " ++ nat_to_string (length (cliWeather w)))%string;
       ""]
  | None => []
  end.

Definition vote_lines (voteResult : option VoteResponse) : list string :=
  match voteResult with
  | Some v =>
      ["## Quality Vote"; "";
       ("- Decision: **" ++ VoteDecision_str (vr_decision v) ++ "**")%string;
       ("- Approval: " ++ Number_toString (approvalPercentage v) ++ "%")%string;
       ("- Strategy: " ++ VotingStrategy_str (vr_strategy v))%string;
       ""]
  | None => []
  end.

Definition markdown_lines (report : OracleReport) : list string :=
  ["# Routing Oracle Report"; "";
   ("**Accuracy:** " ++ percent (accuracy report) ++ "% (" ++
    nat_to_string (count_correct (validations report)) ++ "/" ++
    nat_to_string (length (validations report)) ++ ")")%string;
   ""; "## Routing Results"; "";
   "| Category | Model | Expected CLI | Status |";
   "|----------|-------|-------------|--------|"]
  ++ map markdown_row (validations report)
  ++ [""]
  ++ misrouted_lines (validations report)
  ++ weather_lines (weather report)
  ++ vote_lines (voteResult report).

Definition text_vote_lines (voteResult : option VoteResponse) : list string :=
  match voteResult with
  | Some v =>
      [""; ("Vote: " ++ VoteDecision_str (vr_decision v) ++ " (" ++
            Number_toString (approvalPercentage v) ++ "%)")%string]
  | None => []
  end.

Definition text_lines (report : OracleReport) : list string :=
  [("Routing Oracle: " ++ percent (accuracy report) ++ "% accuracy")%string; ""]
  ++ map formatValidationLine (validations report)
  ++ text_vote_lines (voteResult report).

(* ================================================================== *)
(** * Properties *)

(** ** Substring search *)

Lemma starts_with_spec (s m : string) :
  starts_with s m = true <-> exists post : string, s = (m ++ post)%string.
Proof.
  revert s; induction m as [|c m IH]; intros s; simpl.
  - split; [exists s; reflexivity | reflexivity].
  - destruct s as [|d s].
    + split; [discriminate | intros [post H]; discriminate].
    + rewrite andb_true_iff, Ascii.eqb_eq, IH. split.
      * intros [-> [post ->]]. now exists post.
      * intros [post H]. injection H as -> ->. split; [reflexivity | now exists post].
Qed.

Lemma includes_spec (s m : string) : includes s m = true <-> substring m s.
Proof.
  unfold substring. induction s as [|d s IH].
  - simpl. rewrite orb_false_r, starts_with_spec. split.
    + intros [post H]. now exists ""%string, post.
    + intros [pre [post H]]. destruct pre; simpl in H.
      * now exists post.
      * discriminate.
  - cbn [includes]. rewrite orb_true_iff, starts_with_spec, IH. split.
    + intros [[post H] | [pre [post H]]].
      * now exists ""%string, post.
      * exists (String d pre), post. simpl. now rewrite H.
    + intros [pre [post H]]. destruct pre as [|c pre]; simpl in H.
      * left. now exists post.
      * right. injection H as _ H. now exists pre, post.
Qed.

Lemma model_matches_spec (r m : string) :
  model_matches r m = true <-> substring m r \/ substring r m.
Proof.
  unfold model_matches. now rewrite orb_true_iff, !includes_spec.
Qed.

Lemma validated_correct_iff (exp : RoutingExpectation) (result : DelegateResponse) :
  correct (validated exp result) = true <-> acceptable exp (recommended_model result).
Proof.
  unfold validated, acceptable; cbn [correct]. rewrite existsb_exists.
  split; intros [m [Hin H]]; exists m; (split; [exact Hin|]).
  - now apply model_matches_spec.
  - now apply model_matches_spec in H.
Qed.

(** ** The routing loop, call by call *)

Section Routing.

Context {St : Type} (caller : ToolCaller St).

Lemma routeAndValidate_run (exp : RoutingExpectation) (w : World St) :
  routeAndValidate caller exp w =
  let '(r, s') := call caller "delegate_to_model" (delegate_args exp) (caller_state w) in
  let w' := {| caller_state := s'; calls := calls w ++ [delegate_call exp] |} in
  match r with
  | Fulfilled raw =>
      match DelegateResponseSchema raw with
      | Some result => (Fulfilled (validated exp result), w')
      | None => (Rejected ZodError, w')
      end
  | Rejected e => (Rejected e, w')
  end.
Proof.
  unfold routeAndValidate, bind, await_call, parse, delegate_args, delegate_call.
  destruct (call caller _ _ _) as [[raw|e] s']; [|reflexivity].
  destruct (DelegateResponseSchema raw); reflexivity.
Qed.

Lemma route_all_run (exps : list RoutingExpectation) :
  forall (vs : list RoutingValidation) (w : World St),
    route_all caller exps vs w =
    (Fulfilled (vs ++ expected_validations caller exps (caller_state w)),
     {| caller_state := snd (routing_outcomes caller exps (caller_state w));
        calls := calls w ++ map delegate_call exps |}).
Proof.
  unfold expected_validations.
  induction exps as [|exp rest IH]; intros vs w.
  - simpl. unfold ret. rewrite !app_nil_r. now destruct w.
  - cbn [route_all]. unfold bind at 1. unfold try_catch.
    unfold bind at 1. rewrite routeAndValidate_run.
    cbn [routing_outcomes].
    destruct (call caller _ _ _) as [r s'].
    destruct (routing_outcomes caller rest s') as [rs s''] eqn:Hrest.
    assert (Hgoal : forall v,
      v = validation_of exp r ->
      route_all caller rest (vs ++ [v])
        {| caller_state := s'; calls := calls w ++ [delegate_call exp] |} =
      (Fulfilled (vs ++ map (fun p => validation_of (fst p) (snd p))
                             (combine (exp :: rest) (r :: rs))),
       {| caller_state := s''; calls := calls w ++ map delegate_call (exp :: rest) |})).
    { intros v ->. rewrite IH. cbn [caller_state calls]. rewrite Hrest.
      cbn [fst snd combine map]. now rewrite <- !app_assoc. }
    cbn [fst snd].
    destruct r as [raw|e]; cbn [validation_of] in Hgoal.
    + destruct (DelegateResponseSchema raw) as [result|]; unfold ret;
        now apply Hgoal.
    + unfold ret. now apply Hgoal.
Qed.

Lemma routing_outcomes_length (exps : list RoutingExpectation) :
  forall s : St, length (fst (routing_outcomes caller exps s)) = length exps.
Proof.
  induction exps as [|exp rest IH]; intros s; [reflexivity|].
  cbn [routing_outcomes]. destruct (call caller _ _ _) as [r s'].
  specialize (IH s'). destruct (routing_outcomes caller rest s').
  simpl in *. now rewrite IH.
Qed.

Lemma expected_validations_length (exps : list RoutingExpectation) (s : St) :
  length (expected_validations caller exps s) = length exps.
Proof.
  unfold expected_validations.
  rewrite length_map, length_combine, routing_outcomes_length. apply Nat.min_id.
Qed.

(** The [i]-th expected validation is the one of the [i]-th expectation
    and of the way the [i]-th call settled. *)
Lemma expected_validations_nth (exps : list RoutingExpectation) (s : St)
  (i : nat) (exp : RoutingExpectation) (r : Settled JsValue) :
  nth_error exps i = Some exp ->
  nth_error (fst (routing_outcomes caller exps s)) i = Some r ->
  nth_error (expected_validations caller exps s) i = Some (validation_of exp r).
Proof.
  unfold expected_validations.
  generalize (fst (routing_outcomes caller exps s)) as rs.
  revert i. induction exps as [|x exps IH]; intros [|i] [|r0 rs]; simpl;
    try discriminate.
  - now intros [= ->] [= ->].
  - apply IH.
Qed.

(** The optional stages, run after the routing stage. *)
Lemma runOraclePipeline_run (config : OracleConfig) (w : World St) :
  let vs := expected_validations caller (expectations config) (caller_state w) in
  let w1 := {| caller_state :=
                 snd (routing_outcomes caller (expectations config) (caller_state w));
               calls := calls w ++ map delegate_call (expectations config) |} in
  let '(weather, w2) :=
    if is_true (includeWeather config)
    then match fetchWeather caller w1 with
         | (Fulfilled x, w2) => (Some x, w2)
         | (Rejected _, w2) => (None, w2)
         end
    else (None, w1) in
  let '(vote, w3) :=
    if is_true (includeVote config)
    then match voteOnQuality caller vs (voteStrategy config) w2 with
         | (Fulfilled x, w3) => (Some x, w3)
         | (Rejected _, w3) => (None, w3)
         end
    else (None, w2) in
  runOraclePipeline caller config w =
  (Fulfilled {| validations := vs; accuracy := computeAccuracy vs;
                weather := weather; voteResult := vote |}, w3).
Proof.
  unfold runOraclePipeline. unfold bind at 1. rewrite route_all_run.
  cbn [app]. cbv zeta.
  unfold bind at 1.
  destruct (is_true (includeWeather config)).
  - unfold try_catch at 1. unfold bind at 1.
    destruct (fetchWeather caller _) as [[x|e] w2]; unfold ret at 1.
    + unfold bind at 1. destruct (is_true (includeVote config)).
      * unfold try_catch, bind.
        destruct (voteOnQuality caller _ _ w2) as [[y|e] w3]; reflexivity.
      * reflexivity.
    + unfold bind at 1. destruct (is_true (includeVote config)).
      * unfold try_catch, bind.
        destruct (voteOnQuality caller _ _ w2) as [[y|e'] w3]; reflexivity.
      * reflexivity.
  - unfold ret at 1. unfold bind at 1. destruct (is_true (includeVote config)).
    + unfold try_catch, bind.
      destruct (voteOnQuality caller _ _ _) as [[y|e'] w3]; reflexivity.
    + reflexivity.
Qed.

End Routing.

(** ** The optional stages *)

Lemma is_true_iff (b : option bool) : is_true b = true <-> b = Some true.
Proof. destruct b as [[|]|]; simpl; split; congruence. Qed.

Section Stages.

Context {St : Type} (caller : ToolCaller St).

Lemma fetchWeather_run (w : World St) :
  fetchWeather caller w =
  let '(r, s') :=
    call caller "weather_report" [("includeAdaptive", JsBool true)] (caller_state w) in
  let w' := {| caller_state := s';
               calls := calls w ++ [("weather_report", [("includeAdaptive", JsBool true)])] |} in
  match r with
  | Fulfilled raw =>
      match WeatherResponseSchema raw with
      | Some x => (Fulfilled x, w')
      | None => (Rejected ZodError, w')
      end
  | Rejected e => (Rejected e, w')
  end.
Proof.
  unfold fetchWeather, bind, await_call, parse.
  destruct (call caller _ _ _) as [[raw|e] s']; [|reflexivity].
  destruct (WeatherResponseSchema raw); reflexivity.
Qed.

Lemma voteOnQuality_run (vs : list RoutingValidation) (strategy : option VotingStrategy)
  (w : World St) :
  voteOnQuality caller vs strategy w =
  let '(r, s') := call caller "consensus_vote" (vote_args vs strategy) (caller_state w) in
  let w' := {| caller_state := s';
               calls := calls w ++ [("consensus_vote", vote_args vs strategy)] |} in
  match r with
  | Fulfilled raw =>
      match VoteResponseSchema raw with
      | Some x => (Fulfilled x, w')
      | None => (Rejected ZodError, w')
      end
  | Rejected e => (Rejected e, w')
  end.
Proof.
  unfold voteOnQuality, bind, await_call, parse, vote_args.
  destruct (call caller _ _ _) as [[raw|e] s']; [|reflexivity].
  destruct (VoteResponseSchema raw); reflexivity.
Qed.

Lemma fetchWeather_calls (w : World St) :
  calls (snd (fetchWeather caller w)) =
  calls w ++ [("weather_report", [("includeAdaptive", JsBool true)])].
Proof.
  rewrite fetchWeather_run. destruct (call caller _ _ _) as [[raw|e] s']; [|reflexivity].
  destruct (WeatherResponseSchema raw); reflexivity.
Qed.

Lemma voteOnQuality_calls (vs : list RoutingValidation)
  (strategy : option VotingStrategy) (w : World St) :
  calls (snd (voteOnQuality caller vs strategy w)) =
  calls w ++ [("consensus_vote", vote_args vs strategy)].
Proof.
  rewrite voteOnQuality_run. destruct (call caller _ _ _) as [[raw|e] s']; [|reflexivity].
  destruct (VoteResponseSchema raw); reflexivity.
Qed.

(** The report and the final world, stage by stage. *)
Lemma runOraclePipeline_stages (config : OracleConfig) (w : World St) :
  let vs := expected_validations caller (expectations config) (caller_state w) in
  let w1 := after_routing caller config w in
  let w2 := after_weather caller config w in
  let w3 := if is_true (includeVote config)
            then snd (voteOnQuality caller vs (voteStrategy config) w2) else w2 in
  runOraclePipeline caller config w =
  (Fulfilled
     {| validations := vs;
        accuracy := computeAccuracy vs;
        weather :=
          if is_true (includeWeather config)
          then match fst (fetchWeather caller w1) with
               | Fulfilled x => Some x
               | Rejected _ => None
               end
          else None;
        voteResult :=
          if is_true (includeVote config)
          then match fst (voteOnQuality caller vs (voteStrategy config) w2) with
               | Fulfilled y => Some y
               | Rejected _ => None
               end
          else None |}, w3).
Proof.
  pose proof (runOraclePipeline_run caller config w) as H. cbv zeta in H |- *.
  unfold after_weather, after_routing.
  destruct (is_true (includeWeather config)).
  - destruct (fetchWeather caller _) as [[x|e] w2]; cbn [fst snd];
      destruct (is_true (includeVote config)); try exact H;
      destruct (voteOnQuality caller _ _ w2) as [[y|e'] w3]; exact H.
  - destruct (is_true (includeVote config)); try exact H.
    destruct (voteOnQuality caller _ _ _) as [[y|e'] w3]; exact H.
Qed.

End Stages.

(** ** Binary64 arithmetic: upper bounds that survive rounding *)

Section Binary64.

Local Open Scope Z_scope.

Lemma fexp_eq (x : Z) : fexp prec emax x = Z.max (x - 53) (-1074).
Proof. reflexivity. Qed.

Lemma digits2_pos_size (p : positive) : digits2_pos p = Pos.size p.
Proof. induction p; simpl; congruence. Qed.

Lemma Zdigits2_log2 (p : positive) : Zpos (digits2_pos p) = Z.log2 (Zpos p) + 1.
Proof.
  rewrite digits2_pos_size. destruct p; simpl; try reflexivity.
  - now rewrite Pos.add_1_r.
  - now rewrite Pos.add_1_r.
Qed.

(** The number of binary digits of a positive integer, by its bounds. *)
Lemma Zdigits2_bounds (m : Z) :
  0 < m -> 2 ^ (Zdigits2 m - 1) <= m < 2 ^ Zdigits2 m.
Proof.
  intros Hm. destruct m as [|p|p]; try lia.
  unfold Zdigits2. rewrite Zdigits2_log2.
  replace (Z.log2 (Zpos p) + 1 - 1) with (Z.log2 (Zpos p)) by lia.
  pose proof (Z.log2_spec (Zpos p) Hm). lia.
Qed.

Lemma Zdigits2_unique (m d : Z) :
  0 < d -> 2 ^ (d - 1) <= m < 2 ^ d -> Zdigits2 m = d.
Proof.
  intros Hd [Hlo Hhi].
  assert (Hp : 0 < 2 ^ (d - 1)) by (apply Z.pow_pos_nonneg; lia).
  assert (Hm : 0 < m) by lia.
  destruct m as [|p|p]; try lia.
  unfold Zdigits2. rewrite Zdigits2_log2.
  rewrite (Z.log2_unique (Zpos p) (d - 1)); [lia | lia |].
  replace (Z.succ (d - 1)) with d by lia. lia.
Qed.

(** ** Shifting right with a record of what was lost *)

Lemma loc_of_shr_record_exact (mrs : shr_record) :
  inexact mrs = false -> loc_of_shr_record mrs = loc_Exact.
Proof. unfold inexact. destruct mrs as [m [|] [|]]; simpl; congruence. Qed.

Lemma inexact_shr_record_of_loc (m : Z) (l : location) :
  inexact (shr_record_of_loc m l) = match l with loc_Exact => false | _ => true end.
Proof. destruct l as [|[| |]]; reflexivity. Qed.

Lemma shr_m_shr_record_of_loc (m : Z) (l : location) :
  shr_m (shr_record_of_loc m l) = m.
Proof. destruct l as [|[| |]]; reflexivity. Qed.

Lemma shr_1_m (mrs : shr_record) :
  0 <= shr_m mrs -> shr_m (shr_1 mrs) = shr_m mrs / 2.
Proof.
  destruct mrs as [m r s]. simpl. intros Hm.
  destruct m as [|[p|p|]|p]; try lia; simpl; try reflexivity.
  - rewrite (Pos2Z.inj_xI p).
    apply (Z.div_unique_pos _ 2 (Zpos p) 1); lia.
  - rewrite (Pos2Z.inj_xO p).
    apply (Z.div_unique_pos _ 2 (Zpos p) 0); lia.
Qed.

(** One step keeps an upper bound: if [m], plus one when something was
    lost, is at most [2 * t], then the same holds of the halves. *)
Lemma shr_1_bound (mrs : shr_record) (t : Z) :
  0 <= shr_m mrs ->
  shr_m mrs + Zb (inexact mrs) <= 2 * t ->
  shr_m (shr_1 mrs) + Zb (inexact (shr_1 mrs)) <= t.
Proof.
  destruct mrs as [m r s]. unfold inexact.
  cbn [shr_m shr_r shr_s]. intros Hm Hb.
  destruct m as [|[p|p|]|p]; try lia;
    cbn [shr_1 shr_m shr_r shr_s];
    try rewrite (Pos2Z.inj_xI p) in Hb; try rewrite (Pos2Z.inj_xO p) in Hb;
    destruct r, s; cbn [orb Zb] in *; lia.
Qed.

Lemma iter_pos_nat {A : Type} (f : A -> A) (p : positive) (x : A) :
  iter_pos f p x = Nat.iter (Pos.to_nat p) f x.
Proof.
  revert x. induction p as [p IH|p IH|]; intros x; cbn [iter_pos].
  - rewrite !IH, Pos2Nat.inj_xI.
    rewrite <- Nat.iter_add, <- Nat.iter_succ_r.
    f_equal. lia.
  - rewrite !IH, Pos2Nat.inj_xO. rewrite <- Nat.iter_add. f_equal. lia.
  - reflexivity.
Qed.

Lemma shr_iter_m (n : nat) (mrs : shr_record) :
  0 <= shr_m mrs ->
  shr_m (Nat.iter n shr_1 mrs) = shr_m mrs / 2 ^ Z.of_nat n.
Proof.
  intros Hm. induction n as [|n IH].
  - change (2 ^ Z.of_nat 0) with 1. now rewrite Z.div_1_r.
  - rewrite Nat2Z.inj_succ, Z.pow_succ_r, Nat.iter_succ by lia.
    rewrite shr_1_m.
    + rewrite IH, Z.div_div by lia. f_equal. lia.
    + rewrite IH. apply Z.div_pos; lia.
Qed.

Lemma shr_iter_bound (n : nat) (mrs : shr_record) (t : Z) :
  0 <= shr_m mrs ->
  shr_m mrs + Zb (inexact mrs) <= 2 ^ Z.of_nat n * t ->
  shr_m (Nat.iter n shr_1 mrs) + Zb (inexact (Nat.iter n shr_1 mrs)) <= t.
Proof.
  intros Hm. revert t. induction n as [|n IH]; intros t Ht.
  - change (2 ^ Z.of_nat 0) with 1 in Ht. cbn [Nat.iter nat_rect]. lia.
  - rewrite Nat.iter_succ. apply shr_1_bound.
    + rewrite shr_iter_m by lia. apply Z.div_pos; lia.
    + apply IH. rewrite Nat2Z.inj_succ, Z.pow_succ_r in Ht by lia. lia.
Qed.

Lemma round_nearest_even_bound (mrs : shr_record) :
  shr_m mrs <= round_nearest_even (shr_m mrs) (loc_of_shr_record mrs)
            <= shr_m mrs + Zb (inexact mrs).
Proof.
  destruct mrs as [m [|] [|]]; unfold inexact; cbn; try destruct (Z.even m); lia.
Qed.

Lemma pow2_split (a b : Z) : 0 <= a -> 0 <= b -> 2 ^ (a + b) = 2 ^ a * 2 ^ b.
Proof. intros. now apply Z.pow_add_r. Qed.

Lemma pow2_pos (a : Z) : 0 <= a -> 0 < 2 ^ a.
Proof. intros. now apply Z.pow_pos_nonneg. Qed.

(** A mantissa of [d >= 53] digits is shifted down to 53 digits, and an
    upper bound [B * 2 ^ (- e)] on the value follows it. *)
Lemma shr_fexp_normal (mx ex : Z) (lx : location) (d B : Z) :
  53 <= d -> 2 ^ (d - 1) <= mx < 2 ^ d ->
  -1074 <= ex + d - 53 <= 0 ->
  mx + Zb (inexact (shr_record_of_loc mx lx)) <= B * 2 ^ (- ex) ->
  exists (mrs : shr_record),
    shr_fexp prec emax mx ex lx = (mrs, ex + d - 53) /\
    2 ^ 52 <= shr_m mrs < 2 ^ 53 /\
    shr_m mrs + Zb (inexact mrs) <= B * 2 ^ (- (ex + d - 53)).
Proof.
  intros Hd Hmx He Hb.
  unfold shr_fexp. rewrite (Zdigits2_unique mx d) by lia.
  rewrite fexp_eq.
  replace (Z.max (d + ex - 53) (-1074) - ex) with (d - 53) by lia.
  unfold shr.
  destruct (d - 53) as [|p|p] eqn:Hn; try lia.
  - exists (shr_record_of_loc mx lx).
    replace (ex + d - 53) with ex by lia.
    assert (d = 53) by lia. subst d.
    rewrite shr_m_shr_record_of_loc. repeat split; try tauto; lia.
  - exists (iter_pos shr_1 p (shr_record_of_loc mx lx)).
    replace (ex + Z.pos p) with (ex + d - 53) by lia.
    split; [reflexivity|].
    rewrite iter_pos_nat.
    assert (Hp : Z.of_nat (Pos.to_nat p) = d - 53) by lia.
    assert (Hpow : 2 ^ (d - 1) = 2 ^ (d - 53) * 2 ^ 52).
    { rewrite <- pow2_split by lia. f_equal. lia. }
    assert (Hpow' : 2 ^ d = 2 ^ (d - 53) * 2 ^ 53).
    { rewrite <- pow2_split by lia. f_equal. lia. }
    assert (Hpos : 0 < 2 ^ (d - 53)) by (apply pow2_pos; lia).
    split.
    + rewrite shr_iter_m, shr_m_shr_record_of_loc, Hp
        by (rewrite shr_m_shr_record_of_loc; lia).
      split.
      * apply Z.div_le_lower_bound; lia.
      * apply Z.div_lt_upper_bound; lia.
    + apply shr_iter_bound.
      * rewrite shr_m_shr_record_of_loc. lia.
      * rewrite shr_m_shr_record_of_loc, Hp.
        replace (- ex) with (d - 53 + - (ex + d - 53)) in Hb by lia.
        rewrite pow2_split in Hb by lia. lia.
Qed.

(** A lower bound [2 ^ k] and an upper bound [B * 2 ^ t] on one number
    bound the exponents. *)
Lemma exponent_gap (m B k t : Z) :
  0 <= k -> 2 ^ k <= m -> m <= B * 2 ^ t -> 0 < B < 2 ^ 52 -> k < 52 + t.
Proof.
  intros Hk Hlo Hhi HB.
  assert (Hpk : 0 < 2 ^ k) by (apply pow2_pos; lia).
  destruct (Z.lt_ge_cases t 0) as [Ht|Ht].
  - rewrite (Z.pow_neg_r 2 t Ht) in Hhi. lia.
  - assert (Hpt : 0 < 2 ^ t) by (apply pow2_pos; lia).
    assert (H : 2 ^ k < 2 ^ (52 + t)).
    { rewrite pow2_split by lia. nia. }
    apply Z.pow_lt_mono_r_iff in H; lia.
Qed.

(** Rounding a value that is at most the integer [B] gives a normal number
    that is at most [B]. *)
Lemma binary_round_aux_bound (mx ex : Z) (lx : location) (d B : Z) :
  53 <= d -> 2 ^ (d - 1) <= mx < 2 ^ d ->
  -1074 <= ex + d - 53 ->
  0 < B < 2 ^ 52 ->
  mx + Zb (inexact (shr_record_of_loc mx lx)) <= B * 2 ^ (- ex) ->
  exists (m : positive) (e : Z),
    binary_round_aux prec emax false mx ex lx = S754_finite false m e /\
    2 ^ 52 <= Zpos m < 2 ^ 53 /\
    ex + d - 53 <= e <= 0 /\
    Zpos m <= B * 2 ^ (- e).
Proof.
  intros Hd Hmx Hemin HB Hb.
  assert (Hzb : forall b, 0 <= Zb b <= 1) by (intros [|]; simpl; lia).
  assert (He1 : d - 1 < 52 + - ex).
  { apply (exponent_gap mx B); try lia.
    specialize (Hzb (inexact (shr_record_of_loc mx lx))). lia. }
  destruct (shr_fexp_normal mx ex lx d B) as [mrs1 [H1 [Hm1 Hb1]]]; try lia.
  unfold binary_round_aux. rewrite H1.
  set (e1 := ex + d - 53) in *.
  set (m2 := round_nearest_even (shr_m mrs1) (loc_of_shr_record mrs1)).
  pose proof (round_nearest_even_bound mrs1) as Hm2. fold m2 in Hm2.
  assert (Hb2 : m2 <= B * 2 ^ (- e1)) by lia.
  assert (Hstep : forall d2, 53 <= d2 -> 2 ^ (d2 - 1) <= m2 < 2 ^ d2 ->
            d2 <= 54 ->
            exists (m : positive) (e : Z),
              (let '(mrs'', e'') := shr_fexp prec emax m2 e1 loc_Exact in
               match shr_m mrs'' with
               | 0 => S754_zero false
               | Z.pos m => if e'' <=? emax - prec then S754_finite false m e''
                            else S754_infinity false
               | Z.neg _ => S754_nan
               end) = S754_finite false m e /\
              2 ^ 52 <= Zpos m < 2 ^ 53 /\ e1 <= e <= 0 /\ Zpos m <= B * 2 ^ (- e)).
  { intros d2 Hd2 Hm2' Hd2'.
    assert (He2 : d2 - 1 < 52 + - e1) by (apply (exponent_gap m2 B); lia).
    destruct (shr_fexp_normal m2 e1 loc_Exact d2 B) as [mrs3 [H3 [Hm3 Hb3]]];
      try lia.
    { cbn [inexact shr_record_of_loc shr_r shr_s orb Zb]. lia. }
    rewrite H3.
    specialize (Hzb (inexact mrs3)).
    destruct (shr_m mrs3) as [|m|m] eqn:Hm; try lia.
    exists m, (e1 + d2 - 53).
    replace (e1 + d2 - 53 <=? emax - prec) with true
      by (symmetry; apply Z.leb_le; unfold emax, prec; lia).
    repeat split; try lia. }
  destruct (Z.lt_ge_cases m2 (2 ^ 53)) as [Hlt|Hge].
  - assert (Hm53 : 2 ^ (53 - 1) <= m2 < 2 ^ 53) by (split; lia).
    destruct (Hstep 53 ltac:(lia) Hm53 ltac:(lia)) as [m [e Hres]].
    exists m, e. repeat split; try tauto; lia.
  - assert (m2 = 2 ^ 53) by (specialize (Hzb (inexact mrs1)); lia).
    assert (Hm54 : 2 ^ (54 - 1) <= m2 < 2 ^ 54).
    { split; [lia|]. change (2 ^ 54) with (2 * 2 ^ 53). lia. }
    destruct (Hstep 54 ltac:(lia) Hm54 ltac:(lia)) as [m [e Hres]].
    exists m, e. repeat split; try tauto; lia.
Qed.

(** A mantissa of exactly 53 digits with nothing lost is kept as it is. *)
Lemma binary_round_aux_exact (s : bool) (m : positive) (e : Z) :
  2 ^ 52 <= Zpos m < 2 ^ 53 -> -1074 <= e <= 971 ->
  binary_round_aux prec emax s (Zpos m) e loc_Exact = S754_finite s m e.
Proof.
  intros Hm He.
  assert (Hs : shr_fexp prec emax (Zpos m) e loc_Exact
               = (shr_record_of_loc (Zpos m) loc_Exact, e)).
  { unfold shr_fexp. rewrite (Zdigits2_unique (Zpos m) 53) by lia.
    rewrite fexp_eq.
    replace (Z.max (53 + e - 53) (-1074) - e) with 0 by lia. reflexivity. }
  unfold binary_round_aux. rewrite Hs.
  cbn [shr_record_of_loc shr_m loc_of_shr_record round_nearest_even].
  rewrite Hs. cbn [shr_record_of_loc shr_m].
  replace (e <=? emax - prec) with true
    by (symmetry; apply Z.leb_le; unfold emax, prec; lia).
  reflexivity.
Qed.

Lemma Pos_iter_xO (p k : positive) : Zpos (Pos.iter xO p k) = Zpos p * 2 ^ Zpos k.
Proof.
  induction k as [|k IH] using Pos.peano_ind.
  - cbn [Pos.iter]. rewrite (Pos2Z.inj_xO p). change (2 ^ 1) with 2. lia.
  - rewrite Pos.iter_succ, Pos2Z.inj_succ, Z.pow_succ_r by lia.
    rewrite (Pos2Z.inj_xO (Pos.iter xO p k)), IH. lia.
Qed.

(** An integer below [2 ^ 53] is a number, exactly. *)
Lemma Number_of_Z_normal (z : Z) :
  1 <= z < 2 ^ 53 -> normal_int z (Number_of_Z z).
Proof.
  intros Hz. destruct z as [|p|p]; try lia.
  unfold Number_of_Z, binary_normalize, binary_round.
  pose proof (Zdigits2_bounds (Zpos p) ltac:(lia)) as Hd.
  cbn [Zdigits2] in Hd.
  set (d := Zpos (digits2_pos p)) in *.
  assert (Hd1 : 1 <= d) by (unfold d; lia).
  assert (Hd53 : d <= 53).
  { assert (H : 2 ^ (d - 1) < 2 ^ 53) by lia.
    apply Z.pow_lt_mono_r_iff in H; lia. }
  rewrite fexp_eq. replace (Z.max (d + 0 - 53) (-1074)) with (d - 53) by lia.
  unfold shl_align. rewrite Z.sub_0_r.
  destruct (d - 53) as [|k|k] eqn:Hk; try lia.
  - assert (H53 : d = 53) by lia.
    rewrite H53 in Hd. change (2 ^ (53 - 1)) with (2 ^ 52) in Hd.
    rewrite binary_round_aux_exact by lia.
    exists p, 0. change (2 ^ (- 0)) with 1.
    repeat split; lia.
  - assert (Hk' : Zpos k = 53 - d) by lia.
    assert (Hpow : 2 ^ 52 = 2 ^ (d - 1) * 2 ^ Zpos k).
    { rewrite <- pow2_split by lia. f_equal. lia. }
    assert (Hpow' : 2 ^ 53 = 2 ^ d * 2 ^ Zpos k).
    { rewrite <- pow2_split by lia. f_equal. lia. }
    assert (Hpos : 0 < 2 ^ Zpos k) by (apply pow2_pos; lia).
    assert (Hm : 2 ^ 52 <= Zpos (Pos.iter xO p k) < 2 ^ 53).
    { rewrite Pos_iter_xO, Hpow, Hpow'. split; nia. }
    rewrite binary_round_aux_exact by lia.
    exists (Pos.iter xO p k), (Z.neg k).
    repeat split; try lia.
    rewrite Pos_iter_xO. reflexivity.
Qed.

Lemma inexact_new_location (q n r : Z) :
  inexact (shr_record_of_loc q (new_location n r)) = negb (r =? 0).
Proof.
  rewrite inexact_shr_record_of_loc.
  unfold new_location, new_location_even, new_location_odd.
  destruct (Z.even n), (r =? 0); reflexivity.
Qed.

(** The quotient of a normal number by a normal number that is not smaller
    is at most one. *)
Lemma num_div_le_one (mx my : positive) (ex ey : Z) :
  2 ^ 52 <= Zpos mx < 2 ^ 53 -> 2 ^ 52 <= Zpos my < 2 ^ 53 ->
  -52 <= ex <= 0 -> -52 <= ey <= 0 ->
  Zpos mx * 2 ^ (- ey) <= Zpos my * 2 ^ (- ex) ->
  normal_le 1 (num_div (S754_finite false mx ex) (S754_finite false my ey)).
Proof.
  intros Hmx Hmy Hex Hey Hle.
  unfold num_div, SFdiv, SFdiv_core_binary. cbn [xorb].
  rewrite (Zdigits2_unique (Zpos mx) 53), (Zdigits2_unique (Zpos my) 53) by lia.
  rewrite fexp_eq.
  replace (Z.min (Z.max (53 + ex - (53 + ey) - 53) (-1074)) (ex - ey))
    with (ex - ey - 53) by lia.
  replace (ex - ey - (ex - ey - 53)) with 53 by lia.
  rewrite Z.shiftl_mul_pow2 by lia.
  pose proof (Z_div_mod (Zpos mx * 2 ^ 53) (Zpos my) ltac:(lia)) as Hdiv.
  destruct (Z.div_eucl (Zpos mx * 2 ^ 53) (Zpos my)) as [q r].
  destruct Hdiv as [Hqr Hr].
  set (T := 2 ^ (53 + ey - ex)).
  assert (HT : T * 2 ^ (- ey) = 2 ^ 53 * 2 ^ (- ex)).
  { unfold T. rewrite <- !pow2_split by lia. f_equal. lia. }
  assert (Hpey : 0 < 2 ^ (- ey)) by (apply pow2_pos; lia).
  assert (Hpex : 0 < 2 ^ (- ex)) by (apply pow2_pos; lia).
  assert (HTpos : 0 < T) by (apply pow2_pos; lia).
  assert (HmT : Zpos mx * 2 ^ 53 <= Zpos my * T).
  { apply (Z.mul_le_mono_pos_r _ _ (2 ^ (- ey)) Hpey).
    assert (E : Zpos my * T * 2 ^ (- ey) = Zpos my * 2 ^ (- ex) * 2 ^ 53).
    { rewrite <- (Z.mul_assoc (Zpos my) T), HT. ring. }
    rewrite E.
    replace (Zpos mx * 2 ^ 53 * 2 ^ (- ey)) with (Zpos mx * 2 ^ (- ey) * 2 ^ 53)
      by ring.
    apply Z.mul_le_mono_nonneg_r; lia. }
  assert (Hq52 : 2 ^ 52 <= q) by nia.
  assert (Hq54 : q < 2 ^ 54) by nia.
  assert (Hbound : q + Zb (inexact (shr_record_of_loc q (new_location (Zpos my) r)))
                   <= 1 * 2 ^ (- (ex - ey - 53))).
  { rewrite inexact_new_location. replace (- (ex - ey - 53)) with (53 + ey - ex) by lia.
    fold T. destruct (Z.eqb_spec r 0) as [Hr0|Hr0]; cbn [negb Zb]; nia. }
  destruct (Z.lt_ge_cases q (2 ^ 53)) as [Hlt|Hge].
  - destruct (binary_round_aux_bound q (ex - ey - 53) (new_location (Zpos my) r) 53 1)
      as [m [e [Hres [Hm [He Hb]]]]]; try lia.
    exists m, e. repeat split; try tauto; lia.
  - assert (Hq : 2 ^ (54 - 1) <= q < 2 ^ 54) by (split; lia).
    destruct (binary_round_aux_bound q (ex - ey - 53) (new_location (Zpos my) r) 54 1
                ltac:(lia) Hq ltac:(lia) ltac:(lia) Hbound)
      as [m [e [Hres [Hm [He Hb]]]]].
    exists m, e. repeat split; try tauto; lia.
Qed.

Lemma Number_of_Z_1000 : Number_of_Z 1000 = S754_finite false 8796093022208000 (-43).
Proof. reflexivity. Qed.

(** A number that is at most one, times 1000, is at most 1000. *)
Lemma num_mul_1000_le (x : number) :
  normal_le 1 x -> normal_le 1000 (num_mul x (Number_of_Z 1000)).
Proof.
  intros [m [e [-> [Hm [He Hb]]]]].
  rewrite Number_of_Z_1000. unfold num_mul, SFmul. cbn [xorb].
  rewrite Pos2Z.inj_mul.
  assert (Hp : 0 < 2 ^ (- e)) by (apply pow2_pos; lia).
  assert (Hbound : Zpos m * 8796093022208000
                   + Zb (inexact (shr_record_of_loc (Zpos m * 8796093022208000) loc_Exact))
                   <= 1000 * 2 ^ (- (e + -43))).
  { cbn [inexact shr_record_of_loc shr_r shr_s orb Zb].
    replace (- (e + -43)) with (43 + - e) by lia. rewrite pow2_split by lia.
    change (2 ^ 43) with 8796093022208. nia. }
  destruct (Z.lt_ge_cases (Zpos m * 8796093022208000) (2 ^ 105)) as [Hlt|Hge].
  - assert (Hd : 2 ^ (105 - 1) <= Zpos m * 8796093022208000 < 2 ^ 105).
    { split; [|lia]. change (2 ^ (105 - 1)) with (2 ^ 52 * 2 ^ 52).
      change (2 ^ 52) with 4503599627370496 in *. nia. }
    destruct (binary_round_aux_bound _ (e + -43) loc_Exact 105 1000
                ltac:(lia) Hd ltac:(lia) ltac:(lia) Hbound)
      as [m' [e' [Hres [Hm' [He' Hb']]]]].
    exists m', e'. repeat split; try tauto; lia.
  - assert (Hd : 2 ^ (106 - 1) <= Zpos m * 8796093022208000 < 2 ^ 106).
    { split; [lia|]. change (2 ^ 106) with (2 ^ 53 * 2 ^ 53).
      change (2 ^ 53) with 9007199254740992 in *. nia. }
    destruct (binary_round_aux_bound _ (e + -43) loc_Exact 106 1000
                ltac:(lia) Hd ltac:(lia) ltac:(lia) Hbound)
      as [m' [e' [Hres [Hm' [He' Hb']]]]].
    exists m', e'. repeat split; try tauto; lia.
Qed.

(** Rounding a number that is at most 1000 gives zero or an integer from 1
    to 1000. *)
Lemma Math_round_le_1000 (x : number) :
  normal_le 1000 x ->
  Math_round x = num_zero \/
  exists k : Z, 1 <= k <= 1000 /\ Math_round x = Number_of_Z k.
Proof.
  intros [m [e [-> [Hm [He Hb]]]]].
  assert (Hneg : e < 0).
  { assert (52 < 52 + - e) by (apply (exponent_gap (Zpos m) 1000); lia). lia. }
  unfold Math_round.
  replace (0 <=? e) with false by (symmetry; apply Z.leb_gt; lia).
  cbn [cond_Zopp].
  assert (Hp : 0 < 2 ^ (- e)) by (apply pow2_pos; lia).
  replace (1 - e) with (1 + - e) by lia. rewrite pow2_split by lia.
  change (2 ^ 1) with 2.
  set (k := (2 * Zpos m + 2 ^ (- e)) / (2 * 2 ^ (- e))).
  assert (Hk0 : 0 <= k) by (apply Z.div_pos; lia).
  assert (Hk : k < 1001) by (apply Z.div_lt_upper_bound; lia).
  destruct (Z.eqb_spec k 0) as [Hz|Hz].
  - now left.
  - right. exists k. split; [lia | reflexivity].
Qed.

(** The accuracy is a whole number of thousandths, from 0 to 1000. *)
Lemma accuracy_of_counts_thousandths (c n : nat) :
  (c <= n)%nat -> (0 < n)%nat -> Z.of_nat n < 2 ^ 53 ->
  accuracy_of_counts c n = num_zero \/
  exists k : Z,
    1 <= k <= 1000 /\
    accuracy_of_counts c n = num_div (Number_of_Z k) (Number_of_Z 1000).
Proof.
  intros Hcn Hn Hbig. unfold accuracy_of_counts, Number_of_nat.
  destruct (Number_of_Z_normal (Z.of_nat n) ltac:(lia))
    as [mn [en [-> [Hmn [Hen Hvn]]]]].
  destruct c as [|c].
  - now left.
  - destruct (Number_of_Z_normal (Z.of_nat (S c)) ltac:(lia))
      as [mc [ec [-> [Hmc [Hec Hvc]]]]].
    assert (Hpc : 0 < 2 ^ (- ec)) by (apply pow2_pos; lia).
    assert (Hpn : 0 < 2 ^ (- en)) by (apply pow2_pos; lia).
    assert (Hle : Zpos mc * 2 ^ (- en) <= Zpos mn * 2 ^ (- ec)).
    { rewrite Hvc, Hvn. nia. }
    pose proof (num_div_le_one mc mn ec en Hmc Hmn Hec Hen Hle) as Hq.
    apply num_mul_1000_le in Hq. apply Math_round_le_1000 in Hq.
    destruct Hq as [-> | [k [Hk ->]]].
    + now left.
    + right. exists k. split; [exact Hk | reflexivity].
Qed.

Lemma count_correct_le (vs : list RoutingValidation) :
  (count_correct vs <= length vs)%nat.
Proof. unfold count_correct. apply filter_length_le. Qed.

Lemma computeAccuracy_counts (vs : list RoutingValidation) :
  vs <> [] -> computeAccuracy vs = accuracy_of_counts (count_correct vs) (length vs).
Proof. destruct vs; [congruence | reflexivity]. Qed.

End Binary64.

(** ** Strings, white space and tokens of JSON *)

Lemma append_assoc (a b c : string) : ((a ++ b) ++ c = a ++ (b ++ c))%string.
Proof. induction a as [|x a IH]; simpl; [reflexivity | now rewrite IH]. Qed.

Lemma append_nil_r (a : string) : (a ++ "" = a)%string.
Proof. induction a as [|x a IH]; simpl; [reflexivity | now rewrite IH]. Qed.

Lemma length_append (a b : string) :
  String.length (a ++ b) = (String.length a + String.length b)%nat.
Proof. induction a as [|x a IH]; simpl; [reflexivity | now rewrite IH]. Qed.

(** ** String literals read back *)

Lemma parse_string_body_quote (s rest : string) :
  parse_string_body (quote_body s ++ String DQUOTE rest) = Some (s, rest).
Proof.
  induction s as [|c s IH].
  - reflexivity.
  - cbn [quote_body]. rewrite append_assoc.
    remember (quote_body s ++ String DQUOTE rest)%string as tail eqn:E.
    destruct c as [[|] [|] [|] [|] [|] [|] [|] [|]];
      cbn; rewrite IH; reflexivity.
Qed.

Lemma parse_string_body_QuoteJSONString (s rest : string) :
  exists tail : string,
    (QuoteJSONString s ++ rest)%string = String DQUOTE tail /\
    parse_string_body tail = Some (s, rest).
Proof.
  exists (quote_body s ++ String DQUOTE rest)%string. split.
  - unfold QuoteJSONString. cbn [append]. now rewrite append_assoc.
  - apply parse_string_body_quote.
Qed.

(** ** White space and tokens *)

Lemma skip_ws_all_ws (ws s : string) :
  all_ws ws = true -> skip_ws (ws ++ s) = skip_ws s.
Proof.
  unfold all_ws. induction ws as [|c ws IH]; cbn [list_ascii_of_string forallb append].
  - reflexivity.
  - intros H. apply andb_true_iff in H. destruct H as [Hc Hws].
    cbn [skip_ws]. rewrite Hc. now apply IH.
Qed.

Lemma skip_ws_start (c : ascii) (s : string) :
  is_ws c = false -> skip_ws (String c s) = String c s.
Proof. intros H. cbn [skip_ws]. now rewrite H. Qed.

Lemma all_ws_app (a b : string) :
  all_ws a = true -> all_ws b = true -> all_ws (a ++ b) = true.
Proof.
  unfold all_ws. induction a as [|c a IH]; cbn [list_ascii_of_string forallb append].
  - trivial.
  - intros H Hb. apply andb_true_iff in H. destruct H as [Hc Ha].
    rewrite Hc. now apply IH.
Qed.

Lemma span_number_token (tok rest : string) :
  forallb is_number_char (list_ascii_of_string tok) = true ->
  delimited rest = true ->
  span is_number_char (tok ++ rest) = (tok, rest).
Proof.
  induction tok as [|c tok IH]; cbn [list_ascii_of_string forallb append].
  - intros _ H. destruct rest as [|c rest]; [reflexivity|].
    cbn [delimited] in H. cbn [span].
    apply negb_true_iff in H. now rewrite H.
  - intros H Hrest. apply andb_true_iff in H. destruct H as [Hc Htok].
    cbn [span]. rewrite Hc, (IH Htok Hrest). reflexivity.
Qed.

(** What the first character of a number excludes. *)
Lemma number_char_start (c : ascii) :
  is_number_char c = true ->
  is_ws c = false /\
  Ascii.eqb c "{" = false /\ Ascii.eqb c "[" = false /\ Ascii.eqb c "]" = false /\
  Ascii.eqb c DQUOTE = false /\
  Ascii.eqb "t" c = false /\ Ascii.eqb "f" c = false /\ Ascii.eqb "n" c = false.
Proof.
  destruct c as [[|] [|] [|] [|] [|] [|] [|] [|]];
    vm_compute; intros H; try discriminate H; repeat split.
Qed.

(** ** What the serializer writes *)

Lemma Serialize_array (indent : string) (items : list JsValue) :
  SerializeJSONProperty indent (JsArray items) =
  Some match map (elem_str (indent ++ gap)) items with
       | [] => "[]"
       | _ :: _ =>
           ("[" ++ LF ++ (indent ++ gap)
            ++ join ("," ++ LF ++ (indent ++ gap)) (map (elem_str (indent ++ gap)) items)
            ++ LF ++ indent ++ "]")%string
       end.
Proof.
  cbn [SerializeJSONProperty].
  match goal with
  | |- Some (match ?f items with _ => _ end) = _ =>
      assert (E : f items = map (elem_str (indent ++ gap)) items)
  end.
  { induction items as [|x items IH]; [reflexivity|].
    cbn [map]. rewrite <- IH. reflexivity. }
  rewrite E. reflexivity.
Qed.

Lemma json_safe_serializes (indent : string) (v : JsValue) :
  json_safe v = true -> SerializeJSONProperty indent v = Some (elem_str indent v).
Proof.
  unfold elem_str. destruct v; try discriminate; intros _;
    destruct (SerializeJSONProperty indent _) eqn:E; try reflexivity;
    cbn [SerializeJSONProperty] in E; discriminate.
Qed.

Lemma Serialize_object (indent : string) (props : list (string * JsValue)) :
  forallb (fun kv => json_safe (snd kv)) props = true ->
  SerializeJSONProperty indent (JsObject props) =
  Some match map (member_str (indent ++ gap)) props with
       | [] => "{}"
       | _ :: _ =>
           ("{" ++ LF ++ (indent ++ gap)
            ++ join ("," ++ LF ++ (indent ++ gap)) (map (member_str (indent ++ gap)) props)
            ++ LF ++ indent ++ "}")%string
       end.
Proof.
  intros Hsafe. cbn [SerializeJSONProperty].
  match goal with
  | |- Some (match ?f props with _ => _ end) = _ =>
      assert (E : f props = map (member_str (indent ++ gap)) props)
  end.
  { induction props as [|[k x] props IH]; [reflexivity|].
    cbn [forallb snd] in Hsafe. apply andb_true_iff in Hsafe.
    destruct Hsafe as [Hx Hrest].
    cbn [map]. rewrite <- (IH Hrest).
    rewrite (json_safe_serializes _ x Hx). reflexivity. }
  rewrite E. reflexivity.
Qed.

(** ** Reading back *)

Lemma parse_value_skip (fuel : nat) (ws s : string) :
  all_ws ws = true -> parse_value fuel (ws ++ s) = parse_value fuel s.
Proof.
  intros H. destruct fuel; [reflexivity|].
  cbn [parse_value]. now rewrite skip_ws_all_ws.
Qed.

Lemma parse_members_skip (fuel : nat) (ws s : string) (acc : list (string * JsValue)) :
  all_ws ws = true -> parse_members fuel (ws ++ s) acc = parse_members fuel s acc.
Proof.
  intros H. destruct fuel; [reflexivity|].
  cbn [parse_members]. now rewrite skip_ws_all_ws.
Qed.

Lemma all_ws_LF_indent (indent : string) :
  all_ws indent = true -> all_ws (LF ++ indent) = true.
Proof. intros H. apply all_ws_app; [reflexivity | exact H]. Qed.

Lemma join_cons (sep a b : string) (l : list string) :
  join sep (a :: b :: l) = (a ++ sep ++ join sep (b :: l))%string.
Proof. reflexivity. Qed.

Lemma join_map_cons {A : Type} (sep : string) (f : A -> string) (x y : A) (l : list A) :
  join sep (map f (x :: y :: l)) = (f x ++ sep ++ join sep (map f (y :: l)))%string.
Proof. reflexivity. Qed.

Lemma skip_ws_comma (s : string) : skip_ws ("," ++ s) = String "," s.
Proof. reflexivity. Qed.

Lemma skip_ws_close (indent : string) (c : ascii) (s : string) :
  all_ws indent = true -> is_ws c = false ->
  skip_ws (LF ++ indent ++ String c s) = String c s.
Proof.
  intros Hindent Hc.
  rewrite <- append_assoc, skip_ws_all_ws by now apply all_ws_LF_indent.
  now apply skip_ws_start.
Qed.

Lemma parse_elements_loop (ind indent : string) (items : list JsValue) :
  all_ws ind = true -> all_ws indent = true ->
  Forall reads_back items ->
  items <> [] ->
  forall (acc : list JsValue) (fuel : nat) (ws rest : string),
    all_ws ws = true ->
    (list_sum (map (fun x => S (fuel_for x)) items) <= fuel)%nat ->
    parse_elements fuel
      (ws ++ join ("," ++ LF ++ ind) (map (elem_str ind) items)
          ++ LF ++ indent ++ String "]" rest) acc
    = Some (JsArray (acc ++ items), rest).
Proof.
  intros Hind Hindent Hall. induction Hall as [|x items Hx Hitems IH].
  - congruence.
  - intros _ acc fuel ws rest Hws Hfuel.
    cbn [map list_sum fold_right] in Hfuel.
    destruct fuel as [|fuel]; [lia|].
    cbn [parse_elements]. rewrite parse_value_skip by exact Hws.
    destruct items as [|y items].
    + cbn [map join].
      rewrite (Hx ind _ fuel Hind); [|reflexivity | lia].
      rewrite skip_ws_close by (trivial; reflexivity).
      reflexivity.
    + rewrite join_map_cons, !append_assoc.
      rewrite (Hx ind _ fuel Hind); [|reflexivity | lia].
      rewrite skip_ws_comma.
      cbv beta iota. rewrite Ascii.eqb_refl.
      rewrite <- (append_assoc LF ind).
      rewrite (IH ltac:(discriminate) (acc ++ [x]) fuel (LF ++ ind)%string rest).
      * now rewrite <- app_assoc.
      * now apply all_ws_LF_indent.
      * cbn [map list_sum fold_right] in Hfuel |- *. lia.
Qed.

Lemma has_prop_fresh (key : string) (props : list (string * JsValue)) :
  ~ In key (map fst props) -> has_prop key props = false.
Proof.
  unfold has_prop. induction props as [|[k x] props IH]; cbn [existsb map fst In].
  - reflexivity.
  - intros Hnot. destruct (String.eqb_spec k key) as [->|Hk].
    + exfalso. apply Hnot. now left.
    + apply IH. intros Hin. apply Hnot. now right.
Qed.

Lemma enumeration_ordered_prefix (l l' : list string) (k : string) :
  enumeration_ordered (l ++ k :: l') = true -> enumeration_ordered (l ++ [k]) = true.
Proof.
  induction l as [|h l IH]; cbn [app enumeration_ordered]; [reflexivity|].
  rewrite !forallb_app. cbn [forallb]. intros H.
  apply andb_true_iff in H. destruct H as [H Hord].
  apply andb_true_iff in H. destruct H as [Hl H].
  apply andb_true_iff in H. destruct H as [Hk _].
  rewrite Hl, Hk, (IH Hord). reflexivity.
Qed.

Lemma insert_index_last (i : Z) (key : string) (v : JsValue)
  (props : list (string * JsValue)) :
  array_index key = Some i ->
  enumeration_ordered (map fst (props ++ [(key, v)])) = true ->
  insert_index i key v props = props ++ [(key, v)].
Proof.
  intros Hi. induction props as [|[k x] props IH];
    cbn [app map fst enumeration_ordered insert_index]; [reflexivity|].
  rewrite map_app, forallb_app. cbn [map fst forallb]. intros H.
  apply andb_true_iff in H. destruct H as [H Hord].
  apply andb_true_iff in H. destruct H as [_ H].
  rewrite andb_true_r in H. rewrite Hi in H.
  destruct (array_index k) as [j|]; [|discriminate].
  rewrite map_app in IH. cbn [map fst] in IH.
  rewrite H, (IH Hord). reflexivity.
Qed.

Lemma set_prop_fresh (key : string) (v : JsValue) (props : list (string * JsValue)) :
  ~ In key (map fst props) ->
  enumeration_ordered (map fst (props ++ [(key, v)])) = true ->
  set_prop key v props = props ++ [(key, v)].
Proof.
  intros Hnot Hord. unfold set_prop. rewrite (has_prop_fresh key props Hnot).
  destruct (array_index key) as [i|] eqn:Hi; [|reflexivity].
  now apply insert_index_last.
Qed.

Lemma skip_ws_colon (s : string) : skip_ws (": " ++ s) = String ":" (" " ++ s).
Proof. reflexivity. Qed.

Lemma parse_members_loop (ind indent : string) (props : list (string * JsValue)) :
  all_ws ind = true -> all_ws indent = true ->
  Forall (fun kv => reads_back (snd kv)) props ->
  props <> [] ->
  forall (acc : list (string * JsValue)) (fuel : nat) (ws rest : string),
    all_ws ws = true ->
    (list_sum (map (fun kv => S (fuel_for (snd kv))) props) <= fuel)%nat ->
    NoDup (map fst (acc ++ props)) ->
    enumeration_ordered (map fst (acc ++ props)) = true ->
    parse_members fuel
      (ws ++ join ("," ++ LF ++ ind) (map (member_str ind) props)
          ++ LF ++ indent ++ String "}" rest) acc
    = Some (JsObject (acc ++ props), rest).
Proof.
  intros Hind Hindent Hall. induction Hall as [|[k x] props Hx Hprops IH].
  - congruence.
  - intros _ acc fuel ws rest Hws Hfuel Hnodup Hord.
    cbn [map list_sum fold_right snd] in Hfuel.
    cbn [snd] in Hx.
    destruct fuel as [|fuel]; [lia|].
    assert (Hfresh : ~ In k (map fst acc)).
    { rewrite map_app in Hnodup. cbn [map fst] in Hnodup.
      apply NoDup_remove_2 in Hnodup. intros Hin. apply Hnodup.
      apply in_or_app. now left. }
    rewrite parse_members_skip by exact Hws.
    assert (Hstep : forall after : string,
              delimited after = true ->
              parse_members (S fuel) (member_str ind (k, x) ++ after) acc
              = match skip_ws after with
                | String c rest2 =>
                    if Ascii.eqb c ","
                    then parse_members fuel rest2 (acc ++ [(k, x)])
                    else if Ascii.eqb c "}"
                    then Some (JsObject (acc ++ [(k, x)]), rest2)
                    else None
                | EmptyString => None
                end).
    { intros after Hafter. unfold member_str. cbn [fst snd].
      rewrite append_assoc.
      destruct (parse_string_body_QuoteJSONString k
                  ((": " ++ elem_str ind x) ++ after)) as [tail [E Htail]].
      rewrite E. cbn [parse_members].
      rewrite skip_ws_start by reflexivity. cbv beta iota.
      rewrite Ascii.eqb_refl, Htail.
      rewrite append_assoc, skip_ws_colon. cbv beta iota.
      rewrite Ascii.eqb_refl.
      rewrite (parse_value_skip fuel " ") by reflexivity.
      rewrite (Hx ind after fuel Hind Hafter) by lia.
      rewrite (set_prop_fresh k x acc Hfresh); [reflexivity|].
      rewrite map_app in Hord |- *. cbn [map fst] in Hord |- *.
      exact (enumeration_ordered_prefix _ _ _ Hord). }
    destruct props as [|kv props].
    + cbn [map join]. rewrite Hstep by reflexivity.
      rewrite skip_ws_close by (trivial; reflexivity).
      reflexivity.
    + rewrite join_map_cons, !append_assoc.
      rewrite Hstep by reflexivity.
      rewrite skip_ws_comma. cbv beta iota. rewrite Ascii.eqb_refl.
      rewrite <- (append_assoc LF ind).
      rewrite (IH ltac:(discriminate) (acc ++ [(k, x)]) fuel (LF ++ ind)%string rest).
      * now rewrite <- app_assoc.
      * now apply all_ws_LF_indent.
      * cbn [map list_sum fold_right] in Hfuel |- *. lia.
      * now rewrite <- app_assoc.
      * now rewrite <- app_assoc.
Qed.

Lemma number_eqb_eq (x y : number) : number_eqb x y = true -> x = y.
Proof.
  destruct x as [a|a| |a m e], y as [b|b| |b m' e']; cbn [number_eqb];
    try discriminate; try reflexivity.
  - intros H. apply Bool.eqb_prop in H. now subst.
  - intros H. apply Bool.eqb_prop in H. now subst.
  - intros H. apply andb_true_iff in H. destruct H as [H He].
    apply andb_true_iff in H. destruct H as [Hs Hm].
    apply Bool.eqb_prop in Hs. apply Pos.eqb_eq in Hm. apply Z.eqb_eq in He.
    now subst.
Qed.

(** ** Decimal digits *)

Section Decimal.

Local Open Scope Z_scope.

Lemma digit_char_spec (d : Z) :
  0 <= d < 10 ->
  is_digit (digit_char d) = true /\ digit_value (digit_char d) = d /\
  (N_of_ascii (digit_char d) =? 48)%N = (d =? 0).
Proof.
  intros Hd.
  assert (H : d = 0 \/ d = 1 \/ d = 2 \/ d = 3 \/ d = 4 \/ d = 5 \/ d = 6 \/ d = 7
              \/ d = 8 \/ d = 9) by lia.
  repeat (destruct H as [-> | H]; [repeat split|]). subst. repeat split.
Qed.

Lemma all_digits_app (a b : string) :
  all_digits (a ++ b) = all_digits a && all_digits b.
Proof.
  unfold all_digits. induction a as [|c a IH]; cbn [append list_ascii_of_string forallb].
  - reflexivity.
  - now rewrite IH, andb_assoc.
Qed.

Lemma Z_of_digits_from (s : string) : Z_of_digits s = digits_from 0 s.
Proof. reflexivity. Qed.

Lemma digits_from_cons (acc : Z) (c : ascii) (s : string) :
  digits_from acc (String c s) = digits_from (10 * acc + digit_value c) s.
Proof. reflexivity. Qed.

Lemma digits_from_shift (s : string) :
  forall acc : Z,
    digits_from acc s = acc * 10 ^ Z.of_nat (String.length s) + digits_from 0 s.
Proof.
  induction s as [|c s IH]; intros acc.
  - cbn. lia.
  - rewrite !digits_from_cons. rewrite (IH (10 * acc + digit_value c)), (IH (10 * 0 + _)).
    cbn [String.length]. rewrite Nat2Z.inj_succ, Z.pow_succ_r by lia. ring.
Qed.

Lemma digits_from_app (acc : Z) (a b : string) :
  digits_from acc (a ++ b) = digits_from (digits_from acc a) b.
Proof.
  revert acc. induction a as [|c a IH]; intros acc; [reflexivity|].
  cbn [append]. rewrite !digits_from_cons. apply IH.
Qed.

Lemma Z_of_digits_app (a b : string) :
  Z_of_digits (a ++ b)
  = Z_of_digits a * 10 ^ Z.of_nat (String.length b) + Z_of_digits b.
Proof.
  rewrite !Z_of_digits_from, digits_from_app. apply digits_from_shift.
Qed.

(** What [dec_digits] puts in front of [acc], given enough fuel. *)
Lemma dec_digits_spec (fuel : nat) :
  forall (z : Z) (acc : string),
    (1 <= fuel)%nat ->
    0 <= z < 2 ^ Z.of_nat fuel ->
    exists ds : string,
      dec_digits fuel z acc = (ds ++ acc)%string /\
      all_digits ds = true /\
      Z_of_digits ds = z /\
      (1 <= String.length ds)%nat /\
      z < 10 ^ Z.of_nat (String.length ds) /\
      (1 <= z ->
       10 ^ (Z.of_nat (String.length ds) - 1) <= z /\
       exists (c : ascii) (tail : string),
         ds = String c tail /\ (N_of_ascii c =? 48)%N = false).
Proof.
  induction fuel as [|fuel IH]; intros z acc Hfuel Hz.
  - lia.
  - cbn [dec_digits].
    pose proof (Z.mod_pos_bound z 10 ltac:(lia)) as Hmod.
    destruct (digit_char_spec (z mod 10) Hmod) as [Hdig [Hval Hzero]].
    destruct (Z.ltb_spec z 10) as [Hlt|Hge].
    + exists (String (digit_char (z mod 10)) "").
      rewrite Z.mod_small in * by lia.
      split; [reflexivity|]. split.
      { unfold all_digits. cbn [list_ascii_of_string forallb]. now rewrite Hdig. }
      split.
      { rewrite Z_of_digits_from, digits_from_cons.
        unfold digits_from. cbn [list_ascii_of_string fold_left]. rewrite Hval. lia. }
      cbn [String.length].
      split; [lia|]. split; [change (10 ^ Z.of_nat 1) with 10; lia|].
      intros H1. split; [change (10 ^ (Z.of_nat 1 - 1)) with 1; lia|].
      eexists. eexists. split; [reflexivity|].
      rewrite Hzero. apply Z.eqb_neq. lia.
    + assert (Hdiv : 0 <= z / 10 < 2 ^ Z.of_nat fuel).
      { split; [apply Z.div_pos; lia|].
        apply Z.div_lt_upper_bound; [lia|].
        rewrite Nat2Z.inj_succ, Z.pow_succ_r in Hz by lia. lia. }
      assert (Hfuel' : (1 <= fuel)%nat).
      { destruct fuel; [|lia]. change (2 ^ Z.of_nat 0) with 1 in Hdiv.
        assert (1 <= z / 10) by (apply Z.div_le_lower_bound; lia). lia. }
      destruct (IH (z / 10) (String (digit_char (z mod 10)) acc) Hfuel' Hdiv)
        as [ds [E [Hall [Hv [Hlen [Hup Hlow]]]]]].
      exists (ds ++ String (digit_char (z mod 10)) "")%string.
      split.
      { rewrite E. rewrite append_assoc. reflexivity. }
      split.
      { rewrite all_digits_app, Hall. unfold all_digits.
        cbn [list_ascii_of_string forallb]. now rewrite Hdig. }
      split.
      { rewrite Z_of_digits_app, Hv. rewrite Z_of_digits_from, digits_from_cons.
        cbn [String.length digits_from list_ascii_of_string fold_left].
        rewrite Hval. change (10 ^ Z.of_nat 1) with 10.
        pose proof (Z.div_mod z 10 ltac:(lia)). lia. }
      rewrite length_append. cbn [String.length].
      split; [lia|].
      replace (Z.of_nat (String.length ds + 1)) with (Z.succ (Z.of_nat (String.length ds)))
        by lia.
      rewrite Z.pow_succ_r by lia.
      pose proof (Z.div_mod z 10 ltac:(lia)) as Hdm.
      split; [lia|].
      intros _. destruct (Hlow ltac:(lia)) as [Hlo [c [tail [Eds Hc]]]].
      split.
      { replace (Z.succ (Z.of_nat (String.length ds)) - 1)
          with (Z.succ (Z.of_nat (String.length ds) - 1)) by lia.
        rewrite Z.pow_succ_r by lia. lia. }
      exists c, (tail ++ String (digit_char (z mod 10)) "")%string.
      split; [now rewrite Eds | exact Hc].
Qed.

Lemma Z_to_dec_spec (z : Z) :
  0 <= z ->
  all_digits (Z_to_dec z) = true /\
  Z_of_digits (Z_to_dec z) = z /\
  (1 <= String.length (Z_to_dec z))%nat /\
  z < 10 ^ Z.of_nat (String.length (Z_to_dec z)) /\
  (1 <= z ->
   10 ^ (Z.of_nat (String.length (Z_to_dec z)) - 1) <= z /\
   exists (c : ascii) (tail : string),
     Z_to_dec z = String c tail /\ (N_of_ascii c =? 48)%N = false).
Proof.
  intros Hz. unfold Z_to_dec.
  destruct (dec_digits_spec (S (Z.to_nat (Z.log2 z))) z "") as [ds [E H]].
  - lia.
  - split; [lia|].
    rewrite Nat2Z.inj_succ, Z2Nat.id by apply Z.log2_nonneg.
    destruct (Z.eq_dec z 0) as [->|Hnz]; [reflexivity|].
    apply Z.log2_spec. lia.
  - rewrite E, append_nil_r. exact H.
Qed.

(** The length of the digits of [s] is the [k] with [10 ^ (k - 1) <= s < 10 ^ k]. *)
Lemma Z_to_dec_length (s k : Z) :
  1 <= k -> 10 ^ (k - 1) <= s < 10 ^ k ->
  Z.of_nat (String.length (Z_to_dec s)) = k.
Proof.
  intros Hk [Hlo Hhi].
  assert (Hs : 1 <= s).
  { assert (0 < 10 ^ (k - 1)) by (apply Z.pow_pos_nonneg; lia). lia. }
  destruct (Z_to_dec_spec s ltac:(lia)) as [_ [_ [Hlen [Hup Hlow]]]].
  destruct (Hlow Hs) as [Hlo' _].
  set (K := Z.of_nat (String.length (Z_to_dec s))) in *.
  assert (H1 : 10 ^ (k - 1) < 10 ^ K) by lia.
  assert (H2 : 10 ^ (K - 1) < 10 ^ k) by lia.
  apply Z.pow_lt_mono_r_iff in H1; [|lia|lia].
  apply Z.pow_lt_mono_r_iff in H2; [|lia|lia].
  lia.
Qed.

End Decimal.

(** ** Reading a decimal back *)

Lemma span_digits (a b : string) :
  all_digits a = true -> ends_digits b = true -> span is_digit (a ++ b) = (a, b).
Proof.
  unfold all_digits.
  induction a as [|c a IH]; cbn [list_ascii_of_string forallb append].
  - intros _ H. destruct b as [|c b]; [reflexivity|].
    cbn [ends_digits] in H. cbn [span]. apply negb_true_iff in H. now rewrite H.
  - intros H Hb. apply andb_true_iff in H. destruct H as [Hc Ha].
    cbn [span]. rewrite Hc, (IH Ha Hb). reflexivity.
Qed.

(** What a digit is not. *)
Lemma digit_not_punctuation (c : ascii) :
  is_digit c = true ->
  (N_of_ascii c =? 45)%N = false /\ (N_of_ascii c =? 46)%N = false /\
  (N_of_ascii c =? 101)%N = false /\ (N_of_ascii c =? 69)%N = false /\
  (N_of_ascii c =? 43)%N = false /\ is_number_char c = true.
Proof.
  destruct c as [[|] [|] [|] [|] [|] [|] [|] [|]];
    vm_compute; intros H; try discriminate H; repeat split.
Qed.

Lemma all_digits_number_chars (s : string) :
  all_digits s = true -> forallb is_number_char (list_ascii_of_string s) = true.
Proof.
  unfold all_digits. induction s as [|c s IH]; cbn [list_ascii_of_string forallb].
  - reflexivity.
  - intros H. apply andb_true_iff in H. destruct H as [Hc Hs].
    apply digit_not_punctuation in Hc. destruct Hc as [_ [_ [_ [_ [_ Hc]]]]].
    now rewrite Hc, IH.
Qed.

Lemma number_chars_app (a b : string) :
  forallb is_number_char (list_ascii_of_string (a ++ b))
  = forallb is_number_char (list_ascii_of_string a)
    && forallb is_number_char (list_ascii_of_string b).
Proof.
  induction a as [|c a IH]; cbn [append list_ascii_of_string forallb].
  - reflexivity.
  - now rewrite IH, andb_assoc.
Qed.

Lemma zeros_spec (j : nat) :
  all_digits (zeros j) = true /\ String.length (zeros j) = j /\
  forall acc : Z, digits_from acc (zeros j) = (acc * 10 ^ Z.of_nat j)%Z.
Proof.
  induction j as [|j [IH1 [IH2 IH3]]].
  - repeat split. intros acc. cbn. lia.
  - split; [exact IH1|]. split; [cbn [zeros String.length]; now rewrite IH2|].
    intros acc. cbn [zeros]. rewrite digits_from_cons, IH3.
    rewrite Nat2Z.inj_succ, Z.pow_succ_r by lia.
    change (digit_value "0") with 0%Z. ring.
Qed.

Lemma take_drop (n : nat) (s : string) : (take n s ++ drop n s)%string = s.
Proof.
  revert s. induction n as [|n IH]; intros [|c s]; cbn [take drop append];
    try reflexivity.
  now rewrite IH.
Qed.

Lemma take_length (n : nat) (s : string) :
  (n <= String.length s)%nat -> String.length (take n s) = n.
Proof.
  revert s. induction n as [|n IH]; intros [|c s]; cbn [take String.length];
    try lia.
  intros H. rewrite IH; lia.
Qed.

Lemma drop_length (n : nat) (s : string) :
  String.length (drop n s) = (String.length s - n)%nat.
Proof.
  revert s. induction n as [|n IH]; intros [|c s]; cbn [drop String.length];
    try lia.
  apply IH.
Qed.

Lemma all_digits_take_drop (n : nat) (s : string) :
  all_digits s = true -> all_digits (take n s) = true /\ all_digits (drop n s) = true.
Proof.
  intros H. rewrite <- (take_drop n s), all_digits_app in H.
  now apply andb_true_iff in H.
Qed.

(** The exponent part reads back. *)
Lemma parse_exponent_exponent_str (e : Z) :
  parse_exponent (String "e" (exponent_str e)) = Some e.
Proof.
  unfold exponent_str.
  destruct (Z_to_dec_spec (Z.abs e) ltac:(lia)) as [Hall [Hval [Hlen _]]].
  assert (Hspan : span is_digit (Z_to_dec (Z.abs e)) = (Z_to_dec (Z.abs e), "")).
  { rewrite <- (append_nil_r (Z_to_dec (Z.abs e))) at 1.
    now apply span_digits. }
  destruct (Z_to_dec (Z.abs e)) as [|c ds] eqn:E; [cbn in Hlen; lia|].
  destruct (Z.ltb_spec e 0) as [Hneg|Hpos].
  - cbn [parse_exponent append]. cbn -[span Z_of_digits].
    rewrite Hspan, Hval. f_equal. lia.
  - cbn [parse_exponent append]. cbn -[span Z_of_digits].
    rewrite Hspan, Hval. f_equal. lia.
Qed.

Lemma exponent_part_parse (ex : string) (e : Z) :
  exponent_part ex e ->
  parse_exponent ex = Some e /\ ends_digits ex = true /\
  match ex with
  | String c _ => (N_of_ascii c =? 46)%N = false
  | EmptyString => True
  end.
Proof.
  intros [[-> ->] | ->].
  - repeat split.
  - split; [apply parse_exponent_exponent_str|]. split; reflexivity.
Qed.

Lemma integer_part_ok (ip : string) :
  integer_part ip ->
  match ip with
  | EmptyString => false
  | String c EmptyString => true
  | String c (String _ _) => negb (N_of_ascii c =? 48)%N
  end = true.
Proof.
  intros [c [tail [-> [-> | H]]]]; [reflexivity|].
  destruct tail; [reflexivity | now rewrite H].
Qed.

Lemma all_digits_head (c : ascii) (s : string) :
  all_digits (String c s) = true -> is_digit c = true.
Proof.
  unfold all_digits. cbn [list_ascii_of_string forallb]. intros H.
  now apply andb_true_iff in H.
Qed.

Lemma parse_number_int (ip ex : string) (e : Z) :
  all_digits ip = true -> integer_part ip -> exponent_part ex e ->
  parse_number (ip ++ ex) = Some (decimal_to_number (Z_of_digits ip) e).
Proof.
  intros Hall Hint Hex.
  pose proof (integer_part_ok ip Hint) as Hok.
  destruct (exponent_part_parse ex e Hex) as [Hparse [Hends Hdot]].
  pose proof (span_digits ip ex Hall Hends) as Hspan.
  destruct Hint as [c [tail [-> _]]].
  pose proof (all_digits_head c tail Hall) as Hc.
  apply digit_not_punctuation in Hc. destruct Hc as [Hminus _].
  unfold parse_number. cbn [append]. rewrite Hminus.
  change (String c (tail ++ ex)) with (String c tail ++ ex)%string.
  rewrite Hspan. cbv beta iota zeta. rewrite Hok.
  assert (Hfrac : match ex with
                  | EmptyString => (@None string, ex)
                  | String c0 rest =>
                      if (N_of_ascii c0 =? 46)%N
                      then let '(f, r) := span is_digit rest in (Some f, r)
                      else (None, ex)
                  end = (None, ex)).
  { destruct ex as [|c0 rest]; [reflexivity | now rewrite Hdot]. }
  rewrite Hfrac. cbv beta iota zeta. cbn [andb].
  rewrite Hparse, append_nil_r. cbn [String.length].
  now rewrite Z.sub_0_r.
Qed.

Lemma parse_number_frac (ip fp ex : string) (e : Z) :
  all_digits ip = true -> integer_part ip ->
  all_digits fp = true -> fp <> "" ->
  exponent_part ex e ->
  parse_number (ip ++ "." ++ fp ++ ex)
  = Some (decimal_to_number (Z_of_digits (ip ++ fp))
                            (e - Z.of_nat (String.length fp))).
Proof.
  intros Hall Hint Hfp Hne Hex.
  pose proof (integer_part_ok ip Hint) as Hok.
  destruct (exponent_part_parse ex e Hex) as [Hparse [Hends _]].
  pose proof (span_digits ip ("." ++ fp ++ ex) Hall eq_refl) as Hspan.
  pose proof (span_digits fp ex Hfp Hends) as Hspan'.
  destruct Hint as [c [tail [-> _]]].
  pose proof (all_digits_head c tail Hall) as Hc.
  apply digit_not_punctuation in Hc. destruct Hc as [Hminus _].
  unfold parse_number. cbn [append]. rewrite Hminus.
  change (String c (tail ++ String "." (fp ++ ex)))
    with (String c tail ++ "." ++ fp ++ ex)%string.
  rewrite Hspan. cbv beta iota zeta. rewrite Hok.
  cbn [append]. change (N_of_ascii "." =? 46)%N with true. cbv beta iota.
  rewrite Hspan'. cbv beta iota zeta.
  destruct fp as [|f fp]; [congruence|].
  cbn [andb]. rewrite Hparse. reflexivity.
Qed.

Lemma exponent_str_number_chars (e : Z) :
  forallb is_number_char (list_ascii_of_string (String "e" (exponent_str e))) = true.
Proof.
  unfold exponent_str.
  destruct (Z_to_dec_spec (Z.abs e) ltac:(lia)) as [Hall _].
  apply all_digits_number_chars in Hall.
  change (String "e" ?s) with ("e" ++ s)%string.
  rewrite !number_chars_app, Hall. now destruct (e <? 0)%Z.
Qed.

Lemma exponent_part_number_chars (ex : string) (e : Z) :
  exponent_part ex e -> forallb is_number_char (list_ascii_of_string ex) = true.
Proof.
  intros [[-> _] | ->]; [reflexivity | apply exponent_str_number_chars].
Qed.

Section Layout.

Local Open Scope Z_scope.

Lemma decimal_to_number_scaled (s j : Z) :
  1 <= s -> 0 <= j -> decimal_to_number (s * 10 ^ j) 0 = decimal_to_number s j.
Proof.
  intros Hs Hj. unfold decimal_to_number.
  assert (Hp : 0 < 10 ^ j) by (apply Z.pow_pos_nonneg; lia).
  replace (s * 10 ^ j =? 0) with false by (symmetry; apply Z.eqb_neq; nia).
  replace (s =? 0) with false by (symmetry; apply Z.eqb_neq; lia).
  replace (0 <=? j) with true by (symmetry; apply Z.leb_le; lia).
  cbn [Z.leb Z.compare]. now rewrite Z.pow_0_r, Z.mul_1_r.
Qed.

(** The decimal laid out by [Number::toString] is a JSON number, and reads
    back as the number nearest to [s * 10 ^ (n - k)]. *)
Lemma parse_number_layout (s n k : Z) :
  1 <= k -> 10 ^ (k - 1) <= s < 10 ^ k ->
  parse_number (layout_digits s n k) = Some (decimal_to_number s (n - k)) /\
  forallb is_number_char (list_ascii_of_string (layout_digits s n k)) = true /\
  exists (c : ascii) (tail : string),
    layout_digits s n k = String c tail /\ is_digit c = true.
Proof.
  intros Hk Hs.
  assert (Hs1 : 1 <= s).
  { assert (0 < 10 ^ (k - 1)) by (apply Z.pow_pos_nonneg; lia). lia. }
  destruct (Z_to_dec_spec s ltac:(lia)) as [Hall [Hval [_ [_ Hlow]]]].
  destruct (Hlow Hs1) as [_ [c [tail [Eds Hc]]]].
  pose proof (Z_to_dec_length s k Hk Hs) as Hlen.
  pose proof (all_digits_head c tail ltac:(now rewrite <- Eds)) as Hcdig.
  assert (Hint : integer_part (Z_to_dec s)).
  { exists c, tail. split; [exact Eds | now right]. }
  unfold layout_digits.
  destruct ((k <=? n) && (n <=? 21)) eqn:HA.
  { (* digits and zeros *)
    apply andb_true_iff in HA. destruct HA as [HA _]. apply Z.leb_le in HA.
    destruct (zeros_spec (Z.to_nat (n - k))) as [Hz [Hzlen Hzval]].
    assert (Hall' : all_digits (Z_to_dec s ++ zeros (Z.to_nat (n - k))) = true)
      by now rewrite all_digits_app, Hall, Hz.
    split; [|split].
    - rewrite <- (append_nil_r (_ ++ zeros _)).
      rewrite parse_number_int with (e := 0).
      + rewrite Z_of_digits_app, Hval, Hzlen.
        rewrite (Z_of_digits_from (zeros _)), Hzval, Z2Nat.id by lia.
        rewrite Z.mul_0_l, Z.add_0_r. f_equal.
        now apply decimal_to_number_scaled; lia.
      + exact Hall'.
      + exists c, (tail ++ zeros (Z.to_nat (n - k)))%string.
        split; [now rewrite Eds | now right].
      + now left.
    - now apply all_digits_number_chars.
    - rewrite Eds. now exists c, (tail ++ zeros (Z.to_nat (n - k)))%string. }
  assert (Hlen' : String.length (Z_to_dec s) = Z.to_nat k) by lia.
  destruct ((0 <? n) && (n <=? 21)) eqn:HB.
  { (* digits, a point, digits *)
    apply andb_true_iff in HB. destruct HB as [HB HB']. apply Z.ltb_lt in HB.
    assert (Hnk : n < k).
    { rewrite HB', andb_true_r in HA. now apply Z.leb_gt in HA. }
    destruct (all_digits_take_drop (Z.to_nat n) (Z_to_dec s) Hall) as [Ht Hd].
    pose proof (drop_length (Z.to_nat n) (Z_to_dec s)) as Hdl.
    assert (Etake : take (Z.to_nat n) (Z_to_dec s)
                    = String c (take (Z.to_nat n - 1) tail)).
    { rewrite Eds. destruct (Z.to_nat n) as [|n'] eqn:En; [lia|].
      cbn [take]. now rewrite Nat.sub_succ, Nat.sub_0_r. }
    split; [|split].
    - rewrite <- (append_nil_r (drop _ _)).
      rewrite parse_number_frac with (e := 0).
      + rewrite take_drop, Hval. do 2 f_equal. lia.
      + exact Ht.
      + rewrite Etake. exists c, (take (Z.to_nat n - 1) tail).
        split; [reflexivity | now right].
      + exact Hd.
      + intros E. rewrite E in Hdl. cbn [String.length] in Hdl. lia.
      + now left.
    - rewrite !number_chars_app.
      rewrite (all_digits_number_chars _ Ht), (all_digits_number_chars _ Hd).
      reflexivity.
    - rewrite Etake.
      exists c, (take (Z.to_nat n - 1) tail ++ "." ++ drop (Z.to_nat n) (Z_to_dec s))%string.
      split; [reflexivity | exact Hcdig]. }
  destruct ((-6 <? n) && (n <=? 0)) eqn:HC.
  { (* a zero, a point, zeros, digits *)
    apply andb_true_iff in HC. destruct HC as [_ HC]. apply Z.leb_le in HC.
    destruct (zeros_spec (Z.to_nat (- n))) as [Hz [Hzlen Hzval]].
    assert (Hfp : all_digits (zeros (Z.to_nat (- n)) ++ Z_to_dec s) = true)
      by now rewrite all_digits_app, Hz, Hall.
    split; [|split].
    - change ("0." ++ zeros (Z.to_nat (- n)) ++ Z_to_dec s)%string
        with ("0" ++ "." ++ (zeros (Z.to_nat (- n)) ++ Z_to_dec s))%string.
      rewrite <- (append_nil_r (zeros _ ++ Z_to_dec s)).
      rewrite parse_number_frac with (e := 0).
      + rewrite length_append, Hzlen, Hlen'.
        rewrite !Z_of_digits_from.
        change (digits_from 0 ("0" ++ zeros (Z.to_nat (- n)) ++ Z_to_dec s))
          with (digits_from 0 (zeros (Z.to_nat (- n)) ++ Z_to_dec s)).
        rewrite digits_from_app, Hzval, Z.mul_0_l, <- Z_of_digits_from, Hval.
        do 2 f_equal. lia.
      + reflexivity.
      + exists "0"%char, ""%string. split; [reflexivity | now left].
      + exact Hfp.
      + rewrite Eds. now destruct (zeros (Z.to_nat (- n))).
      + now left.
    - change ("0." ++ zeros (Z.to_nat (- n)) ++ Z_to_dec s)%string
        with ("0." ++ (zeros (Z.to_nat (- n)) ++ Z_to_dec s))%string.
      rewrite number_chars_app, (all_digits_number_chars _ Hfp). reflexivity.
    - now exists "0"%char, ("." ++ zeros (Z.to_nat (- n)) ++ Z_to_dec s)%string. }
  destruct (k =? 1) eqn:HD.
  { (* one digit and an exponent *)
    apply Z.eqb_eq in HD.
    split; [|split].
    - change (Z_to_dec s ++ "e" ++ exponent_str (n - 1))%string
        with (Z_to_dec s ++ String "e" (exponent_str (n - 1)))%string.
      rewrite parse_number_int with (e := n - 1).
      + rewrite Hval. do 2 f_equal. lia.
      + exact Hall.
      + exact Hint.
      + now right.
    - change (Z_to_dec s ++ "e" ++ exponent_str (n - 1))%string
        with (Z_to_dec s ++ String "e" (exponent_str (n - 1)))%string.
      rewrite number_chars_app, (all_digits_number_chars _ Hall).
      apply exponent_str_number_chars.
    - rewrite Eds. now exists c, (tail ++ "e" ++ exponent_str (n - 1))%string. }
  (* a digit, a point, digits and an exponent *)
  apply Z.eqb_neq in HD.
  destruct (all_digits_take_drop 1 (Z_to_dec s) Hall) as [Ht Hd].
  pose proof (drop_length 1 (Z_to_dec s)) as Hdl.
  assert (Etake : take 1 (Z_to_dec s) = String c "").
  { rewrite Eds. cbn [take]. now destruct tail. }
  change (take 1 (Z_to_dec s) ++ "." ++ drop 1 (Z_to_dec s) ++ "e" ++ exponent_str (n - 1))%string
    with (take 1 (Z_to_dec s) ++ "." ++ drop 1 (Z_to_dec s) ++ String "e" (exponent_str (n - 1)))%string.
  split; [|split].
  - rewrite parse_number_frac with (e := n - 1).
    + rewrite take_drop, Hval. do 2 f_equal. lia.
    + exact Ht.
    + rewrite Etake. exists c, ""%string. split; [reflexivity | now left].
    + exact Hd.
    + intros E. rewrite E in Hdl. cbn [String.length] in Hdl. lia.
    + now right.
  - rewrite !number_chars_app.
    rewrite (all_digits_number_chars _ Ht), (all_digits_number_chars _ Hd).
    cbn [andb]. change (list_ascii_of_string ".") with ["."%char].
    cbn [forallb]. rewrite exponent_str_number_chars. reflexivity.
  - rewrite Etake. now exists c, ("." ++ drop 1 (Z_to_dec s) ++ String "e" (exponent_str (n - 1)))%string.
Qed.

End Layout.

(** ** A number's own binary expansion rounds to the number *)

Section Exact.

Local Open Scope Z_scope.

Lemma bounded_spec (m : positive) (e : Z) :
  bounded prec emax m e = true ->
  Z.max (Zdigits2 (Zpos m) + e - 53) (-1074) = e /\ e <= 971.
Proof.
  unfold bounded, canonical_mantissa. intros H.
  apply andb_true_iff in H. destruct H as [Hc He].
  apply Z.eqb_eq in Hc. apply Z.leb_le in He.
  rewrite fexp_eq in Hc. split; [exact Hc | unfold emax, prec in He; lia].
Qed.

Lemma shr_iter_exact (n : nat) (m : positive) :
  Nat.iter n shr_1 (Build_shr_record (Zpos m * 2 ^ Z.of_nat n) false false)
  = Build_shr_record (Zpos m) false false.
Proof.
  revert m. induction n as [|n IH]; intros m.
  - cbn [Nat.iter]. change (2 ^ Z.of_nat 0) with 1. now rewrite Z.mul_1_r.
  - rewrite Nat.iter_succ.
    replace (Zpos m * 2 ^ Z.of_nat (S n)) with (Zpos (xO m) * 2 ^ Z.of_nat n).
    + rewrite IH. reflexivity.
    + rewrite Nat2Z.inj_succ, Z.pow_succ_r by lia.
      rewrite (Pos2Z.inj_xO m). ring.
Qed.

Lemma Zdigits2_shift (m : positive) (j : Z) :
  0 <= j -> Zdigits2 (Zpos m * 2 ^ j) = Zdigits2 (Zpos m) + j.
Proof.
  intros Hj.
  pose proof (Zdigits2_bounds (Zpos m) ltac:(lia)) as Hd.
  assert (Hd1 : 1 <= Zdigits2 (Zpos m)) by (cbn [Zdigits2]; lia).
  assert (Hp : 0 < 2 ^ j) by (apply pow2_pos; lia).
  apply Zdigits2_unique; [lia|].
  replace (Zdigits2 (Zpos m) + j - 1) with ((Zdigits2 (Zpos m) - 1) + j) by lia.
  rewrite !pow2_split by lia. split; nia.
Qed.

(** A number's own mantissa, with [j] more binary zeros, rounds to the
    number. *)
Lemma binary_round_aux_shifted (s : bool) (m : positive) (e j : Z) :
  bounded prec emax m e = true -> 0 <= j ->
  binary_round_aux prec emax s (Zpos m * 2 ^ j) (e - j) loc_Exact
  = S754_finite s m e.
Proof.
  intros Hb Hj. destruct (bounded_spec m e Hb) as [Hc He].
  assert (H1 : shr_fexp prec emax (Zpos m * 2 ^ j) (e - j) loc_Exact
               = (Build_shr_record (Zpos m) false false, e)).
  { unfold shr_fexp. rewrite Zdigits2_shift, fexp_eq by lia.
    replace (Zdigits2 (Zpos m) + j + (e - j) - 53)
      with (Zdigits2 (Zpos m) + e - 53) by lia.
    rewrite Hc. replace (e - (e - j)) with j by lia.
    unfold shr. destruct j as [|p|p]; try lia.
    - change (2 ^ 0) with 1. rewrite Z.mul_1_r, Z.sub_0_r. reflexivity.
    - rewrite iter_pos_nat.
      replace (Zpos m * 2 ^ Zpos p)
        with (Zpos m * 2 ^ Z.of_nat (Pos.to_nat p)) by (f_equal; f_equal; lia).
      change (shr_record_of_loc ?z loc_Exact) with (Build_shr_record z false false).
      rewrite shr_iter_exact. f_equal. lia. }
  assert (H2 : shr_fexp prec emax (Zpos m) e loc_Exact
               = (Build_shr_record (Zpos m) false false, e)).
  { unfold shr_fexp. rewrite fexp_eq, Hc, Z.sub_diag. reflexivity. }
  unfold binary_round_aux. rewrite H1.
  cbn [shr_m loc_of_shr_record round_nearest_even].
  rewrite H2. cbn [shr_m].
  replace (e <=? emax - prec) with true
    by (symmetry; apply Z.leb_le; unfold emax, prec; lia).
  reflexivity.
Qed.

Lemma Number_of_Z_exact (m : positive) (e : Z) :
  bounded prec emax m e = true -> 0 <= e ->
  Number_of_Z (Zpos m * 2 ^ e) = S754_finite false m e.
Proof.
  intros Hb He. destruct (bounded_spec m e Hb) as [Hc _].
  pose proof (Zdigits2_shift m e He) as Hd.
  assert (Hp : 0 < 2 ^ e) by (apply pow2_pos; lia).
  destruct (Zpos m * 2 ^ e) as [|q|q] eqn:Eq; try lia.
  unfold Number_of_Z, binary_normalize, binary_round.
  cbn [Zdigits2] in Hd. rewrite Hd, Z.add_0_r, fexp_eq.
  cbn [Zdigits2] in Hc. rewrite Hc.
  unfold shl_align. rewrite Z.sub_0_r.
  assert (Hr : binary_round_aux prec emax false (Zpos q) 0 loc_Exact
               = S754_finite false m e).
  { rewrite <- Eq. replace 0 with (e - e) at 1 by lia.
    now apply binary_round_aux_shifted. }
  destruct e as [|p|p]; try lia; exact Hr.
Qed.

Lemma new_location_zero (n : Z) : new_location n 0 = loc_Exact.
Proof.
  unfold new_location, new_location_even, new_location_odd.
  now destruct (Z.even n).
Qed.

Lemma round_ratio_exact (m : positive) (e : Z) :
  bounded prec emax m e = true -> e < 0 ->
  round_ratio (Zpos m * 5 ^ (- e)) (10 ^ (- e)) = S754_finite false m e.
Proof.
  intros Hb He. destruct (bounded_spec m e Hb) as [Hc _].
  set (p := - e). assert (Hp : 0 < p) by (unfold p; lia).
  assert (H5 : 0 < 5 ^ p) by (apply Z.pow_pos_nonneg; lia).
  assert (H2 : 0 < 2 ^ p) by (apply pow2_pos; lia).
  assert (H10 : 10 ^ p = 5 ^ p * 2 ^ p).
  { change 10 with (5 * 2). apply Z.pow_mul_l. }
  pose proof (Zdigits2_bounds (Zpos m) ltac:(lia)) as Hdm.
  pose proof (Zdigits2_bounds (Zpos m * 5 ^ p) ltac:(nia)) as Hd1.
  pose proof (Zdigits2_bounds (10 ^ p) ltac:(nia)) as Hd2.
  set (dm := Zdigits2 (Zpos m)) in *.
  set (d1 := Zdigits2 (Zpos m * 5 ^ p)) in *.
  set (d2 := Zdigits2 (10 ^ p)) in *.
  assert (Hdm1 : 1 <= dm) by (unfold dm; cbn [Zdigits2]; lia).
  assert (Hd11 : 1 <= d1).
  { unfold d1. destruct (Zpos m * 5 ^ p) eqn:E; try nia. cbn [Zdigits2]. lia. }
  assert (Hd2p : p < d2).
  { apply (Z.pow_lt_mono_r_iff 2); [lia | |].
    - destruct (Z.le_gt_cases 0 d2) as [H | H]; [exact H|].
      rewrite (Z.pow_neg_r 2 d2) in Hd2 by lia. lia.
    - nia. }
  assert (H52 : 5 ^ p < 2 ^ (d2 - p)).
  { assert (E : 2 ^ d2 = 2 ^ (d2 - p) * 2 ^ p).
    { rewrite <- pow2_split by lia. f_equal. lia. }
    nia. }
  assert (Hgap : d1 - d2 <= dm - p).
  { assert (H : 2 ^ (d1 - 1) < 2 ^ (dm + (d2 - p))).
    { rewrite (pow2_split dm (d2 - p)) by lia.
      assert (0 < 2 ^ dm) by (apply pow2_pos; lia).
      assert (0 < 2 ^ (d2 - p)) by (apply pow2_pos; lia).
      nia. }
    apply Z.pow_lt_mono_r_iff in H; lia. }
  set (F := Z.max (d1 - d2 - 53) (-1074)).
  assert (HF : F <= e) by (unfold F, p in *; lia).
  unfold round_ratio, SFdiv_core_binary.
  fold d1 d2. rewrite !Z.add_0_r, fexp_eq. fold F.
  rewrite (Z.min_l F (0 - 0)) by lia.
  replace (0 - 0 - F) with (- F) by lia.
  assert (Hsh : match - F with
                | Z0 => Zpos m * 5 ^ p
                | Zpos _ => Z.shiftl (Zpos m * 5 ^ p) (- F)
                | Zneg _ => 0
                end = (Zpos m * 2 ^ (e - F)) * 10 ^ p).
  { destruct (- F) as [|f|f] eqn:EF; try lia.
    rewrite Z.shiftl_mul_pow2 by lia. rewrite H10.
    replace (Zpos f) with ((e - F) + p) by (unfold p; lia).
    rewrite pow2_split by lia. ring. }
  rewrite Hsh.
  assert (Hdiv : Z.div_eucl (Zpos m * 2 ^ (e - F) * 10 ^ p) (10 ^ p)
                 = (Zpos m * 2 ^ (e - F), 0)).
  { pose proof (Z_div_mod (Zpos m * 2 ^ (e - F) * 10 ^ p) (10 ^ p) ltac:(nia)) as H.
    destruct (Z.div_eucl _ _) as [q r]. destruct H as [Hq Hr].
    assert (q = Zpos m * 2 ^ (e - F)) by nia.
    f_equal; nia. }
  rewrite Hdiv, new_location_zero.
  replace F with (e - (e - F)) at 2 by lia.
  apply binary_round_aux_shifted; [exact Hb | lia].
Qed.

End Exact.

(** ** The shortest decimal form reads back *)

Section Shortest.

Local Open Scope Z_scope.

Lemma candidate_denotes (x : number) (d n k : Z) :
  1 <= k ->
  ((10 ^ (k - 1) <=? d) && (d <? 10 ^ k)) && number_eqb (decimal_to_number d (n - k)) x
  = true ->
  denotes x (d, n, k).
Proof.
  intros Hk H. apply andb_true_iff in H. destruct H as [Hr He].
  apply andb_true_iff in Hr. destruct Hr as [Hlo Hhi].
  apply Z.leb_le in Hlo. apply Z.ltb_lt in Hhi. apply number_eqb_eq in He.
  split; [exact Hk|]. split; [split; [exact Hlo | exact Hhi] | exact He].
Qed.

Lemma shortest_digits_denotes (fuel : nat) (x : number) (num den n : Z)
  (exact : Z * Z * Z) :
  denotes x exact ->
  forall k : Z, 1 <= k -> denotes x (shortest_digits fuel x num den n k exact).
Proof.
  intros Hex. induction fuel as [|fuel IH]; intros k Hk.
  - cbn [shortest_digits]. destruct (scale10 num den (k - n)) as [a b]. exact Hex.
  - cbn [shortest_digits]. destruct (scale10 num den (k - n)) as [a b].
    cbv zeta.
    set (lo := a / b).
    set (hi := if lo + 1 =? 10 ^ k then (10 ^ (k - 1), n + 1) else (lo + 1, n)).
    pose proof (candidate_denotes x lo n k Hk) as Hlo.
    pose proof (candidate_denotes x (fst hi) (snd hi) k Hk) as Hhi.
    destruct ((10 ^ (k - 1) <=? lo) && (lo <? 10 ^ k)
              && number_eqb (decimal_to_number lo (n - k)) x);
      destruct ((10 ^ (k - 1) <=? fst hi) && (fst hi <? 10 ^ k)
                && number_eqb (decimal_to_number (fst hi) (snd hi - k)) x);
      cbn [andb].
    + match goal with |- denotes x (if ?c then _ else _) => destruct c end.
      * exact (Hhi eq_refl).
      * exact (Hlo eq_refl).
    + exact (Hlo eq_refl).
    + exact (Hhi eq_refl).
    + apply IH. lia.
Qed.

Lemma exact_digits_denotes (m : positive) (e : Z) :
  bounded prec emax m e = true ->
  denotes (S754_finite false m e) (exact_digits m e).
Proof.
  intros Hb. unfold exact_digits.
  set (s := if 0 <=? e then Zpos m * 2 ^ e else Zpos m * 5 ^ (- e)).
  assert (Hs : 1 <= s).
  { unfold s. destruct (0 <=? e) eqn:He.
    - apply Z.leb_le in He.
      assert (0 < 2 ^ e) by (apply Z.pow_pos_nonneg; lia). nia.
    - apply Z.leb_gt in He.
      assert (0 < 5 ^ (- e)) by (apply Z.pow_pos_nonneg; lia). nia. }
  destruct (Z_to_dec_spec s ltac:(lia)) as [_ [_ [Hlen [Hhi Hlow]]]].
  destruct (Hlow Hs) as [Hlo _].
  cbv zeta. set (k := Z.of_nat (String.length (Z_to_dec s))) in *.
  split; [lia|]. split; [split; [exact Hlo | exact Hhi]|].
  unfold decimal_to_number.
  replace (s =? 0) with false by (symmetry; apply Z.eqb_neq; lia).
  unfold s. destruct (0 <=? e) eqn:He.
  - apply Z.leb_le in He.
    replace (0 + k - k) with 0 by lia. cbn [Z.leb Z.compare].
    rewrite Z.pow_0_r, Z.mul_1_r. apply Number_of_Z_exact; [exact Hb | exact He].
  - apply Z.leb_gt in He.
    replace (e + k - k) with e by lia.
    replace (0 <=? e) with false by (symmetry; apply Z.leb_gt; lia).
    apply round_ratio_exact; [exact Hb | exact He].
Qed.

End Shortest.

Lemma digit_not_minus (c : ascii) :
  is_digit c = true -> (N_of_ascii c =? 45)%N = false.
Proof.
  unfold is_digit. intros H. apply andb_true_iff in H. destruct H as [H _].
  apply N.leb_le in H. apply N.eqb_neq. lia.
Qed.

Lemma digit_is_number_char (c : ascii) :
  is_digit c = true -> is_number_char c = true.
Proof. unfold is_number_char. now intros ->. Qed.

(** A minus sign before a token that starts with a digit negates what the
    token reads as. *)
Lemma parse_number_minus (c : ascii) (tail : string) (y : number) :
  is_digit c = true ->
  parse_number (String c tail) = Some y ->
  parse_number (String "-" (String c tail)) = Some (SFopp y).
Proof.
  intros Hc. unfold parse_number.
  change (N_of_ascii "-" =? 45)%N with true.
  rewrite (digit_not_minus c Hc). cbv iota beta.
  destruct (span is_digit (String c tail)) as [ip s2].
  match goal with
  | |- context [match s2 with
                | String c0 rest => @?f c0 rest
                | EmptyString => ?g
                end] =>
      destruct (match s2 with String c0 rest => f c0 rest | EmptyString => g end)
        as [fp s3]
  end.
  match goal with |- context [if ?b then _ else None] => destruct b end;
    [|discriminate].
  destruct (parse_exponent s3) as [e|]; [|discriminate].
  intros H. injection H as <-. reflexivity.
Qed.

(** Every finite number other than [-0] is printed as a JSON number that
    reads back as the same number. *)
Lemma json_number_ok_spec (x : number) :
  json_number_ok x = true ->
  is_finite x = true /\
  exists (c : ascii) (tok : string),
    Number_toString x = String c tok /\
    is_number_char c = true /\
    forallb is_number_char (list_ascii_of_string (String c tok)) = true /\
    parse_number (String c tok) = Some x.
Proof.
  destruct x as [s|s| |s m e]; cbn [json_number_ok]; try discriminate.
  - intros Hs. destruct s; [discriminate|].
    split; [reflexivity|]. exists "0"%char, ""%string.
    split; [reflexivity|]. split; [reflexivity|]. split; reflexivity.
  - intros Hb. split; [reflexivity|].
    cbn [Number_toString]. cbv zeta.
    pose proof (shortest_digits_denotes 20 (S754_finite false m e)
                  (if (0 <=? e)%Z then (Zpos m * 2 ^ e)%Z else Zpos m)
                  (if (0 <=? e)%Z then 1%Z else (2 ^ (- e))%Z)
                  (magnitude10 (if (0 <=? e)%Z then (Zpos m * 2 ^ e)%Z else Zpos m)
                               (if (0 <=? e)%Z then 1%Z else (2 ^ (- e))%Z))
                  (exact_digits m e) (exact_digits_denotes m e Hb) 1%Z ltac:(lia))
      as Hden.
    destruct (shortest_digits _ _ _ _ _ _ _) as [[d n] k].
    destruct Hden as [Hk [Hd Hx]].
    destruct (parse_number_layout d n k Hk Hd) as [Hparse [Hchars [c [tail [El Hc]]]]].
    rewrite Hx in Hparse. rewrite El in Hparse, Hchars. rewrite El.
    destruct s.
    + exists "-"%char, (String c tail).
      split; [reflexivity|]. split; [reflexivity|].
      split.
      * change (list_ascii_of_string (String "-" (String c tail)))
          with ("-"%char :: list_ascii_of_string (String c tail)).
        cbn [forallb]. rewrite Hchars. reflexivity.
      * exact (parse_number_minus c tail _ Hc Hparse).
    + exists c, tail.
      split; [reflexivity|]. split; [exact (digit_is_number_char c Hc)|].
      split; [exact Hchars | exact Hparse].
Qed.

Lemma elem_str_number (indent : string) (x : number) :
  is_finite x = true -> elem_str indent (JsNumber x) = Number_toString x.
Proof. intros H. unfold elem_str. cbn [SerializeJSONProperty]. now rewrite H. Qed.

Lemma starts_a_value_safe (indent : string) (v : JsValue) :
  json_safe v = true -> starts_a_value (elem_str indent v).
Proof.
  unfold starts_a_value. destruct v as [| |b|x|s|items|props]; cbn [json_safe]; intros H.
  - discriminate.
  - now exists "n"%char, "ull".
  - destruct b; [now exists "t"%char, "rue" | now exists "f"%char, "alse"].
  - apply json_number_ok_spec in H.
    destruct H as [Hfin [c [tok [E [Hc _]]]]].
    rewrite elem_str_number, E by exact Hfin.
    exists c, tok. apply number_char_start in Hc. tauto.
  - eexists. eexists. split; [reflexivity|]. split; reflexivity.
  - unfold elem_str. rewrite Serialize_array.
    destruct (map _ items); eexists; eexists; (split; [reflexivity|]); split; reflexivity.
  - unfold elem_str. apply andb_true_iff in H. destruct H as [H _].
    rewrite Serialize_object by exact H.
    destruct (map _ props); eexists; eexists; (split; [reflexivity|]); split; reflexivity.
Qed.

(** Induction on values, with the hypothesis for every element of an array
    and every property value of an object. *)
Fixpoint JsValue_nested_ind (P : JsValue -> Prop)
  (Hundefined : P JsUndefined) (Hnull : P JsNull)
  (Hbool : forall b, P (JsBool b)) (Hnumber : forall x, P (JsNumber x))
  (Hstring : forall s, P (JsString s))
  (Harray : forall items, Forall P items -> P (JsArray items))
  (Hobject : forall props, Forall (fun kv => P (snd kv)) props -> P (JsObject props))
  (v : JsValue) {struct v} : P v :=
  match v with
  | JsUndefined => Hundefined
  | JsNull => Hnull
  | JsBool b => Hbool b
  | JsNumber x => Hnumber x
  | JsString s => Hstring s
  | JsArray items =>
      Harray items
        ((fix all (l : list JsValue) : Forall P l :=
            match l with
            | [] => Forall_nil P
            | x :: rest =>
                Forall_cons x
                  (JsValue_nested_ind P Hundefined Hnull Hbool Hnumber Hstring
                     Harray Hobject x)
                  (all rest)
            end) items)
  | JsObject props =>
      Hobject props
        ((fix all (l : list (string * JsValue)) : Forall (fun kv => P (snd kv)) l :=
            match l with
            | [] => Forall_nil _
            | kv :: rest =>
                Forall_cons kv
                  (JsValue_nested_ind P Hundefined Hnull Hbool Hnumber Hstring
                     Harray Hobject (snd kv))
                  (all rest)
            end) props)
  end.

Lemma distinct_NoDup (keys : list string) : distinct keys = true -> NoDup keys.
Proof.
  induction keys as [|k keys IH]; cbn [distinct]; intros H; constructor.
  - apply andb_true_iff in H. destruct H as [H _]. apply negb_true_iff in H.
    intros Hin. assert (E : existsb (String.eqb k) keys = true).
    { apply existsb_exists. exists k. split; [exact Hin | apply String.eqb_refl]. }
    congruence.
  - apply IH. apply andb_true_iff in H. tauto.
Qed.

(** Every safe value reads back. *)
Theorem json_safe_reads_back (v : JsValue) : json_safe v = true -> reads_back v.
Proof.
  induction v as [| |b|x|s|items IH|props IH] using JsValue_nested_ind;
    intros Hsafe indent rest fuel Hindent Hrest Hfuel;
    (destruct fuel as [|fuel]; [cbn [fuel_for] in Hfuel; lia|]).
  - discriminate.
  - reflexivity.
  - destruct b; reflexivity.
  - cbn [json_safe] in Hsafe. apply json_number_ok_spec in Hsafe.
    destruct Hsafe as [Hfin [c [tok [E [Hc [Hchars Hparse]]]]]].
    rewrite elem_str_number, E by exact Hfin.
    apply number_char_start in Hc.
    destruct Hc as [Hws [H1 [H2 [_ [H3 [Ht [Hf Hn]]]]]]].
    cbn [parse_value append]. rewrite skip_ws_start by exact Hws. cbv beta iota.
    rewrite H1, H2, H3. cbn [starts_with]. rewrite Ht, Hf, Hn. cbn [andb].
    change (String c (tok ++ rest)) with (String c tok ++ rest)%string.
    rewrite (span_number_token _ _ Hchars Hrest), Hparse. reflexivity.
  - destruct (parse_string_body_QuoteJSONString s rest) as [tail [E Htail]].
    unfold elem_str. cbn [SerializeJSONProperty]. rewrite E.
    cbn [parse_value]. rewrite skip_ws_start by reflexivity. cbv beta iota.
    change (Ascii.eqb DQUOTE "{") with false.
    change (Ascii.eqb DQUOTE "[") with false.
    rewrite Ascii.eqb_refl, Htail. reflexivity.
  - cbn [json_safe] in Hsafe. cbn [fuel_for] in Hfuel.
    assert (Hall : Forall reads_back items).
    { rewrite forallb_forall in Hsafe. rewrite Forall_forall in IH |- *.
      intros x Hx. apply IH; [exact Hx | now apply Hsafe]. }
    unfold elem_str. rewrite Serialize_array.
    destruct items as [|x items]; [reflexivity|].
    set (ind := (indent ++ gap)%string).
    assert (Hind : all_ws ind = true) by (apply all_ws_app; [exact Hindent | reflexivity]).
    destruct (starts_a_value_safe ind x) as [c [tail [E [Hc Hclose]]]].
    { rewrite forallb_forall in Hsafe. apply Hsafe. now left. }
    change (map (elem_str ind) (x :: items)) with (elem_str ind x :: map (elem_str ind) items).
    cbv beta iota.
    change (elem_str ind x :: map (elem_str ind) items)
      with (map (elem_str ind) (x :: items)).
    rewrite !append_assoc.
    change ("[" ++ ?s)%string with (String "[" s).
    change ("]" ++ rest)%string with (String "]" rest).
    rewrite <- (append_assoc LF ind).
    remember ((LF ++ ind) ++ join ("," ++ LF ++ ind) (map (elem_str ind) (x :: items))
              ++ LF ++ indent ++ String "]" rest)%string as body eqn:Ebody.
    assert (Hskip : exists tail', skip_ws body = String c tail').
    { rewrite Ebody, skip_ws_all_ws by now apply all_ws_LF_indent.
      destruct items as [|y items].
      - cbn [map join]. rewrite E. cbn [append]. rewrite skip_ws_start by exact Hc.
        now eexists.
      - rewrite join_map_cons, E. cbn [append].
        rewrite skip_ws_start by exact Hc. now eexists. }
    destruct Hskip as [tail' Hskip].
    cbn [parse_value]. rewrite skip_ws_start by reflexivity. cbv beta iota.
    change (Ascii.eqb "[" "{") with false. rewrite Ascii.eqb_refl.
    cbv beta iota. rewrite Hskip, Hclose. subst body.
    apply (parse_elements_loop ind indent (x :: items) Hind Hindent Hall
             ltac:(discriminate) [] fuel (LF ++ ind)%string rest).
    + now apply all_ws_LF_indent.
    + lia.
  - cbn [json_safe] in Hsafe. cbn [fuel_for] in Hfuel.
    apply andb_true_iff in Hsafe. destruct Hsafe as [Hsafe Hkeys].
    assert (Hall : Forall (fun kv => reads_back (snd kv)) props).
    { rewrite forallb_forall in Hsafe. rewrite Forall_forall in IH |- *.
      intros kv Hkv. apply IH; [exact Hkv | now apply Hsafe]. }
    unfold elem_str. rewrite Serialize_object by exact Hsafe.
    destruct props as [|[k x] props]; [reflexivity|].
    set (ind := (indent ++ gap)%string).
    assert (Hind : all_ws ind = true) by (apply all_ws_app; [exact Hindent | reflexivity]).
    change (map (member_str ind) ((k, x) :: props))
      with (member_str ind (k, x) :: map (member_str ind) props).
    cbv beta iota.
    change (member_str ind (k, x) :: map (member_str ind) props)
      with (map (member_str ind) ((k, x) :: props)).
    rewrite !append_assoc.
    change ("{" ++ ?s)%string with (String "{" s).
    change ("}" ++ rest)%string with (String "}" rest).
    rewrite <- (append_assoc LF ind).
    remember ((LF ++ ind) ++ join ("," ++ LF ++ ind) (map (member_str ind) ((k, x) :: props))
              ++ LF ++ indent ++ String "}" rest)%string as body eqn:Ebody.
    assert (Hskip : exists tail', skip_ws body = String DQUOTE tail').
    { rewrite Ebody, skip_ws_all_ws by now apply all_ws_LF_indent.
      assert (E : exists t, member_str ind (k, x) = String DQUOTE t) by (now eexists).
      destruct E as [t E].
      destruct props as [|kv props].
      - cbn [map join]. rewrite E. cbn [append].
        rewrite skip_ws_start by reflexivity. now eexists.
      - rewrite join_map_cons, E. cbn [append].
        rewrite skip_ws_start by reflexivity. now eexists. }
    destruct Hskip as [tail' Hskip].
    cbn [parse_value]. rewrite skip_ws_start by reflexivity. cbv beta iota.
    rewrite Ascii.eqb_refl.
    cbv beta iota. rewrite Hskip.
    change (Ascii.eqb DQUOTE "}") with false. cbv beta iota. subst body.
    apply (parse_members_loop ind indent ((k, x) :: props) Hind Hindent Hall
             ltac:(discriminate) [] fuel (LF ++ ind)%string rest).
    + now apply all_ws_LF_indent.
    + lia.
    + apply andb_true_iff in Hkeys. now apply distinct_NoDup.
    + apply andb_true_iff in Hkeys. now destruct Hkeys.
Qed.

(** ** The fuel of [JSON.parse] suffices *)

Lemma join_length (sep : string) (l : list string) :
  (1 <= String.length sep)%nat ->
  (list_sum (map (fun s => S (String.length s)) l) <= S (String.length (join sep l)))%nat.
Proof.
  intros Hsep. induction l as [|a l IH]; [simpl; lia|].
  destruct l as [|b l].
  - cbn [map list_sum fold_right join]. lia.
  - change (join sep (a :: b :: l)) with (a ++ sep ++ join sep (b :: l))%string.
    rewrite !length_append.
    change (list_sum (map (fun s => S (String.length s)) (a :: b :: l)))
      with (S (String.length a)
            + list_sum (map (fun s => S (String.length s)) (b :: l)))%nat.
    lia.
Qed.

Lemma list_sum_le_map {A : Type} (f g : A -> nat) (l : list A) :
  Forall (fun a => (f a <= g a)%nat) l ->
  (list_sum (map f l) <= list_sum (map g l))%nat.
Proof.
  induction 1 as [|a l Ha _ IH]; cbn [map list_sum fold_right]; [lia|].
  unfold list_sum in IH. lia.
Qed.

Lemma length_sep (ind : string) : (1 <= String.length ("," ++ LF ++ ind))%nat.
Proof. cbn [append String.length]. lia. Qed.

Lemma fuel_for_le_length (v : JsValue) :
  json_safe v = true ->
  forall indent : string, (fuel_for v <= String.length (elem_str indent v))%nat.
Proof.
  induction v as [| |b|x|s|items IH|props IH] using JsValue_nested_ind;
    intros Hsafe indent.
  - discriminate.
  - cbn. lia.
  - destruct b; cbn; lia.
  - cbn [json_safe] in Hsafe. apply json_number_ok_spec in Hsafe.
    destruct Hsafe as [Hfin [c [tok [E _]]]].
    rewrite elem_str_number, E by exact Hfin. cbn [fuel_for String.length]. lia.
  - unfold elem_str. cbn [SerializeJSONProperty fuel_for QuoteJSONString String.length].
    lia.
  - cbn [json_safe] in Hsafe. unfold elem_str. rewrite Serialize_array.
    destruct items as [|x items]; [cbn; lia|].
    set (ind := (indent ++ gap)%string).
    change (map (elem_str ind) (x :: items))
      with (elem_str ind x :: map (elem_str ind) items).
    cbv beta iota.
    change (elem_str ind x :: map (elem_str ind) items)
      with (map (elem_str ind) (x :: items)).
    rewrite !length_append.
    pose proof (join_length ("," ++ LF ++ ind) (map (elem_str ind) (x :: items))
                  (length_sep ind)) as Hjoin.
    rewrite map_map in Hjoin.
    assert (Hsum : (list_sum (map (fun y => S (fuel_for y)) (x :: items))
                    <= list_sum (map (fun y => S (String.length (elem_str ind y)))
                                     (x :: items)))%nat).
    { apply list_sum_le_map. rewrite forallb_forall in Hsafe.
      rewrite Forall_forall in IH |- *. intros y Hy.
      specialize (IH y Hy (Hsafe y Hy) ind). lia. }
    cbn [fuel_for]. cbn [String.length LF]. lia.
  - cbn [json_safe] in Hsafe. apply andb_true_iff in Hsafe.
    destruct Hsafe as [Hsafe _].
    unfold elem_str. rewrite Serialize_object by exact Hsafe.
    destruct props as [|kv props]; [cbn; lia|].
    set (ind := (indent ++ gap)%string).
    change (map (member_str ind) (kv :: props))
      with (member_str ind kv :: map (member_str ind) props).
    cbv beta iota.
    change (member_str ind kv :: map (member_str ind) props)
      with (map (member_str ind) (kv :: props)).
    rewrite !length_append.
    pose proof (join_length ("," ++ LF ++ ind) (map (member_str ind) (kv :: props))
                  (length_sep ind)) as Hjoin.
    rewrite map_map in Hjoin.
    assert (Hsum : (list_sum (map (fun y => S (fuel_for (snd y))) (kv :: props))
                    <= list_sum (map (fun y => S (String.length (member_str ind y)))
                                     (kv :: props)))%nat).
    { apply list_sum_le_map. rewrite forallb_forall in Hsafe.
      rewrite Forall_forall in IH |- *. intros y Hy.
      specialize (IH y Hy (Hsafe y Hy) ind).
      unfold member_str. rewrite !length_append. lia. }
    cbn [fuel_for]. cbn [String.length LF]. lia.
Qed.

(** What [JSON.parse] does with the names of an object: those that are
    array indices come first, in ascending order, and of two properties of
    one name the second gives the value, where the first stood.  An escape
    for a code unit from [0x80] to [0xFF] is read; at one for a code unit
    above, nothing is said; a comma before the closing bracket is an
    error. *)
Example JSON_parse_examples :
  let q := QuoteJSONString in
  JSON_parse ("{" ++ q "b" ++ ":1," ++ q "1" ++ ":2," ++ q "a" ++ ":3,"
                  ++ q "0" ++ ":4," ++ q "b" ++ ":5}")
  = Value (JsObject [("0", JsNumber (Number_of_Z 4)); ("1", JsNumber (Number_of_Z 2));
                     ("b", JsNumber (Number_of_Z 5)); ("a", JsNumber (Number_of_Z 3))]) /\
  JSON_parse (String DQUOTE (String BACKSLASH "u00e9") ++ String DQUOTE "")
  = Value (JsString (String (ascii_of_nat 233) "")) /\
  JSON_parse (String DQUOTE (String BACKSLASH "u0100") ++ String DQUOTE "")
  = Unrepresented /\
  JSON_parse "[1,]" = SyntaxError.
Proof.
  intros q. split; [|split; [|split]]; vm_compute; reflexivity.
Qed.

(** A safe value is written to a text that parses back to it. *)
Theorem JSON_parse_stringify (v : JsValue) :
  json_safe v = true ->
  exists text : string, JSON_stringify v = Some text /\ JSON_parse text = Value v.
Proof.
  intros Hsafe. exists (elem_str "" v). split.
  - now apply json_safe_serializes.
  - unfold JSON_parse.
    pose proof (json_safe_reads_back v Hsafe "" "" 
                  (2 * String.length (elem_str "" v) + 2)%nat
                  eq_refl eq_refl) as H.
    rewrite append_nil_r in H. rewrite H; [reflexivity|].
    pose proof (fuel_for_le_length v Hsafe ""). lia.
Qed.

(** ** The accuracy, thousandth by thousandth *)

(** Each of the thousand quotients [k / 1000] is in the unit interval, is
    the number the decimal [k * 10 ^ -3] denotes, and is written by
    [JSON.stringify] as a decimal that reads back. *)
Lemma thousandths_checked (k : Z) :
  (1 <= k <= 1000)%Z ->
  let x := num_div (Number_of_Z k) (Number_of_Z 1000) in
  in_unit_interval x = true /\
  x = decimal_to_number k (-3) /\
  json_number_ok x = true.
Proof.
  intros Hk x.
  assert (H : forallb
                (fun n =>
                   let y := num_div (Number_of_Z (Z.of_nat n)) (Number_of_Z 1000) in
                   in_unit_interval y
                   && number_eqb y (decimal_to_number (Z.of_nat n) (-3))
                   && json_number_ok y)
                (seq 1 1000) = true) by (vm_compute; reflexivity).
  rewrite forallb_forall in H. specialize (H (Z.to_nat k)).
  rewrite Z2Nat.id in H by lia. cbv zeta in H. fold x in H.
  assert (Hin : In (Z.to_nat k) (seq 1 1000)) by (apply in_seq; lia).
  apply H in Hin. apply andb_true_iff in Hin. destruct Hin as [Hin Hjson].
  apply andb_true_iff in Hin. destruct Hin as [Hunit Heq].
  apply number_eqb_eq in Heq. tauto.
Qed.

Lemma computeAccuracy_thousandths (vs : list RoutingValidation) :
  (Z.of_nat (length vs) < 2 ^ 53)%Z ->
  exists k : Z,
    (0 <= k <= 1000)%Z /\
    computeAccuracy vs = decimal_to_number k (-3) /\
    in_unit_interval (computeAccuracy vs) = true /\
    json_number_ok (computeAccuracy vs) = true.
Proof.
  intros Hlen.
  assert (Hzero : exists k : Z,
            (0 <= k <= 1000)%Z /\
            num_zero = decimal_to_number k (-3) /\
            in_unit_interval num_zero = true /\
            json_number_ok num_zero = true).
  { exists 0%Z. split; [lia|]. split; [reflexivity|]. split; vm_compute; reflexivity. }
  destruct vs as [|v vs]; [exact Hzero|].
  rewrite computeAccuracy_counts by discriminate.
  destruct (accuracy_of_counts_thousandths
              (count_correct (v :: vs)) (length (v :: vs))
              (count_correct_le _) ltac:(simpl; lia) Hlen) as [-> | [k [Hk ->]]].
  - exact Hzero.
  - exists k. destruct (thousandths_checked k Hk) as [Hunit [Heq Hjson]].
    split; [lia|]. split; [exact Heq|]. split; [exact Hunit | exact Hjson].
Qed.

(** ** The end-to-end scenarios of the test suite *)

(** One expectation, a matching recommendation, no optional stage: one
    validation, accuracy 1, nothing else, and exactly one call. *)
Example scenario_single_success :
  exists (report : OracleReport) (w' : World unit),
    runOraclePipeline
      (Fixtures.createMockCaller
         [("delegate_to_model", Fixtures.MOCK_DELEGATE_ARCHITECTURE)])
      (Fixtures.config_of [Fixtures.EXPECT_ARCHITECTURE] None None)
      (Fixtures.start tt) = (Fulfilled report, w') /\
    map correct (validations report) = [true] /\
    accuracy report = num_one /\
    Number_toString (accuracy report) = "1" /\
    weather report = None /\ voteResult report = None /\
    length (calls w') = 1%nat.
Proof.
  eexists. eexists. split; [vm_compute; reflexivity|].
  repeat split; vm_compute; reflexivity.
Qed.

(** Three expectations, the third answered with a model that is not
    acceptable: accuracy 0.667, and the third validation alone is
    misrouted. *)
Example scenario_third_misrouted :
  exists (report : OracleReport) (w' : World nat),
    runOraclePipeline
      (Fixtures.sequence_caller
         [Fixtures.MOCK_DELEGATE_ARCHITECTURE; Fixtures.MOCK_DELEGATE_CODE;
          Fixtures.MOCK_DELEGATE_WRONG])
      (Fixtures.config_of
         [Fixtures.EXPECT_ARCHITECTURE; Fixtures.EXPECT_CODE_GENERATION;
          Fixtures.EXPECT_CODE_REVIEW] None None)
      (Fixtures.start 0%nat) = (Fulfilled report, w') /\
    map correct (validations report) = [true; true; false] /\
    accuracy report = decimal_to_number 667 (-3) /\
    Number_toString (accuracy report) = "0.667" /\
    getMisrouted (validations report) = skipn 2 (validations report).
Proof.
  eexists. eexists. split; [vm_compute; reflexivity|].
  repeat split; vm_compute; reflexivity.
Qed.

(** The only routing call is rejected, and so are the calls of the two
    optional stages, both requested: one synthetic validation, accuracy 0,
    no snapshot and no vote outcome. *)
Example scenario_all_calls_fail :
  exists (report : OracleReport) (w' : World unit),
    runOraclePipeline Fixtures.failing_caller
      (Fixtures.config_of [Fixtures.EXPECT_ARCHITECTURE] (Some true) (Some true))
      (Fixtures.start tt) = (Fulfilled report, w') /\
    map recommended (validations report) = ["ERROR"] /\
    map correct (validations report) = [false] /\
    accuracy report = num_zero /\
    weather report = None /\ voteResult report = None.
Proof.
  eexists. eexists. split; [vm_compute; reflexivity|].
  repeat split; vm_compute; reflexivity.
Qed.

(* ================================================================== *)
(** * The claims *)

(** ** C5: the pipeline always returns a report *)

(** C5. [runOraclePipeline] is total toward its caller: whatever the
    configuration, and whether each call of the tool caller returns a value
    of some shape or fails, the run settles as fulfilled with an Oracle
    Report; no failure of a stage reaches the caller as a rejection. *)
Theorem runOraclePipeline_total :
  forall (St : Type) (caller : ToolCaller St) (config : OracleConfig) (w : World St),
    exists (report : OracleReport) (w' : World St),
      runOraclePipeline caller config w = (Fulfilled report, w').
Proof.
  intros St caller config w.
  rewrite runOraclePipeline_stages. eexists. eexists. reflexivity.
Qed.

(** ** C2: a failed routing call is isolated *)

(** C2. In [runOraclePipeline] the run is fulfilled, and there is one
    validation per expectation.  When the routing call of the [i]-th
    expectation fails (it rejects, or its result does not have the shape of
    a routing response), the [i]-th validation is the synthetic one:
    recommended ["ERROR"], correct [false], reasoning ["Tool call failed"], no
    alternatives, with the category and the expected destination of that
    expectation.  Every expectation whose own call succeeds is validated
    from its own response, whatever happened to the others. *)
Theorem routing_failure_isolated :
  forall (St : Type) (caller : ToolCaller St) (config : OracleConfig) (w : World St),
    exists (report : OracleReport) (w' : World St),
      runOraclePipeline caller config w = (Fulfilled report, w') /\
      length (validations report) = length (expectations config) /\
      length (fst (routing_outcomes caller (expectations config) (caller_state w)))
        = length (expectations config) /\
      forall (i : nat) (exp : RoutingExpectation) (r : Settled JsValue),
        nth_error (expectations config) i = Some exp ->
        nth_error (fst (routing_outcomes caller (expectations config) (caller_state w))) i
          = Some r ->
        (routing_failed r ->
         nth_error (validations report) i =
         Some {| category := exp_category exp;
                 recommended := "ERROR";
                 expected := expectedPrimaryCli exp;
                 correct := false;
                 reasoning := "Tool call failed";
                 alternatives := [] |}) /\
        (forall (raw : JsValue) (result : DelegateResponse),
           r = Fulfilled raw ->
           DelegateResponseSchema raw = Some result ->
           nth_error (validations report) i = Some (validated exp result)).
Proof.
  intros St caller config w.
  rewrite runOraclePipeline_stages. eexists. eexists.
  split; [reflexivity|]. cbn [validations].
  split; [apply expected_validations_length|].
  split; [apply routing_outcomes_length|].
  intros i exp r Hexp Hr.
  rewrite (expected_validations_nth caller _ _ _ _ _ Hexp Hr).
  split.
  - intros Hfail. destruct r as [raw|e]; cbn [validation_of routing_failed] in *.
    + now rewrite Hfail.
    + reflexivity.
  - intros raw result -> Hparse. cbn [validation_of]. now rewrite Hparse.
Qed.

Lemma routing_failure_isolated_witness :
  exists (report : OracleReport) (w' : World nat),
    runOraclePipeline
      (Fixtures.sequence_caller
         [Fixtures.MOCK_DELEGATE_ARCHITECTURE; JsNull; Fixtures.MOCK_DELEGATE_WRONG])
      (Fixtures.config_of
         [Fixtures.EXPECT_ARCHITECTURE; Fixtures.EXPECT_CODE_GENERATION;
          Fixtures.EXPECT_CODE_REVIEW] None None)
      (Fixtures.start 0) = (Fulfilled report, w') /\
    nth_error (validations report) 1 =
      Some {| category := code_generation; recommended := "ERROR";
              expected := "codex"; correct := false;
              reasoning := "Tool call failed"; alternatives := [] |} /\
    (exists v, nth_error (validations report) 2 = Some v /\
               recommended v = "gemini-flash").
Proof.
  destruct (routing_failure_isolated nat
              (Fixtures.sequence_caller
                 [Fixtures.MOCK_DELEGATE_ARCHITECTURE; JsNull;
                  Fixtures.MOCK_DELEGATE_WRONG])
              (Fixtures.config_of
                 [Fixtures.EXPECT_ARCHITECTURE; Fixtures.EXPECT_CODE_GENERATION;
                  Fixtures.EXPECT_CODE_REVIEW] None None)
              (Fixtures.start 0)) as [report [w' [Hrun [_ [_ H]]]]].
  exists report, w'. split; [exact Hrun|]. split.
  - apply (proj1 (H 1%nat Fixtures.EXPECT_CODE_GENERATION (Fulfilled JsNull)
                    eq_refl eq_refl)).
    reflexivity.
  - eexists. split.
    + exact (proj2 (H 2%nat Fixtures.EXPECT_CODE_REVIEW
                      (Fulfilled Fixtures.MOCK_DELEGATE_WRONG) eq_refl eq_refl)
               Fixtures.MOCK_DELEGATE_WRONG _ eq_refl eq_refl).
    + reflexivity.
Defined.

(** ** C1: the correctness flag *)

(** C1, as stated, fails: the synthetic validation of a failed call has
    correct [false] even when its recommended marker ["ERROR"] is contained
    in an acceptable model. *)
Lemma correct_flag_counterexample :
  exists (report : OracleReport) (w' : World unit) (v : RoutingValidation),
    runOraclePipeline Fixtures.failing_caller
      (Fixtures.config_of
         [{| exp_category := architecture; task := "Design a payment system";
             preferredCapability := cap_reasoning; expectedPrimaryCli := "claude";
             acceptableModels := ["ERROR"] |}] None None)
      (Fixtures.start tt) = (Fulfilled report, w') /\
    nth_error (validations report) 0 = Some v /\
    correct v = false /\
    existsb (fun m => includes (recommended v) m || includes m (recommended v))
            ["ERROR"] = true.
Proof.
  eexists. eexists. eexists. split; [vm_compute; reflexivity|].
  split; [reflexivity|]. split; reflexivity.
Qed.

(** C1 (amended). Every validation of a report comes from the expectation
    and the routing call at its position.  When that call returned a
    response of the right shape, the validation's correctness flag is
    [acceptableModels.some(m => recommended.includes(m) ||
    m.includes(recommended))], which is true iff the recommended destination
    contains, or is contained in, at least one acceptable model.  When that
    call failed, the flag is [false] whatever the acceptable set.  And
    [routeAndValidate] itself, on a call that returns a response of the right
    shape, is fulfilled with a validation whose flag is that disjunction. *)
Theorem correct_flag_rule :
  forall (St : Type) (caller : ToolCaller St) (config : OracleConfig) (w : World St),
    (exists (report : OracleReport) (w' : World St),
       runOraclePipeline caller config w = (Fulfilled report, w') /\
       forall (i : nat) (exp : RoutingExpectation) (r : Settled JsValue),
         nth_error (expectations config) i = Some exp ->
         nth_error (fst (routing_outcomes caller (expectations config) (caller_state w))) i
           = Some r ->
         exists v : RoutingValidation,
           nth_error (validations report) i = Some v /\
           (routing_failed r -> correct v = false /\ recommended v = "ERROR") /\
           (~ routing_failed r ->
            correct v =
              existsb (fun m => includes (recommended v) m || includes m (recommended v))
                      (acceptableModels exp) /\
            (correct v = true <-> acceptable exp (recommended v)))) /\
    (forall (exp : RoutingExpectation) (raw : JsValue) (s' : St)
            (result : DelegateResponse),
       call caller "delegate_to_model" (delegate_args exp) (caller_state w)
         = (Fulfilled raw, s') ->
       DelegateResponseSchema raw = Some result ->
       exists (v : RoutingValidation) (w' : World St),
         routeAndValidate caller exp w = (Fulfilled v, w') /\
         recommended v = recommended_model result /\
         correct v =
           existsb (fun m => includes (recommended v) m || includes m (recommended v))
                   (acceptableModels exp) /\
         (correct v = true <-> acceptable exp (recommended v))).
Proof.
  intros St caller config w. split.
  - rewrite runOraclePipeline_stages. eexists. eexists.
    split; [reflexivity|]. cbn [validations].
    intros i exp r Hexp Hr.
    exists (validation_of exp r).
    split; [now apply expected_validations_nth|].
    destruct r as [raw|e]; cbn [validation_of routing_failed].
    + destruct (DelegateResponseSchema raw) as [result|] eqn:Hparse.
      * split; [discriminate|]. intros _.
        split; [reflexivity | apply validated_correct_iff].
      * split; [now split | congruence].
    + split; [now split | tauto].
  - intros exp raw s' result Hcall Hparse.
    rewrite routeAndValidate_run, Hcall, Hparse.
    eexists. eexists. split; [reflexivity|].
    split; [reflexivity|]. split; [reflexivity | apply validated_correct_iff].
Qed.

Lemma correct_flag_rule_witness :
  exists (v : RoutingValidation) (w' : World unit),
    routeAndValidate
      (Fixtures.createMockCaller
         [("delegate_to_model", Fixtures.MOCK_DELEGATE_ARCHITECTURE)])
      Fixtures.EXPECT_ARCHITECTURE (Fixtures.start tt) = (Fulfilled v, w') /\
    recommended v = "claude-opus" /\
    correct v =
      existsb (fun m => includes (recommended v) m || includes m (recommended v))
              ["claude-opus"; "claude-sonnet"] /\
    (correct v = true <-> acceptable Fixtures.EXPECT_ARCHITECTURE (recommended v)).
Proof.
  exact (proj2 (correct_flag_rule unit
                  (Fixtures.createMockCaller
                     [("delegate_to_model", Fixtures.MOCK_DELEGATE_ARCHITECTURE)])
                  (Fixtures.config_of [Fixtures.EXPECT_ARCHITECTURE] None None)
                  (Fixtures.start tt))
           Fixtures.EXPECT_ARCHITECTURE Fixtures.MOCK_DELEGATE_ARCHITECTURE tt
           _ eq_refl eq_refl).
Defined.

Lemma validation_of_fields (exp : RoutingExpectation) (r : Settled JsValue) :
  category (validation_of exp r) = exp_category exp /\
  expected (validation_of exp r) = expectedPrimaryCli exp.
Proof.
  destruct r as [raw|e]; cbn [validation_of]; [|now split].
  destruct (DelegateResponseSchema raw); now split.
Qed.

Lemma expected_validations_fields {St : Type} (caller : ToolCaller St)
  (exps : list RoutingExpectation) (s : St) :
  Forall2 (fun exp v => category v = exp_category exp /\
                        expected v = expectedPrimaryCli exp)
          exps (expected_validations caller exps s).
Proof.
  unfold expected_validations.
  pose proof (routing_outcomes_length caller exps s) as Hlen. revert Hlen.
  generalize (fst (routing_outcomes caller exps s)) as rs.
  induction exps as [|exp exps IH]; intros [|r rs] Hlen; try discriminate.
  - constructor.
  - cbn [combine map fst snd]. constructor.
    + apply validation_of_fields.
    + apply IH. now injection Hlen.
Qed.

(** ** C6: one routing call per expectation, in order *)


(** ** C4: the optional stages *)

(** C4. In every report of [runOraclePipeline] (the run is always
    fulfilled), with [w1] the world the routing stage leaves and [w2] the
    world the telemetry stage leaves:
    - [weather] is non-null only if [includeWeather === true] and
      [fetchWeather] succeeded on [w1], and is then its result; when the
      stage was requested and failed, [weather] is [null];
    - [voteResult] is non-null only if [includeVote === true] and
      [voteOnQuality] succeeded on [w2], and is then its result; when the
      stage was requested and failed, [voteResult] is [null];
    - the vote stage reports its own outcome whether or not the telemetry
      stage failed, and the telemetry stage its own whatever the vote does;
    - the validation list is the one of the routing stage, whatever the
      optional stages did. *)
Theorem optional_stages_absent_on_failure :
  forall (St : Type) (caller : ToolCaller St) (config : OracleConfig) (w : World St),
    exists (report : OracleReport) (w' : World St),
      runOraclePipeline caller config w = (Fulfilled report, w') /\
      let w1 := after_routing caller config w in
      let w2 := after_weather caller config w in
      let vote := voteOnQuality caller (validations report) (voteStrategy config) w2 in
      validations report
        = expected_validations caller (expectations config) (caller_state w) /\
      (forall x : WeatherResponse,
         weather report = Some x ->
         includeWeather config = Some true /\ fst (fetchWeather caller w1) = Fulfilled x) /\
      (forall e : Thrown,
         fst (fetchWeather caller w1) = Rejected e -> weather report = None) /\
      (forall x : WeatherResponse,
         includeWeather config = Some true ->
         fst (fetchWeather caller w1) = Fulfilled x -> weather report = Some x) /\
      (forall y : VoteResponse,
         voteResult report = Some y ->
         includeVote config = Some true /\ fst vote = Fulfilled y) /\
      (forall e : Thrown, fst vote = Rejected e -> voteResult report = None) /\
      (forall y : VoteResponse,
         includeVote config = Some true ->
         fst vote = Fulfilled y -> voteResult report = Some y).
Proof.
  intros St caller config w.
  rewrite runOraclePipeline_stages. eexists. eexists.
  split; [reflexivity|]. cbv zeta. cbn [validations weather voteResult].
  split; [reflexivity|].
  set (fw := fst (fetchWeather caller (after_routing caller config w))).
  set (vq := fst (voteOnQuality caller _ (voteStrategy config)
                    (after_weather caller config w))).
  split; [|split; [|split; [|split; [|split]]]].
  - intros x. destruct (includeWeather config) as [[|]|]; cbn [is_true];
      try discriminate.
    destruct fw; [intros [= ->]; now split | discriminate].
  - intros e He. rewrite He. now destruct (is_true (includeWeather config)).
  - intros x -> Hx. cbn [is_true]. now rewrite Hx.
  - intros y. destruct (includeVote config) as [[|]|]; cbn [is_true];
      try discriminate.
    destruct vq; [intros [= ->]; now split | discriminate].
  - intros e He. rewrite He. now destruct (is_true (includeVote config)).
  - intros y -> Hy. cbn [is_true]. now rewrite Hy.
Qed.

Lemma optional_stages_absent_on_failure_witness :
  exists (report : OracleReport) (w' : World unit) (y : VoteResponse),
    runOraclePipeline
      (Fixtures.createMockCaller
         [("delegate_to_model", Fixtures.MOCK_DELEGATE_ARCHITECTURE);
          ("consensus_vote", Fixtures.MOCK_VOTE_APPROVED)])
      (Fixtures.config_of [Fixtures.EXPECT_ARCHITECTURE] (Some true) (Some true))
      (Fixtures.start tt) = (Fulfilled report, w') /\
    weather report = None /\
    voteResult report = Some y /\
    vr_decision y = approved /\
    length (validations report) = 1%nat.
Proof.
  destruct (optional_stages_absent_on_failure unit
              (Fixtures.createMockCaller
                 [("delegate_to_model", Fixtures.MOCK_DELEGATE_ARCHITECTURE);
                  ("consensus_vote", Fixtures.MOCK_VOTE_APPROVED)])
              (Fixtures.config_of [Fixtures.EXPECT_ARCHITECTURE] (Some true) (Some true))
              (Fixtures.start tt))
    as [report [w' [Hrun [Hvs [_ [Hw [_ [_ [_ Hv]]]]]]]]].
  cbv zeta in *.
  exists report, w'. eexists.
  split; [exact Hrun|].
  split; [apply (Hw (CallRejected (JsString "No mock: weather_report"))); reflexivity|].
  rewrite Hvs in Hv.
  split; [apply Hv; [reflexivity | vm_compute; reflexivity]|].
  split; [reflexivity|].
  rewrite Hvs. reflexivity.
Defined.

(** ** C7: the misrouted validations *)

Lemma getMisrouted_misrouted_of (vs : list RoutingValidation) :
  misrouted_of vs (getMisrouted vs).
Proof.
  induction vs as [|v vs IH]; simpl; [constructor|].
  destruct (correct v) eqn:Hv; simpl; now constructor.
Qed.

Lemma misrouted_of_unique (vs l : list RoutingValidation) :
  misrouted_of vs l -> l = getMisrouted vs.
Proof.
  induction 1 as [|v vs l Hv _ IH|v vs l Hv _ IH]; simpl.
  - reflexivity.
  - rewrite Hv. simpl. now rewrite IH.
  - rewrite Hv. simpl. exact IH.
Qed.

(** C7. [getMisrouted] returns exactly the validations with correct [false],
    in their relative order: its result is the one list obtained from the
    input by crossing out the correct validations, its members are the
    incorrect members of the input, and it is empty when every validation is
    correct. *)
Theorem getMisrouted_exact :
  forall vs : list RoutingValidation,
    (forall l : list RoutingValidation, misrouted_of vs l <-> l = getMisrouted vs) /\
    (forall v : RoutingValidation,
       In v (getMisrouted vs) <-> In v vs /\ correct v = false) /\
    ((forall v : RoutingValidation, In v vs -> correct v = true) ->
     getMisrouted vs = []).
Proof.
  intros vs. split; [|split].
  - intros l. split.
    + apply misrouted_of_unique.
    + intros ->. apply getMisrouted_misrouted_of.
  - intros v. unfold getMisrouted. rewrite filter_In, negb_true_iff. reflexivity.
  - intros Hall. unfold getMisrouted.
    induction vs as [|v vs IH]; simpl; [reflexivity|].
    rewrite (Hall v (or_introl eq_refl)). simpl.
    apply IH. intros v' Hv'. apply Hall. now right.
Qed.

Lemma getMisrouted_exact_witness :
  getMisrouted [Fixtures.validation architecture "a" "a" true;
                Fixtures.validation testing "b" "b" true] = [].
Proof.
  apply (proj2 (proj2 (getMisrouted_exact
                         [Fixtures.validation architecture "a" "a" true;
                          Fixtures.validation testing "b" "b" true]))).
  intros v [<- | [<- | []]]; reflexivity.
Defined.

(** The test "returns only incorrect validations". *)
Example getMisrouted_mixed :
  getMisrouted [Fixtures.validation architecture "a" "a" true;
                Fixtures.validation testing "x" "b" false;
                Fixtures.validation devops "c" "c" true;
                Fixtures.validation research "y" "d" false]
  = [Fixtures.validation testing "x" "b" false;
     Fixtures.validation research "y" "d" false].
Proof. reflexivity. Qed.

(** ** C8: confirmation against a telemetry snapshot *)

Lemma find_first_spec {A : Type} (p : A -> bool) (l : list A) (a : A) :
  find p l = Some a <->
  exists before after : list A,
    l = before ++ a :: after /\ (forall x, In x before -> p x = false) /\ p a = true.
Proof.
  induction l as [|x l IH]; simpl.
  - split; [discriminate|]. intros [[|? ?] [after [H _]]]; discriminate.
  - destruct (p x) eqn:Hx.
    + split.
      * intros [= ->]. exists [], l. repeat split; [intros ? []|exact Hx].
      * intros [[|y before] [after [H [Hb Ha]]]]; simpl in H.
        -- now injection H as ->.
        -- injection H as -> _. rewrite (Hb y (or_introl eq_refl)) in Hx. discriminate.
    + rewrite IH. split.
      * intros [before [after [-> [Hb Ha]]]]. exists (x :: before), after.
        repeat split; [|exact Ha]. intros y [<- | Hy]; [exact Hx | now apply Hb].
      * intros [[|y before] [after [H [Hb Ha]]]]; simpl in H.
        -- injection H as -> _. congruence.
        -- injection H as -> ->. exists before, after.
           repeat split; [|exact Ha]. intros z Hz. apply Hb. now right.
Qed.

(** C8. [weatherConfirms] is a function of the snapshot and the two strings
    alone: it takes no tool caller and acts on no world.  It returns [false]
    when the snapshot has no [recommendedMappings] list, [false] when no
    entry of the list has the category, and [true] exactly when the first
    entry of the list with that category has a [recommendedCli] equal, as a
    string, to the expected destination. *)
Theorem weatherConfirms_spec :
  forall (weather : WeatherResponse) (category expectedCli : string),
    (recommendedMappings weather = None ->
     weatherConfirms weather category expectedCli = false) /\
    (forall mappings : list RecommendedMapping,
       recommendedMappings weather = Some mappings ->
       (forall m, In m mappings -> rm_category m <> category) ->
       weatherConfirms weather category expectedCli = false) /\
    (weatherConfirms weather category expectedCli = true <->
     exists (before : list RecommendedMapping) (m : RecommendedMapping)
            (after : list RecommendedMapping),
       recommendedMappings weather = Some (before ++ m :: after) /\
       (forall x, In x before -> rm_category x <> category) /\
       rm_category m = category /\
       recommendedCli m = expectedCli).
Proof.
  intros weather category expectedCli. unfold weatherConfirms.
  split; [|split].
  - now intros ->.
  - intros mappings -> Hnone.
    destruct (find _ mappings) as [m|] eqn:Hfind; [|reflexivity].
    apply find_some in Hfind. destruct Hfind as [Hin Heq].
    apply String.eqb_eq in Heq. now apply Hnone in Hin.
  - destruct (recommendedMappings weather) as [mappings|].
    + split.
      * destruct (find _ mappings) as [m|] eqn:Hfind; [|discriminate].
        intros Heq. apply find_first_spec in Hfind.
        destruct Hfind as [before [after [-> [Hb Hm]]]].
        exists before, m, after. split; [reflexivity|].
        split; [|split].
        -- intros x Hx. apply String.eqb_neq. now apply Hb.
        -- now apply String.eqb_eq.
        -- now apply String.eqb_eq.
      * intros [before [m [after [[= ->] [Hb [Hm Hcli]]]]]].
        assert (Hfind : find (fun m0 => String.eqb (rm_category m0) category)
                             (before ++ m :: after) = Some m).
        { apply find_first_spec. exists before, after. split; [reflexivity|].
          split.
          - intros x Hx. apply String.eqb_neq. now apply Hb.
          - now apply String.eqb_eq. }
        rewrite Hfind. now apply String.eqb_eq.
    + split; [discriminate|]. intros [? [? [? [H _]]]]. discriminate.
Qed.

Lemma weatherConfirms_spec_witness :
  weatherConfirms Fixtures.WEATHER_COLD "architecture" "claude" = false /\
  weatherConfirms Fixtures.WEATHER_HEALTHY "devops" "claude" = false /\
  weatherConfirms Fixtures.WEATHER_HEALTHY "code_generation" "codex" = true.
Proof.
  split; [|split].
  - apply (proj1 (weatherConfirms_spec Fixtures.WEATHER_COLD "architecture" "claude")).
    reflexivity.
  - apply (proj1 (proj2 (weatherConfirms_spec Fixtures.WEATHER_HEALTHY "devops" "claude"))
             _ eq_refl).
    intros m [<- | [<- | []]]; discriminate.
  - apply (proj2 (proj2 (weatherConfirms_spec Fixtures.WEATHER_HEALTHY
                           "code_generation" "codex"))).
    exists [Fixtures.mapping_of "architecture" "claude" (Number_of_Z 1) 8 "medium"].
    eexists. exists [].
    split; [reflexivity|]. split; [|split; reflexivity].
    intros x [<- | []]. discriminate.
Defined.

(** The tests "confirms matching recommendation" and "rejects mismatched
    recommendation": equality of destinations, not containment. *)
Example weatherConfirms_exact_match :
  weatherConfirms Fixtures.WEATHER_HEALTHY "architecture" "claude" = true /\
  weatherConfirms Fixtures.WEATHER_HEALTHY "architecture" "codex" = false /\
  weatherConfirms Fixtures.WEATHER_HEALTHY "architecture" "claude-opus" = false /\
  weatherConfirms Fixtures.WEATHER_HEALTHY "architecture" "cl" = false.
Proof. repeat split. Qed.

(** ** C10: the vote on an empty validation list *)

(** C10. On an empty validation list [voteOnQuality] builds its proposal
    without a division: the headline reads "Routing accuracy is 0% (0/0
    correct).".  It issues exactly one call, [consensus_vote], with that
    proposal, the strategy ['simple_majority'] when none is given, [quickMode]
    true and [simulateVotes] false; and it settles as that call does: fulfilled
    with the validated response when the call returns one, so no failure of
    its own arises from the empty list. *)
Theorem voteOnQuality_empty :
  forall (St : Type) (caller : ToolCaller St) (w : World St),
    let proposal :=
      ("Routing accuracy is 0% (0/0 correct)." ++ LF ++ LF ++
       "Results:" ++ LF ++ LF ++ LF ++
       "Should we approve this routing quality?")%string in
    let args := [("proposal", JsString proposal);
                 ("strategy", JsString "simple_majority");
                 ("quickMode", JsBool true);
                 ("simulateVotes", JsBool false)] in
    build_proposal [] = proposal /\
    calls (snd (voteOnQuality caller [] None w)) = calls w ++ [("consensus_vote", args)] /\
    caller_state (snd (voteOnQuality caller [] None w))
      = snd (call caller "consensus_vote" args (caller_state w)) /\
    fst (voteOnQuality caller [] None w) =
      match fst (call caller "consensus_vote" args (caller_state w)) with
      | Fulfilled raw =>
          match VoteResponseSchema raw with
          | Some response => Fulfilled response
          | None => Rejected ZodError
          end
      | Rejected e => Rejected e
      end.
Proof.
  intros St caller w proposal args.
  split; [reflexivity|].
  rewrite voteOnQuality_run.
  change (vote_args [] None) with args.
  destruct (call caller "consensus_vote" args (caller_state w)) as [[raw|e] s'];
    cbn [fst snd].
  - destruct (VoteResponseSchema raw); repeat split.
  - repeat split.
Qed.

(** The test "returns vote decision": the vote on an empty list succeeds. *)
Example voteOnQuality_empty_approved :
  exists (response : VoteResponse) (w' : World unit),
    voteOnQuality
      (Fixtures.createMockCaller [("consensus_vote", Fixtures.MOCK_VOTE_APPROVED)])
      [] None (Fixtures.start tt) = (Fulfilled response, w') /\
    vr_decision response = approved /\
    length (votes response) = 3%nat /\
    length (calls w') = 1%nat.
Proof.
  eexists. eexists. split; [vm_compute; reflexivity|]. repeat split.
Qed.

(** ** C3: the accuracy *)

(** The scenario of the test suite: two correct validations out of three. *)
Example computeAccuracy_two_of_three :
  computeAccuracy [Fixtures.validation architecture "claude-opus" "claude" true;
                   Fixtures.validation code_generation "codex-5.3" "codex" true;
                   Fixtures.validation code_review "gemini-flash" "codex" false]
  = decimal_to_number 667 (-3).
Proof. vm_compute. reflexivity. Qed.

(** The rounding is the one of the numbers, not of the fractions: 201
    correct of 400 is 0.5025 exactly, and the accuracy is 0.502. *)
Example computeAccuracy_201_of_400 :
  accuracy_of_counts 201 400 = decimal_to_number 502 (-3).
Proof. vm_compute. reflexivity. Qed.

(** C3. [computeAccuracy] returns exactly [0] on the empty list and
    [Math.round((correct / total) * 1000) / 1000] on a non-empty one, with
    [correct] the count of validations flagged correct and [total] the
    length; the result is in [[0, 1]] (for every list a JavaScript array can
    hold: fewer than [2 ^ 53] entries); two correct of three give [0.667].
    And the accuracy of the report of [runOraclePipeline] is
    [computeAccuracy] of the report's own, complete validation list, the
    one the routing stage leaves. *)
Theorem computeAccuracy_spec :
  computeAccuracy [] = num_zero /\
  (forall vs : list RoutingValidation,
     vs <> [] ->
     computeAccuracy vs =
     num_div
       (Math_round
          (num_mul (num_div (Number_of_nat (length (filter correct vs)))
                            (Number_of_nat (length vs)))
                   (Number_of_Z 1000)))
       (Number_of_Z 1000)) /\
  (forall vs : list RoutingValidation,
     (Z.of_nat (length vs) < 2 ^ 53)%Z ->
     num_leb num_zero (computeAccuracy vs) = true /\
     num_leb (computeAccuracy vs) num_one = true /\
     exists k : Z,
       (0 <= k <= 1000)%Z /\ computeAccuracy vs = decimal_to_number k (-3)) /\
  (forall vs : list RoutingValidation,
     length vs = 3%nat -> length (filter correct vs) = 2%nat ->
     computeAccuracy vs = decimal_to_number 667 (-3) /\
     Number_toString (computeAccuracy vs) = "0.667") /\
  (forall (St : Type) (caller : ToolCaller St) (config : OracleConfig) (w : World St),
     exists (report : OracleReport) (w' : World St),
       runOraclePipeline caller config w = (Fulfilled report, w') /\
       validations report
         = expected_validations caller (expectations config) (caller_state w) /\
       accuracy report = computeAccuracy (validations report)).
Proof.
  split; [reflexivity|]. split; [|split; [|split]].
  - intros vs Hvs. now rewrite computeAccuracy_counts.
  - intros vs Hlen.
    destruct (computeAccuracy_thousandths vs Hlen) as [k [Hk [Heq [Hunit _]]]].
    unfold in_unit_interval in Hunit. apply andb_true_iff in Hunit.
    destruct Hunit as [Hlo Hhi].
    split; [exact Hlo|]. split; [exact Hhi|]. exists k. split; [exact Hk | exact Heq].
  - intros vs Hlen Hcorrect. destruct vs as [|v vs]; [discriminate|].
    rewrite computeAccuracy_counts by discriminate.
    unfold count_correct. rewrite Hlen, Hcorrect. split; vm_compute; reflexivity.
  - intros St caller config w. rewrite runOraclePipeline_stages.
    eexists. eexists. split; [reflexivity|]. split; reflexivity.
Qed.

Lemma computeAccuracy_spec_witness :
  let vs := [Fixtures.validation architecture "claude-opus" "claude" true;
             Fixtures.validation code_generation "codex-5.3" "codex" true;
             Fixtures.validation code_review "gemini-flash" "codex" false] in
  (num_leb num_zero (computeAccuracy vs) = true /\
   num_leb (computeAccuracy vs) num_one = true /\
   exists k : Z,
     (0 <= k <= 1000)%Z /\ computeAccuracy vs = decimal_to_number k (-3)) /\
  (computeAccuracy vs = decimal_to_number 667 (-3) /\
   Number_toString (computeAccuracy vs) = "0.667").
Proof.
  intros vs. split.
  - apply (proj1 (proj2 (proj2 computeAccuracy_spec)) vs). vm_compute. reflexivity.
  - apply (proj1 (proj2 (proj2 (proj2 computeAccuracy_spec))) vs); reflexivity.
Defined.

(** ** C9: the structured format, written and read back *)

Lemma json_safe_strings (l : list string) : forallb json_safe (map JsString l) = true.
Proof. induction l as [|x l IH]; [reflexivity | exact IH]. Qed.

Lemma json_safe_validations (vs : list RoutingValidation) :
  forallb json_safe (map RoutingValidation_to_js vs) = true.
Proof.
  induction vs as [|v vs IH]; [reflexivity|].
  cbn [map forallb]. rewrite IH, andb_true_r.
  unfold RoutingValidation_to_js.
  cbn [json_safe forallb snd map fst].
  rewrite json_safe_strings. reflexivity.
Qed.

(** A report of the pipeline has the accuracy of its validations, one for
    each expectation. *)
Lemma runOraclePipeline_accuracy {St : Type} (caller : ToolCaller St)
  (config : OracleConfig) (w w' : World St) (report : OracleReport) :
  runOraclePipeline caller config w = (Fulfilled report, w') ->
  accuracy report = computeAccuracy (validations report) /\
  length (validations report) = length (expectations config).
Proof.
  rewrite (runOraclePipeline_stages caller config w). cbv zeta.
  intros H. injection H as H _. subst report. cbn [accuracy validations].
  split; [reflexivity | apply expected_validations_length].
Qed.




(* ================================================================== *)
(** * Further properties of the code *)

(** ** The calls of a run *)

Lemma after_weather_calls {St : Type} (caller : ToolCaller St) (config : OracleConfig)
  (w : World St) :
  calls (after_weather caller config w) =
  calls w ++ map delegate_call (expectations config)
  ++ (if is_true (includeWeather config)
      then [("weather_report", [("includeAdaptive", JsBool true)])] else []).
Proof.
  unfold after_weather. destruct (is_true (includeWeather config)).
  - rewrite fetchWeather_calls. cbn [after_routing calls]. now rewrite <- app_assoc.
  - cbn [after_routing calls]. now rewrite app_nil_r.
Qed.


(** ** What the pipeline sends, against the schemas of the tools' inputs *)

Lemma z_enum_capability (c : Capability) :
  z_enum CAPABILITIES Capability_str (JsString (Capability_str c)) = Some c.
Proof. destruct c; reflexivity. Qed.

Lemma z_enum_strategy (s : VotingStrategy) :
  z_enum STRATEGIES VotingStrategy_str (JsString (VotingStrategy_str s)) = Some s.
Proof. destruct s; reflexivity. Qed.

Lemma DelegateInputSchema_delegate_args (exp : RoutingExpectation) :
  DelegateInputSchema (JsObject (delegate_args exp)) =
  if (1 <=? String.length (task exp))%nat
  then Some {| di_task := task exp;
               di_preferred_capability := Some (preferredCapability exp);
               di_model_hint := None;
               di_estimate_tokens := None;
               di_billing_mode := None |}
  else None.
Proof.
  unfold DelegateInputSchema, z_object, delegate_args.
  cbn [get_prop String.eqb Ascii.eqb Bool.eqb andb].
  unfold z_string_min.
  destruct (1 <=? String.length (task exp))%nat; [|reflexivity].
  unfold z_optional at 1. rewrite z_enum_capability. reflexivity.
Qed.

(** X2. The arguments [routeAndValidate] sends pass [DelegateInputSchema]
    exactly when the task of the expectation is not the empty string; what
    the schema then reads is the task and the preferred capability, and no
    other option. *)
Theorem delegate_args_conform :
  forall exp : RoutingExpectation,
    (task exp = "" -> DelegateInputSchema (JsObject (delegate_args exp)) = None) /\
    (task exp <> "" ->
     DelegateInputSchema (JsObject (delegate_args exp)) =
     Some {| di_task := task exp;
             di_preferred_capability := Some (preferredCapability exp);
             di_model_hint := None;
             di_estimate_tokens := None;
             di_billing_mode := None |}) /\
    (forall (St : Type) (caller : ToolCaller St) (w : World St),
       calls (snd (routeAndValidate caller exp w))
       = calls w ++ [("delegate_to_model", delegate_args exp)]).
Proof.
  intros exp. rewrite DelegateInputSchema_delegate_args.
  split; [|split].
  - intros ->. reflexivity.
  - intros H. destruct (task exp) as [|c s]; [congruence | reflexivity].
  - intros St caller w. rewrite routeAndValidate_run.
    destruct (call caller _ _ _) as [[raw|e] s']; [|reflexivity].
    destruct (DelegateResponseSchema raw); reflexivity.
Qed.

Lemma delegate_args_conform_witness :
  Fixtures.EXPECT_ARCHITECTURE.(task) <> "" /\
  DelegateInputSchema (JsObject (delegate_args Fixtures.EXPECT_ARCHITECTURE)) =
  Some {| di_task := "Design a microservices architecture for a payment system";
          di_preferred_capability := Some cap_reasoning;
          di_model_hint := None;
          di_estimate_tokens := None;
          di_billing_mode := None |}.
Proof.
  split; [discriminate|].
  apply (proj1 (proj2 (delegate_args_conform Fixtures.EXPECT_ARCHITECTURE))).
  discriminate.
Defined.

Lemma build_proposal_starts (vs : list RoutingValidation) :
  exists rest : string, build_proposal vs = String "R" rest.
Proof. unfold build_proposal. cbv zeta. eexists. reflexivity. Qed.

Lemma VoteInputSchema_vote_args (vs : list RoutingValidation)
  (strategy : option VotingStrategy) :
  VoteInputSchema (JsObject (vote_args vs strategy)) =
  if (String.length (build_proposal vs) <=? 4000)%nat
  then Some {| vi_proposal := build_proposal vs;
               vi_strategy :=
                 Some (match strategy with Some s => s | None => simple_majority end);
               vi_quickMode := Some true;
               vi_simulateVotes := Some false |}
  else None.
Proof.
  unfold VoteInputSchema, z_object, vote_args.
  cbn [get_prop String.eqb Ascii.eqb Bool.eqb andb].
  unfold z_string_min_max.
  destruct (build_proposal_starts vs) as [rest E].
  assert (H1 : (1 <=? String.length (build_proposal vs))%nat = true).
  { rewrite E. reflexivity. }
  rewrite H1. cbn [andb].
  destruct (String.length (build_proposal vs) <=? 4000)%nat; [|reflexivity].
  unfold z_optional at 1. rewrite z_enum_strategy. reflexivity.
Qed.

(** X3. The arguments [voteOnQuality] sends pass [VoteInputSchema] exactly
    when the proposal it wrote is at most 4000 code units long (it is never
    empty); what the schema then reads is that proposal, the strategy asked
    for, ['simple_majority'] when none was, [quickMode] on and
    [simulateVotes] off. *)
Theorem vote_args_conform :
  forall (vs : list RoutingValidation) (strategy : option VotingStrategy),
    (1 <= String.length (build_proposal vs))%nat /\
    ((4000 < String.length (build_proposal vs))%nat ->
     VoteInputSchema (JsObject (vote_args vs strategy)) = None) /\
    ((String.length (build_proposal vs) <= 4000)%nat ->
     VoteInputSchema (JsObject (vote_args vs strategy)) =
     Some {| vi_proposal := build_proposal vs;
             vi_strategy :=
               Some (match strategy with Some s => s | None => simple_majority end);
             vi_quickMode := Some true;
             vi_simulateVotes := Some false |}) /\
    (forall (St : Type) (caller : ToolCaller St) (w : World St),
       calls (snd (voteOnQuality caller vs strategy w))
       = calls w ++ [("consensus_vote", vote_args vs strategy)]).
Proof.
  intros vs strategy. rewrite VoteInputSchema_vote_args.
  split; [|split; [|split]].
  - destruct (build_proposal_starts vs) as [rest ->]. cbn [String.length]. lia.
  - intros H. apply Nat.leb_gt in H. now rewrite H.
  - intros H. apply Nat.leb_le in H. now rewrite H.
  - intros St caller w. apply voteOnQuality_calls.
Qed.

Lemma vote_args_conform_witness :
  (String.length (build_proposal []) <= 4000)%nat /\
  VoteInputSchema (JsObject (vote_args [] (Some unanimous))) =
  Some {| vi_proposal := build_proposal [];
          vi_strategy := Some unanimous;
          vi_quickMode := Some true;
          vi_simulateVotes := Some false |}.
Proof.
  assert (H : (String.length (build_proposal []) <= 4000)%nat)
    by (apply Nat.leb_le; vm_compute; reflexivity).
  split; [exact H|].
  exact (proj1 (proj2 (proj2 (vote_args_conform [] (Some unanimous)))) H).
Defined.

(** *** The proposal grows with the validation list *)

Lemma summary_line_length (v : RoutingValidation) :
  (31 <= String.length (summary_line v))%nat.
Proof.
  unfold summary_line. rewrite !length_append.
  assert (H1 : (6 <= String.length (TaskCategory_str (category v)))%nat).
  { destruct (category v); cbn; lia. }
  assert (H2 : (5 <= String.length (if correct v then "CORRECT" else "WRONG"))%nat).
  { destruct (correct v); cbn; lia. }
  cbn [String.length]. lia.
Qed.

Lemma list_sum_const {A : Type} (c : nat) (l : list A) :
  list_sum (map (fun _ => c) l) = (c * length l)%nat.
Proof.
  induction l as [|x l IH]; [cbn; lia|].
  cbn [map length]. change (list_sum (c :: ?t)) with (c + list_sum t)%nat.
  rewrite IH. lia.
Qed.

Lemma summary_length (vs : list RoutingValidation) :
  (32 * length vs <= S (String.length (join LF (map summary_line vs))))%nat.
Proof.
  pose proof (join_length LF (map summary_line vs) ltac:(cbn; lia)) as H.
  rewrite map_map in H.
  assert (H' : (list_sum (map (fun _ => 32%nat) vs)
                <= list_sum (map (fun v => S (String.length (summary_line v))) vs))%nat).
  { apply list_sum_le_map. apply Forall_forall. intros v _.
    pose proof (summary_line_length v). lia. }
  rewrite list_sum_const in H'. lia.
Qed.

Lemma build_proposal_length (vs : list RoutingValidation) :
  (85 + 32 * length vs <= String.length (build_proposal vs))%nat.
Proof.
  pose proof (summary_length vs) as H.
  unfold build_proposal. cbv zeta.
  rewrite !length_append. cbn [String.length]. 
  change (String.length LF) with 1%nat. lia.
Qed.

(** X4. For a hundred and twenty-three validations or more the proposal of
    [voteOnQuality] is longer than the 4000 code units [VoteInputSchema]
    allows, whatever the validations hold: the arguments sent never pass the
    schema of the tool's input. *)
Theorem vote_args_too_long :
  forall (vs : list RoutingValidation) (strategy : option VotingStrategy),
    (123 <= length vs)%nat ->
    (4000 < String.length (build_proposal vs))%nat /\
    VoteInputSchema (JsObject (vote_args vs strategy)) = None.
Proof.
  intros vs strategy Hlen.
  pose proof (build_proposal_length vs) as H.
  assert (Hlong : (4000 < String.length (build_proposal vs))%nat) by lia.
  split; [exact Hlong|].
  rewrite VoteInputSchema_vote_args. apply Nat.leb_gt in Hlong. now rewrite Hlong.
Qed.

Lemma vote_args_too_long_witness :
  let vs := repeat (Fixtures.validation devops "" "" false) 123 in
  (123 <= length vs)%nat /\
  (4000 < String.length (build_proposal vs))%nat /\
  VoteInputSchema (JsObject (vote_args vs None)) = None.
Proof.
  intros vs.
  assert (H : (123 <= length vs)%nat) by (vm_compute; lia).
  split; [exact H | exact (vote_args_too_long vs None H)].
Defined.

(** A hundred and twenty-two validations can still fit. *)
Example vote_args_122_fit :
  let vs := repeat (Fixtures.validation devops "" "" false) 122 in
  String.length (build_proposal vs) = 3994%nat /\
  VoteInputSchema (JsObject (vote_args vs None)) <> None.
Proof.
  intros vs. split; [vm_compute; reflexivity|].
  rewrite VoteInputSchema_vote_args.
  replace (String.length (build_proposal vs) <=? 4000)%nat with true
    by (vm_compute; reflexivity).
  discriminate.
Qed.

Lemma conforms_delegate_call (exp : RoutingExpectation) :
  conforms (delegate_call exp) = (1 <=? String.length (task exp))%nat.
Proof.
  unfold conforms, delegate_call. cbn [fst snd].
  change ("delegate_to_model" =? "delegate_to_model")%string with true. cbv iota.
  rewrite DelegateInputSchema_delegate_args.
  now destruct (1 <=? String.length (task exp))%nat.
Qed.

Lemma conforms_vote_call (vs : list RoutingValidation)
  (strategy : option VotingStrategy) :
  conforms ("consensus_vote", vote_args vs strategy)
  = (String.length (build_proposal vs) <=? 4000)%nat.
Proof.
  unfold conforms. cbn [fst snd].
  change ("consensus_vote" =? "delegate_to_model")%string with false.
  change ("consensus_vote" =? "weather_report")%string with false.
  change ("consensus_vote" =? "consensus_vote")%string with true. cbv iota.
  rewrite VoteInputSchema_vote_args.
  now destruct (String.length (build_proposal vs) <=? 4000)%nat.
Qed.

Lemma conforms_optional_calls (config : OracleConfig) (vs : list RoutingValidation) :
  forallb conforms (optional_calls config vs) =
  if is_true (includeVote config)
  then (String.length (build_proposal vs) <=? 4000)%nat else true.
Proof.
  unfold optional_calls.
  destruct (is_true (includeWeather config)), (is_true (includeVote config));
    cbn [app forallb]; rewrite ?conforms_vote_call, ?andb_true_r; reflexivity.
Qed.

(** X5. Every call a run issues carries arguments that the schema of its
    tool's input accepts exactly when no expectation has an empty task and,
    if the vote is requested, the proposal is at most 4000 code units long;
    the telemetry call always conforms. *)
Theorem runOraclePipeline_calls_conform :
  forall (St : Type) (caller : ToolCaller St) (config : OracleConfig) (w : World St),
    exists (report : OracleReport) (w' : World St) (issued : list Call),
      runOraclePipeline caller config w = (Fulfilled report, w') /\
      calls w' = calls w ++ issued /\
      (forallb conforms issued = true <->
       (forall exp : RoutingExpectation,
          In exp (expectations config) -> task exp <> "") /\
       (includeVote config = Some true ->
        (String.length (build_proposal (validations report)) <= 4000)%nat)).
Proof.
  intros St caller config w.
  rewrite runOraclePipeline_stages. eexists. eexists.
  exists (map delegate_call (expectations config)
          ++ optional_calls config
               (expected_validations caller (expectations config) (caller_state w))).
  split; [reflexivity|]. cbn [validations].
  split.
  { unfold optional_calls. destruct (is_true (includeVote config)).
    - rewrite voteOnQuality_calls, after_weather_calls. now rewrite <- !app_assoc.
    - rewrite after_weather_calls. now rewrite app_nil_r. }
  rewrite forallb_app, andb_true_iff, conforms_optional_calls.
  rewrite forallb_forall.
  split.
  - intros [Hd Hv]. split.
    + intros exp Hin Hempty.
      specialize (Hd (delegate_call exp) (in_map delegate_call _ _ Hin)).
      rewrite conforms_delegate_call, Hempty in Hd. discriminate.
    + intros Hvote. apply is_true_iff in Hvote. rewrite Hvote in Hv.
      now apply Nat.leb_le.
  - intros [Hd Hv]. split.
    + intros c Hin. apply in_map_iff in Hin. destruct Hin as [exp [<- Hin]].
      rewrite conforms_delegate_call. specialize (Hd exp Hin).
      destruct (task exp); [congruence | reflexivity].
    + destruct (is_true (includeVote config)) eqn:Hvote; [|reflexivity].
      apply is_true_iff in Hvote. apply Nat.leb_le. now apply Hv.
Qed.

Lemma runOraclePipeline_calls_conform_witness :
  exists (report : OracleReport) (w' : World unit) (issued : list Call),
    runOraclePipeline
      (Fixtures.createMockCaller
         [("delegate_to_model", Fixtures.MOCK_DELEGATE_ARCHITECTURE)])
      (Fixtures.config_of [Fixtures.EXPECT_ARCHITECTURE] (Some true) None)
      (Fixtures.start tt) = (Fulfilled report, w') /\
    calls w' = issued /\
    forallb conforms issued = true.
Proof.
  destruct (runOraclePipeline_calls_conform unit
              (Fixtures.createMockCaller
                 [("delegate_to_model", Fixtures.MOCK_DELEGATE_ARCHITECTURE)])
              (Fixtures.config_of [Fixtures.EXPECT_ARCHITECTURE] (Some true) None)
              (Fixtures.start tt))
    as [report [w' [issued [Hrun [Hcalls Hiff]]]]].
  exists report, w', issued.
  split; [exact Hrun|]. split; [exact Hcalls|].
  apply Hiff. split.
  - intros exp [<- | []]. discriminate.
  - discriminate.
Defined.

(** ** The schemas of the responses *)

(** *** What a schema returns, it accepts *)

Lemma z_string_again (v : JsValue) (s : string) :
  z_string v = Some s -> v = JsString s.
Proof. destruct v; cbn; congruence. Qed.

Lemma z_boolean_again (v : JsValue) (b : bool) :
  z_boolean v = Some b -> v = JsBool b.
Proof. destruct v; cbn; congruence. Qed.

Lemma z_number_again (v : JsValue) (x : number) :
  z_number v = Some x -> z_number (JsNumber x) = Some x.
Proof.
  destruct v as [| | |y| | |]; cbn [z_number]; try discriminate.
  destruct (is_NaN y) eqn:E; [discriminate|]. intros [= <-]. now rewrite E.
Qed.

Lemma z_enum_again {A : Type} (members : list A) (name : A -> string)
  (v : JsValue) (a : A) :
  z_enum members name v = Some a -> v = JsString (name a).
Proof.
  destruct v; cbn [z_enum]; try discriminate.
  intros H. apply find_some in H. destruct H as [_ H].
  apply String.eqb_eq in H. now subst.
Qed.

Lemma parse_all_again {A B : Type} (p : A -> option B) (f : B -> A) :
  (forall (x : A) (y : B), p x = Some y -> p (f y) = Some y) ->
  forall (xs : list A) (ys : list B),
    parse_all p xs = Some ys -> parse_all p (map f ys) = Some ys.
Proof.
  intros Hp xs. induction xs as [|x xs IH]; intros ys; cbn [parse_all].
  - intros [= <-]. reflexivity.
  - destruct (p x) as [y|] eqn:Ex; [|discriminate].
    destruct (parse_all p xs) as [ys'|]; [|discriminate].
    intros [= <-]. cbn [map parse_all].
    now rewrite (Hp x y Ex), (IH ys' eq_refl).
Qed.

Lemma z_array_again {A : Type} (p : JsValue -> option A) (f : A -> JsValue) :
  (forall (v : JsValue) (a : A), p v = Some a -> p (f a) = Some a) ->
  forall (v : JsValue) (l : list A),
    z_array p v = Some l -> z_array p (JsArray (map f l)) = Some l.
Proof.
  intros Hp v l. destruct v; cbn [z_array]; try discriminate.
  apply parse_all_again. exact Hp.
Qed.

Lemma parse_all_filter {A B : Type} (p : A -> option B) (keep : A -> bool)
  (keep' : B -> bool) :
  (forall (x : A) (y : B), p x = Some y -> keep x = keep' y) ->
  forall (xs : list A) (ys : list B),
    parse_all p xs = Some ys ->
    parse_all p (filter keep xs) = Some (filter keep' ys).
Proof.
  intros Hkeep xs. induction xs as [|x xs IH]; intros ys; cbn [parse_all filter].
  - intros [= <-]. reflexivity.
  - destruct (p x) as [y|] eqn:Ex; [|discriminate].
    destruct (parse_all p xs) as [ys'|]; [|discriminate].
    intros [= <-]. cbn [filter]. rewrite (Hkeep x y Ex).
    destruct (keep' y); cbn [parse_all]; [rewrite Ex|]; now rewrite (IH ys' eq_refl).
Qed.

Lemma filter_again {A : Type} (keep : A -> bool) (l : list A) :
  filter keep (filter keep l) = filter keep l.
Proof.
  induction l as [|x l IH]; cbn [filter]; [reflexivity|].
  destruct (keep x) eqn:E; cbn [filter]; [rewrite E|]; now rewrite IH.
Qed.

Lemma filter_plain_name_map {A B : Type} (f : A -> B) (l : list (string * A)) :
  filter plain_name (map (fun kv => (fst kv, f (snd kv))) l)
  = map (fun kv => (fst kv, f (snd kv))) (filter plain_name l).
Proof.
  induction l as [|[k x] l IH]; cbn [map filter fst snd]; [reflexivity|].
  change (plain_name (k, f x)) with (plain_name (k, x)).
  destruct (plain_name (k, x)); cbn [map fst snd]; now rewrite IH.
Qed.

Lemma z_record_again {A : Type} (p : JsValue -> option A) (f : A -> JsValue) :
  (forall (v : JsValue) (a : A), p v = Some a -> p (f a) = Some a) ->
  forall (v : JsValue) (l : list (string * A)),
    z_record p v = Some l ->
    z_record p (JsObject (map (fun kv => (fst kv, f (snd kv))) l)) = Some l.
Proof.
  intros Hp v l. destruct v as [| | | | | |props]; cbn [z_record]; try discriminate.
  destruct (parse_all _ props) as [parsed|] eqn:E; [|discriminate].
  intros [= <-].
  apply (parse_all_again _ (fun kv => (fst kv, f (snd kv)))) in E.
  - rewrite <- filter_plain_name_map.
    assert (Hkeep : forall (x : string * JsValue) (y : string * A),
               match p (snd x) with
               | Some a => Some (fst x, a)
               | None => None
               end = Some y -> plain_name x = plain_name y).
    { intros [k x] [k' a]. cbn [fst snd].
      destruct (p x) as [a'|]; [|discriminate]. now intros [= <- <-]. }
    rewrite (parse_all_filter _ plain_name plain_name Hkeep _ _ E).
    now rewrite filter_again.
  - intros [k x] [k' a]. cbn [fst snd].
    destruct (p x) as [a'|] eqn:Ex; [|discriminate].
    intros [= <- <-]. now rewrite (Hp x a' Ex).
Qed.

Lemma z_record_unknown_again (v : JsValue) (l : list (string * JsValue)) :
  z_record z_unknown v = Some l -> z_record z_unknown (JsObject l) = Some l.
Proof.
  intros H.
  pose proof (z_record_again z_unknown (fun x => x)
                (fun x a _ => eq_refl) v l H) as H'.
  assert (Eid : map (fun kv : string * JsValue => (fst kv, snd kv)) l = l).
  { clear. induction l as [|[k x] l IH]; cbn [map fst snd]; [reflexivity|].
    now rewrite IH. }
  cbv beta in H'. rewrite Eid in H'. exact H'.
Qed.

Lemma z_optional_some {A : Type} (p : JsValue -> option A) (v : JsValue) (a : A) :
  z_optional p v = Some (Some a) -> p v = Some a.
Proof.
  unfold z_optional. destruct v; try discriminate;
    (destruct (p _) as [a'|]; [|discriminate]); now intros [= <-].
Qed.

(** Takes a successful parse apart, field by field. *)
Ltac parsed H :=
  repeat match type of H with
         | match ?e with Some _ => _ | None => None end = Some _ =>
             let E := fresh "E" in destruct e eqn:E; [|discriminate H]
         end;
  injection H as <-.

Ltac again :=
  repeat match goal with
         | E : z_string _ = Some _ |- _ => apply z_string_again in E
         | E : z_boolean _ = Some _ |- _ => apply z_boolean_again in E
         | E : z_enum _ _ _ = Some _ |- _ => apply z_enum_again in E
         | E : z_number _ = Some ?x |- context [z_number (JsNumber ?x)] =>
             rewrite (z_number_again _ _ E)
         end.

Lemma CapabilitiesSchema_again (v : JsValue) (c : Capabilities) :
  CapabilitiesSchema v = Some c -> CapabilitiesSchema (Capabilities_to_js c) = Some c.
Proof.
  destruct v as [| | | | | |o]; try discriminate.
  unfold CapabilitiesSchema, z_object. intros H. parsed H.
  unfold Capabilities_to_js.
  cbn [get_prop String.eqb Ascii.eqb Bool.eqb andb cap_reasoning_score
       cap_contextWindow cap_codeGeneration cap_speed_score cap_cost].
  again. reflexivity.
Qed.

Lemma AlternativeSchema_again (v : JsValue) (a : Alternative) :
  AlternativeSchema v = Some a -> AlternativeSchema (Alternative_to_js a) = Some a.
Proof.
  destruct v as [| | | | | |o]; try discriminate.
  unfold AlternativeSchema, z_object. intros H. parsed H.
  unfold Alternative_to_js.
  cbn [get_prop String.eqb Ascii.eqb Bool.eqb andb alt_model alt_score alt_tradeoff
       z_string].
  again. reflexivity.
Qed.

Lemma GovernanceSchema_again (v : JsValue) (g : Governance) :
  GovernanceSchema v = Some g -> GovernanceSchema (Governance_to_js g) = Some g.
Proof.
  destruct v as [| | | | | |o]; try discriminate.
  unfold GovernanceSchema, z_object. intros H. parsed H. reflexivity.
Qed.

(** X7. What [DelegateResponseSchema] returns is a routing response the
    schema accepts as it is: parsing the parsed value again changes
    nothing. *)
Theorem DelegateResponseSchema_idempotent :
  forall (raw : JsValue) (r : DelegateResponse),
    DelegateResponseSchema raw = Some r ->
    DelegateResponseSchema (DelegateResponse_to_js r) = Some r.
Proof.
  intros raw r.
  destruct raw as [| | | | | |o]; try discriminate.
  unfold DelegateResponseSchema at 1, z_object. intros H. parsed H.
  unfold DelegateResponseSchema, z_object, DelegateResponse_to_js.
  cbn [recommended_model dr_reasoning dr_capabilities estimated_tokens
       dr_alternatives dr_governance].
  match goal with
  | E : z_optional GovernanceSchema _ = Some ?g |- _ =>
      destruct g as [g|];
      [apply z_optional_some, GovernanceSchema_again in E|]
  end;
    cbn [app optional_prop get_prop String.eqb Ascii.eqb Bool.eqb andb z_string];
    repeat match goal with
           | E : CapabilitiesSchema _ = Some _ |- _ =>
               rewrite (CapabilitiesSchema_again _ _ E); clear E
           | E : z_array AlternativeSchema _ = Some _ |- _ =>
               rewrite (z_array_again _ _ AlternativeSchema_again _ _ E); clear E
           end;
    again.
  - unfold z_optional, Governance_to_js at 1.
    match goal with E : GovernanceSchema _ = Some _ |- _ => rewrite E end.
    reflexivity.
  - reflexivity.
Qed.

Lemma CategoryStatsSchema_again (v : JsValue) (c : CategoryStats) :
  CategoryStatsSchema v = Some c -> CategoryStatsSchema (CategoryStats_to_js c) = Some c.
Proof.
  destruct v as [| | | | | |o]; try discriminate.
  unfold CategoryStatsSchema, z_object. intros H. parsed H.
  unfold CategoryStats_to_js.
  cbn [get_prop String.eqb Ascii.eqb Bool.eqb andb cs_count cs_successRate
       cs_avgDurationMs].
  again. reflexivity.
Qed.

Lemma CliWeatherSchema_again (v : JsValue) (c : CliWeather) :
  CliWeatherSchema v = Some c -> CliWeatherSchema (CliWeather_to_js c) = Some c.
Proof.
  destruct v as [| | | | | |o]; try discriminate.
  unfold CliWeatherSchema, z_object. intros H. parsed H.
  unfold CliWeather_to_js.
  cbn [get_prop String.eqb Ascii.eqb Bool.eqb andb cw_cli cw_totalTasks
       cw_successRate cw_avgDurationMs cw_byCategory z_string].
  match goal with
  | E : z_record CategoryStatsSchema _ = Some _ |- _ =>
      rewrite (z_record_again _ _ CategoryStatsSchema_again _ _ E)
  end.
  again. reflexivity.
Qed.

Lemma AdaptiveBonusSchema_again (v : JsValue) (b : AdaptiveBonus) :
  AdaptiveBonusSchema v = Some b -> AdaptiveBonusSchema (AdaptiveBonus_to_js b) = Some b.
Proof.
  destruct v as [| | | | | |o]; try discriminate.
  unfold AdaptiveBonusSchema, z_object. intros H. parsed H.
  unfold AdaptiveBonus_to_js.
  cbn [get_prop String.eqb Ascii.eqb Bool.eqb andb ab_cli ab_category
       ab_staticBonus ab_adaptiveBonus ab_sampleCount ab_sufficient z_string z_boolean].
  again. reflexivity.
Qed.

Lemma RecommendedMappingSchema_again (v : JsValue) (m : RecommendedMapping) :
  RecommendedMappingSchema v = Some m ->
  RecommendedMappingSchema (RecommendedMapping_to_js m) = Some m.
Proof.
  destruct v as [| | | | | |o]; try discriminate.
  unfold RecommendedMappingSchema, z_object. intros H. parsed H.
  unfold RecommendedMapping_to_js.
  cbn [get_prop String.eqb Ascii.eqb Bool.eqb andb rm_category recommendedCli
       rm_successRate rm_sampleCount rm_confidence z_string].
  again. reflexivity.
Qed.

Lemma OverallSchema_again (v : JsValue) (o : Overall) :
  OverallSchema v = Some o ->
  OverallSchema
    (JsObject [("totalTasks", JsNumber (ov_totalTasks o));
               ("successRate", JsNumber (ov_successRate o));
               ("avgDurationMs", JsNumber (ov_avgDurationMs o))]) = Some o.
Proof.
  destruct v as [| | | | | |props]; try discriminate.
  unfold OverallSchema, z_object. intros H. parsed H.
  cbn [get_prop String.eqb Ascii.eqb Bool.eqb andb ov_totalTasks ov_successRate
       ov_avgDurationMs].
  again. reflexivity.
Qed.

Lemma records_again (v : JsValue) (l : list (list (string * JsValue))) :
  z_array (z_record z_unknown) v = Some l ->
  z_array (z_record z_unknown) (JsArray (map JsObject l)) = Some l.
Proof. apply z_array_again. exact z_record_unknown_again. Qed.

(** X8. What [WeatherResponseSchema] returns is a telemetry snapshot the
    schema accepts as it is, with its optional lists present or absent as
    they were. *)
Theorem WeatherResponseSchema_idempotent :
  forall (raw : JsValue) (w : WeatherResponse),
    WeatherResponseSchema raw = Some w ->
    WeatherResponseSchema (WeatherResponse_to_js w) = Some w.
Proof.
  intros raw w.
  destruct raw as [| | | | | |o]; try discriminate.
  unfold WeatherResponseSchema at 1, z_object. intros H. parsed H.
  unfold WeatherResponseSchema, z_object, WeatherResponse_to_js.
  cbn [overall cliWeather adaptiveBonuses tierRecommendations learningInsights
       recommendedMappings explorationRate coldStartThreshold collectedAt].
  repeat match goal with
         | E : z_optional _ _ = Some ?x |- _ =>
             destruct x; [apply z_optional_some in E|clear E]
         end;
    cbn [app optional_prop get_prop String.eqb Ascii.eqb Bool.eqb andb z_string];
    repeat match goal with
           | E : OverallSchema _ = Some _ |- _ =>
               rewrite (OverallSchema_again _ _ E); clear E
           | E : z_array CliWeatherSchema _ = Some _ |- _ =>
               rewrite (z_array_again _ _ CliWeatherSchema_again _ _ E); clear E
           | E : z_array AdaptiveBonusSchema _ = Some _ |- _ =>
               rewrite (z_array_again _ _ AdaptiveBonusSchema_again _ _ E); clear E
           | E : z_array (z_record z_unknown) _ = Some ?l
             |- context [z_optional (z_array (z_record z_unknown)) (JsArray (map JsObject ?l))] =>
               unfold z_optional at 1; rewrite (records_again _ _ E); clear E
           | E : z_array (z_record z_unknown) _ = Some ?l |- _ =>
               rewrite (records_again _ _ E); clear E
           | E : z_array RecommendedMappingSchema _ = Some _ |- _ =>
               unfold z_optional;
               rewrite (z_array_again _ _ RecommendedMappingSchema_again _ _ E); clear E
           end;
    again; reflexivity.
Qed.

Lemma VoteCountsSchema_again (v : JsValue) (c : VoteCounts) :
  VoteCountsSchema v = Some c ->
  VoteCountsSchema
    (JsObject [("approve", JsNumber (vc_approve c));
               ("reject", JsNumber (vc_reject c));
               ("abstain", JsNumber (vc_abstain c));
               ("error", JsNumber (vc_error c))]) = Some c.
Proof.
  destruct v as [| | | | | |props]; try discriminate.
  unfold VoteCountsSchema, z_object. intros H. parsed H.
  cbn [get_prop String.eqb Ascii.eqb Bool.eqb andb vc_approve vc_reject vc_abstain
       vc_error].
  again. reflexivity.
Qed.

Lemma z_enum_agent_decision (d : AgentDecision) :
  z_enum [approve; reject; abstain] AgentDecision_str (JsString (AgentDecision_str d))
  = Some d.
Proof. destruct d; reflexivity. Qed.

Lemma z_enum_vote_decision (d : VoteDecision) :
  z_enum [approved; rejected; pending; timeout] VoteDecision_str
         (JsString (VoteDecision_str d)) = Some d.
Proof. destruct d; reflexivity. Qed.

Lemma AgentVoteSchema_again (v : JsValue) (a : AgentVote) :
  AgentVoteSchema v = Some a -> AgentVoteSchema (AgentVote_to_js a) = Some a.
Proof.
  destruct v as [| | | | | |o]; try discriminate.
  unfold AgentVoteSchema, z_object. intros H. parsed H.
  unfold AgentVote_to_js.
  cbn [get_prop String.eqb Ascii.eqb Bool.eqb andb av_role av_decision av_confidence
       av_reasoning av_simulated av_error z_string z_boolean].
  rewrite z_enum_agent_decision.
  again. reflexivity.
Qed.

(** X9. What [VoteResponseSchema] returns is a vote outcome the schema
    accepts as it is. *)
Theorem VoteResponseSchema_idempotent :
  forall (raw : JsValue) (v : VoteResponse),
    VoteResponseSchema raw = Some v ->
    VoteResponseSchema (VoteResponse_to_js v) = Some v.
Proof.
  intros raw v.
  destruct raw as [| | | | | |o]; try discriminate.
  unfold VoteResponseSchema at 1, z_object. intros H. parsed H.
  unfold VoteResponseSchema, z_object, VoteResponse_to_js.
  cbn [get_prop String.eqb Ascii.eqb Bool.eqb andb vr_proposal vr_strategy
       vr_decision approvalPercentage voteCounts votes durationMs vr_simulateVotes
       z_string z_boolean].
  rewrite z_enum_strategy, z_enum_vote_decision.
  repeat match goal with
         | E : VoteCountsSchema _ = Some _ |- _ =>
             rewrite (VoteCountsSchema_again _ _ E); clear E
         | E : z_array AgentVoteSchema _ = Some _ |- _ =>
             rewrite (z_array_again _ _ AgentVoteSchema_again _ _ E); clear E
         end.
  again. reflexivity.
Qed.

Lemma DelegateResponseSchema_idempotent_witness :
  exists r : DelegateResponse,
    DelegateResponseSchema Fixtures.MOCK_DELEGATE_ARCHITECTURE = Some r /\
    DelegateResponseSchema (DelegateResponse_to_js r) = Some r.
Proof.
  eexists. split; [vm_compute; reflexivity|].
  apply (DelegateResponseSchema_idempotent Fixtures.MOCK_DELEGATE_ARCHITECTURE).
  vm_compute. reflexivity.
Defined.

Lemma WeatherResponseSchema_idempotent_witness :
  exists w : WeatherResponse,
    WeatherResponseSchema Fixtures.MOCK_WEATHER_MAPPED = Some w /\
    WeatherResponseSchema (WeatherResponse_to_js w) = Some w.
Proof.
  eexists. split; [vm_compute; reflexivity|].
  apply (WeatherResponseSchema_idempotent Fixtures.MOCK_WEATHER_MAPPED).
  vm_compute. reflexivity.
Defined.

Lemma VoteResponseSchema_idempotent_witness :
  exists v : VoteResponse,
    VoteResponseSchema Fixtures.MOCK_VOTE_APPROVED = Some v /\
    VoteResponseSchema (VoteResponse_to_js v) = Some v.
Proof.
  eexists. split; [vm_compute; reflexivity|].
  apply (VoteResponseSchema_idempotent Fixtures.MOCK_VOTE_APPROVED).
  vm_compute. reflexivity.
Defined.

(** ** The accuracy at its two ends *)

Section Extremes.

Local Open Scope Z_scope.

(** A normal number divided by itself is one. *)
Lemma num_div_self (m : positive) (e : Z) :
  2 ^ 52 <= Zpos m < 2 ^ 53 ->
  num_div (S754_finite false m e) (S754_finite false m e) = num_one.
Proof.
  intros Hm. unfold num_div, SFdiv, SFdiv_core_binary. cbn [xorb].
  rewrite (Zdigits2_unique (Zpos m) 53) by lia.
  rewrite fexp_eq.
  replace (Z.min (Z.max (53 + e - (53 + e) - 53) (-1074)) (e - e)) with (-53) by lia.
  replace (e - e - -53) with 53 by lia.
  rewrite Z.shiftl_mul_pow2 by lia.
  assert (Hdiv : Z.div_eucl (Zpos m * 2 ^ 53) (Zpos m) = (2 ^ 53, 0)).
  { pose proof (Z_div_mod (Zpos m * 2 ^ 53) (Zpos m) ltac:(lia)) as H.
    destruct (Z.div_eucl _ _) as [q r]. destruct H as [Hq Hr].
    assert (q = 2 ^ 53) by nia. f_equal; nia. }
  rewrite Hdiv, new_location_zero. reflexivity.
Qed.

Lemma accuracy_of_counts_all (n : nat) :
  (0 < n)%nat -> Z.of_nat n < 2 ^ 53 -> accuracy_of_counts n n = num_one.
Proof.
  intros Hn Hbig. unfold accuracy_of_counts, Number_of_nat.
  destruct (Number_of_Z_normal (Z.of_nat n) ltac:(lia)) as [m [e [-> [Hm _]]]].
  rewrite num_div_self by exact Hm. reflexivity.
Qed.

Lemma accuracy_of_counts_none (n : nat) :
  (0 < n)%nat -> Z.of_nat n < 2 ^ 53 -> accuracy_of_counts 0 n = num_zero.
Proof.
  intros Hn Hbig. unfold accuracy_of_counts, Number_of_nat.
  destruct (Number_of_Z_normal (Z.of_nat n) ltac:(lia)) as [m [e [-> _]]].
  reflexivity.
Qed.

End Extremes.

Lemma filter_all {A : Type} (p : A -> bool) (l : list A) :
  (forall x, In x l -> p x = true) -> filter p l = l.
Proof.
  induction l as [|x l IH]; intros H; [reflexivity|].
  cbn [filter]. rewrite (H x (or_introl eq_refl)).
  f_equal. apply IH. intros y Hy. apply H. now right.
Qed.

Lemma filter_none {A : Type} (p : A -> bool) (l : list A) :
  (forall x, In x l -> p x = false) -> filter p l = [].
Proof.
  induction l as [|x l IH]; intros H; [reflexivity|].
  cbn [filter]. rewrite (H x (or_introl eq_refl)).
  apply IH. intros y Hy. apply H. now right.
Qed.

Lemma computeAccuracy_all_correct (vs : list RoutingValidation) :
  vs <> [] -> (Z.of_nat (length vs) < 2 ^ 53)%Z ->
  (forall v, In v vs -> correct v = true) -> computeAccuracy vs = num_one.
Proof.
  intros Hne Hbig H.
  assert (Hn : (0 < length vs)%nat) by (destruct vs; [congruence | cbn; lia]).
  rewrite (computeAccuracy_counts vs Hne). unfold count_correct.
  rewrite (filter_all _ _ H). now apply accuracy_of_counts_all.
Qed.

Lemma computeAccuracy_none_correct (vs : list RoutingValidation) :
  (Z.of_nat (length vs) < 2 ^ 53)%Z ->
  (forall v, In v vs -> correct v = false) -> computeAccuracy vs = num_zero.
Proof.
  intros Hbig H. destruct vs as [|v vs]; [reflexivity|].
  rewrite computeAccuracy_counts by discriminate. unfold count_correct.
  rewrite (filter_none _ _ H). cbn [length].
  apply accuracy_of_counts_none; [cbn; lia | exact Hbig].
Qed.

Lemma getMisrouted_none_correct (vs : list RoutingValidation) :
  forall v, In v (getMisrouted vs) -> correct v = false.
Proof.
  intros v Hv. apply filter_In in Hv. destruct Hv as [_ Hv].
  now apply negb_true_iff in Hv.
Qed.

(** X10. When every validation of a non-empty list is correct,
    [computeAccuracy] is exactly 1; when none is, it is exactly 0. *)
Theorem computeAccuracy_extremes :
  forall vs : list RoutingValidation,
    vs <> [] -> (Z.of_nat (length vs) < 2 ^ 53)%Z ->
    ((forall v, In v vs -> correct v = true) ->
     computeAccuracy vs = num_one /\ Number_toString (computeAccuracy vs) = "1") /\
    ((forall v, In v vs -> correct v = false) ->
     computeAccuracy vs = num_zero /\ Number_toString (computeAccuracy vs) = "0").
Proof.
  intros vs Hne Hbig. split; intros H.
  - rewrite (computeAccuracy_all_correct vs Hne Hbig H). split; reflexivity.
  - rewrite (computeAccuracy_none_correct vs Hbig H). split; reflexivity.
Qed.

Lemma computeAccuracy_extremes_witness :
  let vs := [Fixtures.validation architecture "claude-opus" "claude" true;
             Fixtures.validation testing "codex-5.3" "codex" true] in
  computeAccuracy vs = num_one /\ Number_toString (computeAccuracy vs) = "1".
Proof.
  intros vs.
  apply (proj1 (computeAccuracy_extremes vs ltac:(discriminate)
                  ltac:(vm_compute; reflexivity))).
  intros v [<- | [<- | []]]; reflexivity.
Defined.

(** X11. Every validation is either counted correct or listed by
    [getMisrouted], never both: the two counts add up to the length of the
    list, and what [getMisrouted] returns holds nothing correct, so that
    filtering it again changes nothing and its accuracy is 0. *)
Theorem getMisrouted_partition :
  forall vs : list RoutingValidation,
    (count_correct vs + length (getMisrouted vs) = length vs)%nat /\
    count_correct (getMisrouted vs) = 0%nat /\
    getMisrouted (getMisrouted vs) = getMisrouted vs /\
    ((Z.of_nat (length vs) < 2 ^ 53)%Z -> computeAccuracy (getMisrouted vs) = num_zero).
Proof.
  intros vs.
  pose proof (getMisrouted_none_correct vs) as Hall.
  split; [|split; [|split]].
  - clear Hall. unfold count_correct, getMisrouted.
    induction vs as [|v vs IH]; [reflexivity|].
    cbn [filter length]. destruct (correct v); cbn [negb length]; lia.
  - unfold count_correct. now rewrite (filter_none _ _ Hall).
  - unfold getMisrouted at 1. apply filter_all. intros v Hv.
    now rewrite (Hall v Hv).
  - intros Hbig. apply computeAccuracy_none_correct; [|exact Hall].
    pose proof (filter_length_le (fun v => negb (correct v)) vs) as Hlen.
    unfold getMisrouted. lia.
Qed.

Lemma getMisrouted_partition_witness :
  let vs := [Fixtures.validation architecture "claude-opus" "claude" true;
             Fixtures.validation testing "gemini-flash" "codex" false] in
  (Z.of_nat (length vs) < 2 ^ 53)%Z /\
  computeAccuracy (getMisrouted vs) = num_zero.
Proof.
  intros vs.
  assert (H : (Z.of_nat (length vs) < 2 ^ 53)%Z) by (vm_compute; reflexivity).
  split; [exact H|].
  exact (proj2 (proj2 (proj2 (getMisrouted_partition vs))) H).
Defined.

(** ** When every routing call fails *)

Lemma validation_of_failed (exp : RoutingExpectation) (r : Settled JsValue) :
  routing_failed r -> validation_of exp r = error_validation exp.
Proof.
  destruct r as [raw|e]; cbn [routing_failed validation_of]; [|reflexivity].
  now intros ->.
Qed.

Lemma validations_all_failed (exps : list RoutingExpectation) :
  forall rs : list (Settled JsValue),
    length rs = length exps -> Forall routing_failed rs ->
    map (fun p => validation_of (fst p) (snd p)) (combine exps rs)
    = map error_validation exps.
Proof.
  induction exps as [|exp exps IH]; intros [|r rs] Hlen Hall; try discriminate.
  - reflexivity.
  - inversion Hall as [|? ? Hr Hrs]; subst.
    cbn [combine map fst snd]. rewrite (validation_of_failed exp r Hr).
    f_equal. apply IH; [now injection Hlen | exact Hrs].
Qed.

(** X12. When every routing call of a run fails, by rejecting or by
    returning what is not a routing response, the report holds the
    synthetic validation of each expectation, in order; its accuracy is 0,
    and [getMisrouted] returns all of its validations. *)
Theorem runOraclePipeline_all_routing_failed :
  forall (St : Type) (caller : ToolCaller St) (config : OracleConfig) (w : World St),
    (Z.of_nat (length (expectations config)) < 2 ^ 53)%Z ->
    Forall routing_failed
           (fst (routing_outcomes caller (expectations config) (caller_state w))) ->
    exists (report : OracleReport) (w' : World St),
      runOraclePipeline caller config w = (Fulfilled report, w') /\
      validations report = map error_validation (expectations config) /\
      accuracy report = num_zero /\
      getMisrouted (validations report) = validations report.
Proof.
  intros St caller config w Hbig Hall.
  rewrite runOraclePipeline_stages. eexists. eexists.
  split; [reflexivity|]. cbn [validations accuracy].
  assert (E : expected_validations caller (expectations config) (caller_state w)
              = map error_validation (expectations config)).
  { unfold expected_validations. apply validations_all_failed; [|exact Hall].
    apply routing_outcomes_length. }
  rewrite E.
  assert (Hnone : forall v, In v (map error_validation (expectations config)) ->
                            correct v = false).
  { intros v Hv. apply in_map_iff in Hv. now destruct Hv as [exp [<- _]]. }
  split; [reflexivity|]. split.
  - apply computeAccuracy_none_correct; [now rewrite length_map | exact Hnone].
  - unfold getMisrouted. apply filter_all. intros v Hv. now rewrite (Hnone v Hv).
Qed.

Lemma runOraclePipeline_all_routing_failed_witness :
  exists (report : OracleReport) (w' : World unit),
    runOraclePipeline Fixtures.failing_caller
      (Fixtures.config_of [Fixtures.EXPECT_ARCHITECTURE; Fixtures.EXPECT_CODE_GENERATION]
                          (Some true) (Some true))
      (Fixtures.start tt) = (Fulfilled report, w') /\
    validations report
      = map error_validation [Fixtures.EXPECT_ARCHITECTURE; Fixtures.EXPECT_CODE_GENERATION] /\
    accuracy report = num_zero /\
    getMisrouted (validations report) = validations report.
Proof.
  apply (runOraclePipeline_all_routing_failed unit Fixtures.failing_caller
           (Fixtures.config_of
              [Fixtures.EXPECT_ARCHITECTURE; Fixtures.EXPECT_CODE_GENERATION]
              (Some true) (Some true))
           (Fixtures.start tt)).
  - vm_compute. reflexivity.
  - repeat constructor.
Defined.

(** ** The matching rule at its edges *)

Lemma substring_empty (s : string) : substring "" s.
Proof. exists "", s. reflexivity. Qed.

Lemma substring_refl (s : string) : substring s s.
Proof. exists "", "". cbn [append]. now rewrite append_nil_r. Qed.

(** X13. The bidirectional containment of [routeAndValidate] at its edges:
    with no acceptable model nothing is correct; a recommendation that is
    one of the acceptable models is correct; an empty recommendation is
    correct as soon as there is an acceptable model, and so is any
    recommendation when the empty string is among the acceptable models. *)
Theorem routeAndValidate_matching_edges :
  forall (St : Type) (caller : ToolCaller St) (exp : RoutingExpectation)
         (w : World St) (raw : JsValue) (s' : St) (result : DelegateResponse),
    call caller "delegate_to_model" (delegate_args exp) (caller_state w)
      = (Fulfilled raw, s') ->
    DelegateResponseSchema raw = Some result ->
    exists (v : RoutingValidation) (w' : World St),
      routeAndValidate caller exp w = (Fulfilled v, w') /\
      (acceptableModels exp = [] -> correct v = false) /\
      (In (recommended_model result) (acceptableModels exp) -> correct v = true) /\
      (recommended_model result = "" -> acceptableModels exp <> [] ->
       correct v = true) /\
      (In "" (acceptableModels exp) -> correct v = true).
Proof.
  intros St caller exp w raw s' result Hcall Hparse.
  rewrite routeAndValidate_run, Hcall, Hparse.
  eexists. eexists. split; [reflexivity|].
  split; [|split; [|split]].
  - intros E. cbn [validated correct]. now rewrite E.
  - intros Hin. apply validated_correct_iff.
    exists (recommended_model result). split; [exact Hin|].
    left. apply substring_refl.
  - intros E Hne. apply validated_correct_iff.
    destruct (acceptableModels exp) as [|m ms] eqn:Em; [congruence|].
    exists m. unfold acceptable. rewrite Em. split; [now left|].
    right. rewrite E. apply substring_empty.
  - intros Hin. apply validated_correct_iff.
    exists "". split; [exact Hin|]. left. apply substring_empty.
Qed.

Lemma routeAndValidate_matching_edges_witness :
  exists (v : RoutingValidation) (w' : World unit),
    routeAndValidate
      (Fixtures.createMockCaller
         [("delegate_to_model", Fixtures.MOCK_DELEGATE_ARCHITECTURE)])
      Fixtures.EXPECT_ARCHITECTURE (Fixtures.start tt) = (Fulfilled v, w') /\
    (acceptableModels Fixtures.EXPECT_ARCHITECTURE = [] -> correct v = false) /\
    (In "claude-opus" (acceptableModels Fixtures.EXPECT_ARCHITECTURE) ->
     correct v = true) /\
    ("claude-opus" = "" -> acceptableModels Fixtures.EXPECT_ARCHITECTURE <> [] ->
     correct v = true) /\
    (In "" (acceptableModels Fixtures.EXPECT_ARCHITECTURE) -> correct v = true).
Proof.
  exact (routeAndValidate_matching_edges unit
           (Fixtures.createMockCaller
              [("delegate_to_model", Fixtures.MOCK_DELEGATE_ARCHITECTURE)])
           Fixtures.EXPECT_ARCHITECTURE (Fixtures.start tt)
           Fixtures.MOCK_DELEGATE_ARCHITECTURE tt _ eq_refl eq_refl).
Defined.

(** ** One batch, or two in a row *)

Section Batches.

Context {St : Type} (caller : ToolCaller St).

Lemma routing_outcomes_app (a b : list RoutingExpectation) :
  forall s : St,
    routing_outcomes caller (a ++ b) s =
    (fst (routing_outcomes caller a s)
     ++ fst (routing_outcomes caller b (snd (routing_outcomes caller a s))),
     snd (routing_outcomes caller b (snd (routing_outcomes caller a s)))).
Proof.
  induction a as [|exp a IH]; intros s.
  - cbn [app routing_outcomes fst snd]. now destruct (routing_outcomes caller b s).
  - cbn [app routing_outcomes].
    destruct (call caller "delegate_to_model" (delegate_args exp) s) as [r s1].
    rewrite IH.
    destruct (routing_outcomes caller a s1) as [ra s2]. cbn [fst snd].
    destruct (routing_outcomes caller b s2) as [rb s3]. reflexivity.
Qed.

Lemma combine_app_same_length {A B : Type} (a a' : list A) (b b' : list B) :
  length a = length b -> combine (a ++ a') (b ++ b') = combine a b ++ combine a' b'.
Proof.
  revert b. induction a as [|x a IH]; intros [|y b] H; try discriminate.
  - reflexivity.
  - cbn [app combine]. f_equal. apply IH. now injection H.
Qed.

Lemma expected_validations_app (a b : list RoutingExpectation) (s : St) :
  expected_validations caller (a ++ b) s =
  expected_validations caller a s
  ++ expected_validations caller b (snd (routing_outcomes caller a s)).
Proof.
  unfold expected_validations. rewrite routing_outcomes_app. cbn [fst].
  rewrite combine_app_same_length by (symmetry; apply routing_outcomes_length).
  apply map_app.
Qed.

End Batches.

(** X14. Routing a batch in one run gives what routing its first part and
    then, from where that run left the caller, its second part gives: the
    validations of the one run are those of the two runs, one after the
    other, and the telemetry snapshot is that of the second. *)
Theorem runOraclePipeline_batches :
  forall (St : Type) (caller : ToolCaller St) (a b : list RoutingExpectation)
         (weather_too vote_too : option bool)
         (strategy : option VotingStrategy) (w : World St),
    let config exps iw iv :=
      {| expectations := exps; includeWeather := iw; includeVote := iv;
         voteStrategy := strategy |} in
    exists (first second whole : OracleReport) (w1 w2 w' : World St),
      runOraclePipeline caller (config a None None) w = (Fulfilled first, w1) /\
      runOraclePipeline caller (config b weather_too vote_too) w1
        = (Fulfilled second, w2) /\
      runOraclePipeline caller (config (a ++ b) weather_too vote_too) w
        = (Fulfilled whole, w') /\
      validations whole = validations first ++ validations second /\
      weather whole = weather second.
Proof.
  intros St caller a b iw iv vs w config.
  do 6 eexists.
  split; [exact (runOraclePipeline_stages caller (config a None None) w)|].
  split; [exact (runOraclePipeline_stages caller (config b iw iv) _)|].
  split; [exact (runOraclePipeline_stages caller (config (a ++ b) iw iv) w)|].
  subst config.
  cbn [validations weather expectations includeWeather includeVote is_true
       after_weather after_routing caller_state calls].
  split.
  - apply expected_validations_app.
  - destruct (is_true iw); [|reflexivity].
    rewrite !fetchWeather_run. cbn [after_routing expectations caller_state calls].
    rewrite routing_outcomes_app. cbn [snd].
    destruct (call caller "weather_report" _ _) as [[raw|e] s']; [|reflexivity].
    destruct (WeatherResponseSchema raw); reflexivity.
Qed.

(** ** A caller whose answers do not depend on its history *)

Lemma expected_validations_history_free {St : Type} (caller : ToolCaller St)
  (exps : list RoutingExpectation) :
  history_free caller ->
  forall s s0 : St,
    expected_validations caller exps s =
    map (fun exp =>
           validation_of exp
             (fst (call caller "delegate_to_model" (delegate_args exp) s0)))
        exps.
Proof.
  intros Hfree. unfold expected_validations.
  induction exps as [|exp exps IH]; intros s s0; [reflexivity|].
  cbn [routing_outcomes].
  pose proof (Hfree "delegate_to_model" (delegate_args exp) s s0) as Hr.
  destruct (call caller "delegate_to_model" (delegate_args exp) s) as [r s1].
  specialize (IH s1 s0).
  destruct (routing_outcomes caller exps s1) as [rs s2].
  cbn [fst snd combine map] in *. now rewrite IH, Hr.
Qed.

Lemma count_correct_Permutation (l l' : list RoutingValidation) :
  Permutation l l' -> count_correct l = count_correct l'.
Proof.
  unfold count_correct. intros H.
  induction H as [|x l l' _ IH|x y l|l l' l'' _ IH1 _ IH2].
  - reflexivity.
  - cbn [filter]. destruct (correct x); cbn [length]; now rewrite IH.
  - cbn [filter]. destruct (correct x), (correct y); reflexivity.
  - now rewrite IH1.
Qed.

Lemma computeAccuracy_Permutation (l l' : list RoutingValidation) :
  Permutation l l' -> computeAccuracy l = computeAccuracy l'.
Proof.
  intros H. unfold computeAccuracy.
  now rewrite (Permutation_length H), (count_correct_Permutation l l' H).
Qed.

(** X15. With a caller whose answers do not depend on what it was asked
    before, the order of the expectations does not matter: reordering them
    reorders the validations of the report in the same way and leaves the
    accuracy as it is. *)
Theorem runOraclePipeline_order_independent :
  forall (St : Type) (caller : ToolCaller St) (config config' : OracleConfig)
         (w : World St),
    history_free caller ->
    Permutation (expectations config) (expectations config') ->
    exists (report report' : OracleReport) (w1 w1' : World St),
      runOraclePipeline caller config w = (Fulfilled report, w1) /\
      runOraclePipeline caller config' w = (Fulfilled report', w1') /\
      Permutation (validations report) (validations report') /\
      accuracy report = accuracy report'.
Proof.
  intros St caller config config' w Hfree Hperm.
  do 4 eexists.
  split; [exact (runOraclePipeline_stages caller config w)|].
  split; [exact (runOraclePipeline_stages caller config' w)|].
  cbn [validations accuracy].
  rewrite !(expected_validations_history_free caller _ Hfree (caller_state w)
              (caller_state w)).
  assert (H : Permutation
                (map (fun exp =>
                        validation_of exp
                          (fst (call caller "delegate_to_model" (delegate_args exp)
                                     (caller_state w))))
                     (expectations config))
                (map (fun exp =>
                        validation_of exp
                          (fst (call caller "delegate_to_model" (delegate_args exp)
                                     (caller_state w))))
                     (expectations config'))).
  { apply Permutation_map. exact Hperm. }
  split; [exact H | exact (computeAccuracy_Permutation _ _ H)].
Qed.

Lemma createMockCaller_history_free (responses : list (string * JsValue)) :
  history_free (Fixtures.createMockCaller responses).
Proof.
  intros toolName args s s'. cbn [Fixtures.createMockCaller call].
  destruct (get_prop toolName responses); reflexivity.
Qed.

Lemma runOraclePipeline_order_independent_witness :
  let caller :=
    Fixtures.createMockCaller
      [("delegate_to_model", Fixtures.MOCK_DELEGATE_ARCHITECTURE)] in
  exists (report report' : OracleReport) (w1 w1' : World unit),
    runOraclePipeline caller
      (Fixtures.config_of [Fixtures.EXPECT_ARCHITECTURE; Fixtures.EXPECT_CODE_GENERATION]
                          None None)
      (Fixtures.start tt) = (Fulfilled report, w1) /\
    runOraclePipeline caller
      (Fixtures.config_of [Fixtures.EXPECT_CODE_GENERATION; Fixtures.EXPECT_ARCHITECTURE]
                          None None)
      (Fixtures.start tt) = (Fulfilled report', w1') /\
    Permutation (validations report) (validations report') /\
    accuracy report = accuracy report'.
Proof.
  intros caller.
  apply (runOraclePipeline_order_independent unit caller
           (Fixtures.config_of
              [Fixtures.EXPECT_ARCHITECTURE; Fixtures.EXPECT_CODE_GENERATION] None None)
           (Fixtures.config_of
              [Fixtures.EXPECT_CODE_GENERATION; Fixtures.EXPECT_ARCHITECTURE] None None)
           (Fixtures.start tt)).
  - apply createMockCaller_history_free.
  - apply perm_swap.
Defined.

(** ** The percentages shown *)

Section Percent.

Local Open Scope Z_scope.

Lemma Number_of_Z_100 : Number_of_Z 100 = S754_finite false 7036874417766400 (-46).
Proof. reflexivity. Qed.

(** A number that is at most one, times 100, is at most 100. *)
Lemma num_mul_100_le (x : number) :
  normal_le 1 x -> normal_le 100 (num_mul x (Number_of_Z 100)).
Proof.
  intros [m [e [-> [Hm [He Hb]]]]].
  rewrite Number_of_Z_100. unfold num_mul, SFmul. cbn [xorb].
  rewrite Pos2Z.inj_mul.
  assert (Hp : 0 < 2 ^ (- e)) by (apply pow2_pos; lia).
  assert (Hbound : Zpos m * 7036874417766400
                   + Zb (inexact (shr_record_of_loc (Zpos m * 7036874417766400) loc_Exact))
                   <= 100 * 2 ^ (- (e + -46))).
  { cbn [inexact shr_record_of_loc shr_r shr_s orb Zb].
    replace (- (e + -46)) with (46 + - e) by lia. rewrite pow2_split by lia.
    change (2 ^ 46) with 70368744177664. nia. }
  destruct (Z.lt_ge_cases (Zpos m * 7036874417766400) (2 ^ 105)) as [Hlt|Hge].
  - assert (Hd : 2 ^ (105 - 1) <= Zpos m * 7036874417766400 < 2 ^ 105).
    { split; [|lia]. change (2 ^ (105 - 1)) with (2 ^ 52 * 2 ^ 52).
      change (2 ^ 52) with 4503599627370496 in *. nia. }
    destruct (binary_round_aux_bound _ (e + -46) loc_Exact 105 100
                ltac:(lia) Hd ltac:(lia) ltac:(lia) Hbound)
      as [m' [e' [Hres [Hm' [He' Hb']]]]].
    exists m', e'. split; [exact Hres|]. split; [exact Hm'|]. split; [lia | exact Hb'].
  - assert (Hd : 2 ^ (106 - 1) <= Zpos m * 7036874417766400 < 2 ^ 106).
    { split; [lia|]. change (2 ^ 106) with (2 ^ 53 * 2 ^ 53).
      change (2 ^ 53) with 9007199254740992 in *. nia. }
    destruct (binary_round_aux_bound _ (e + -46) loc_Exact 106 100
                ltac:(lia) Hd ltac:(lia) ltac:(lia) Hbound)
      as [m' [e' [Hres [Hm' [He' Hb']]]]].
    exists m', e'. split; [exact Hres|]. split; [exact Hm'|]. split; [lia | exact Hb'].
Qed.

(** Rounding a number that is at most 100 gives zero or an integer from 1
    to 100. *)
Lemma Math_round_le_100 (x : number) :
  normal_le 100 x ->
  Math_round x = num_zero \/
  exists k : Z, 1 <= k <= 100 /\ Math_round x = Number_of_Z k.
Proof.
  intros [m [e [-> [Hm [He Hb]]]]].
  assert (Hneg : e < 0).
  { assert (52 < 52 + - e) by (apply (exponent_gap (Zpos m) 100); lia). lia. }
  unfold Math_round.
  replace (0 <=? e) with false by (symmetry; apply Z.leb_gt; lia).
  cbn [cond_Zopp].
  assert (Hp : 0 < 2 ^ (- e)) by (apply pow2_pos; lia).
  replace (1 - e) with (1 + - e) by lia. rewrite pow2_split by lia.
  change (2 ^ 1) with 2.
  set (k := (2 * Zpos m + 2 ^ (- e)) / (2 * 2 ^ (- e))).
  assert (Hk0 : 0 <= k) by (apply Z.div_pos; lia).
  assert (Hk : k < 101) by (apply Z.div_lt_upper_bound; lia).
  destruct (Z.eqb_spec k 0) as [Hz|Hz].
  - left. reflexivity.
  - right. exists k. split; [lia | reflexivity].
Qed.

(** The whole numbers up to 100 are printed in decimal. *)
Lemma Number_toString_percent (k : Z) :
  0 <= k <= 100 -> Number_toString (Number_of_Z k) = Z_to_dec k.
Proof.
  intros Hk.
  assert (H : forallb (fun n => String.eqb (Number_toString (Number_of_Z (Z.of_nat n)))
                                           (Z_to_dec (Z.of_nat n)))
                      (seq 0 101) = true) by (vm_compute; reflexivity).
  rewrite forallb_forall in H. specialize (H (Z.to_nat k)).
  rewrite Z2Nat.id in H by lia. apply String.eqb_eq, H, in_seq. lia.
Qed.

(** The percentage the reporter shows for an accuracy of [k] thousandths. *)
Lemma percent_thousandths (k : Z) :
  0 <= k <= 1000 ->
  exists p : Z,
    0 <= p <= 100 /\ 10 * p - 5 <= k <= 10 * p + 5 /\
    percent (decimal_to_number k (-3)) = Z_to_dec p.
Proof.
  intros Hk.
  assert (H : forallb
                (fun n =>
                   let k := Z.of_nat n in
                   existsb (fun p => (0 <=? p) && (p <=? 100)
                                     && (10 * p - 5 <=? k) && (k <=? 10 * p + 5)
                                     && String.eqb (percent (decimal_to_number k (-3)))
                                                   (Z_to_dec p))
                           [k / 10; k / 10 + 1])
                (seq 0 1001) = true) by (vm_compute; reflexivity).
  rewrite forallb_forall in H. specialize (H (Z.to_nat k)).
  rewrite Z2Nat.id in H by lia. cbv zeta in H.
  assert (Hin : In (Z.to_nat k) (seq 0 1001)) by (apply in_seq; lia).
  apply H in Hin. apply existsb_exists in Hin. destruct Hin as [p [_ Hp]].
  apply andb_true_iff in Hp. destruct Hp as [Hp Hs].
  apply andb_true_iff in Hp. destruct Hp as [Hp H4].
  apply andb_true_iff in Hp. destruct Hp as [Hp H3].
  apply andb_true_iff in Hp. destruct Hp as [H1 H2].
  apply Z.leb_le in H1, H2, H3, H4. apply String.eqb_eq in Hs.
  exists p. split; [lia|]. split; [lia | exact Hs].
Qed.

End Percent.

(** ** Rounding, from both sides *)

Section Nearness.

Local Open Scope Z_scope.

(** A mantissa of [d >= 53] digits is shifted down to its 53 leading
    digits. *)
Lemma shr_fexp_quotient (mx ex : Z) (lx : location) (d : Z) :
  53 <= d -> 2 ^ (d - 1) <= mx < 2 ^ d ->
  -1074 <= ex + d - 53 ->
  exists (mrs : shr_record),
    shr_fexp prec emax mx ex lx = (mrs, ex + d - 53) /\
    shr_m mrs = mx / 2 ^ (d - 53) /\
    (d = 53 -> mrs = shr_record_of_loc mx lx).
Proof.
  intros Hd Hmx He.
  assert (Hpos : 0 < 2 ^ (d - 1)) by (apply pow2_pos; lia).
  unfold shr_fexp. rewrite (Zdigits2_unique mx d) by lia.
  rewrite fexp_eq.
  replace (Z.max (d + ex - 53) (-1074) - ex) with (d - 53) by lia.
  unfold shr.
  destruct (d - 53) as [|p|p] eqn:Hn; try lia.
  - exists (shr_record_of_loc mx lx).
    replace (ex + d - 53) with ex by lia.
    split; [reflexivity|]. split; [|reflexivity].
    rewrite shr_m_shr_record_of_loc. change (2 ^ 0) with 1. now rewrite Z.div_1_r.
  - exists (iter_pos shr_1 p (shr_record_of_loc mx lx)).
    replace (ex + Z.pos p) with (ex + d - 53) by lia.
    split; [reflexivity|]. split; [|lia].
    rewrite iter_pos_nat.
    rewrite shr_iter_m, shr_m_shr_record_of_loc
      by (rewrite shr_m_shr_record_of_loc; lia).
    f_equal. f_equal. lia.
Qed.

(** Rounding moves a value by less than one unit in the last place. *)
Lemma binary_round_aux_near (mx ex : Z) (lx : location) (d : Z) :
  53 <= d -> 2 ^ (d - 1) <= mx < 2 ^ d ->
  -1074 <= ex + d - 53 < 971 ->
  exists (m : positive) (e : Z),
    binary_round_aux prec emax false mx ex lx = S754_finite false m e /\
    2 ^ 52 <= Zpos m < 2 ^ 53 /\
    ex + d - 53 <= e <= ex + d - 52 /\
    (Zpos m - 1) * 2 ^ (e - ex) <= mx /\
    mx + 1 <= (Zpos m + 1) * 2 ^ (e - ex).
Proof.
  intros Hd Hmx He.
  destruct (shr_fexp_quotient mx ex lx d Hd Hmx ltac:(lia)) as [mrs1 [H1 [Hq _]]].
  unfold binary_round_aux. rewrite H1.
  set (e1 := ex + d - 53) in *.
  set (t := 2 ^ (d - 53)) in *.
  assert (Ht : 0 < t) by (apply pow2_pos; lia).
  assert (Hpow : 2 ^ (d - 1) = t * 2 ^ 52).
  { unfold t. rewrite <- pow2_split by lia. f_equal. lia. }
  assert (Hpow' : 2 ^ d = t * 2 ^ 53).
  { unfold t. rewrite <- pow2_split by lia. f_equal. lia. }
  assert (Hq52 : 2 ^ 52 <= shr_m mrs1 < 2 ^ 53).
  { rewrite Hq. split.
    - apply Z.div_le_lower_bound; lia.
    - apply Z.div_lt_upper_bound; lia. }
  pose proof (Z.mul_div_le mx t Ht) as Hlo.
  pose proof (Z.mul_succ_div_gt mx t Ht) as Hhi.
  rewrite <- Hq in Hlo, Hhi.
  set (q := shr_m mrs1) in *.
  set (m2 := round_nearest_even q (loc_of_shr_record mrs1)).
  pose proof (round_nearest_even_bound mrs1) as Hm2. fold q in Hm2. fold m2 in Hm2.
  assert (Hzb : 0 <= Zb (inexact mrs1) <= 1) by (destruct (inexact mrs1); simpl; lia).
  assert (Hs1 : 2 ^ (e1 - ex) = t) by (unfold t, e1; f_equal; lia).
  assert (Hs2 : 2 ^ (e1 + 1 - ex) = 2 * t).
  { replace (e1 + 1 - ex) with (1 + (d - 53)) by (unfold e1; lia).
    rewrite pow2_split by lia. reflexivity. }
  destruct (Z.lt_ge_cases m2 (2 ^ 53)) as [Hlt|Hge].
  - assert (Hm53 : 2 ^ (53 - 1) <= m2 < 2 ^ 53) by (split; lia).
    destruct (shr_fexp_quotient m2 e1 loc_Exact 53 ltac:(lia) Hm53 ltac:(unfold e1; lia))
      as [mrs3 [H3 [_ Hsame]]].
    rewrite H3, (Hsame eq_refl). cbn [shr_record_of_loc shr_m].
    destruct m2 as [|m|m] eqn:Hm; try lia.
    replace (e1 + 53 - 53 <=? emax - prec) with true
      by (symmetry; apply Z.leb_le; unfold emax, prec, e1; lia).
    exists m, (e1 + 53 - 53).
    split; [reflexivity|]. split; [lia|]. split; [lia|].
    replace (e1 + 53 - 53 - ex) with (e1 - ex) by lia. rewrite Hs1. nia.
  - assert (Hm2' : m2 = 2 ^ 53) by lia.
    assert (Hm54 : 2 ^ (54 - 1) <= m2 < 2 ^ 54).
    { split; [lia|]. change (2 ^ 54) with (2 * 2 ^ 53). lia. }
    destruct (shr_fexp_quotient m2 e1 loc_Exact 54 ltac:(lia) Hm54 ltac:(unfold e1; lia))
      as [mrs3 [H3 [Hq3 _]]].
    rewrite H3. rewrite Hq3, Hm2'.
    change (2 ^ 53 / 2 ^ (54 - 53)) with (Zpos 4503599627370496).
    cbv beta iota.
    replace (e1 + 54 - 53 <=? emax - prec) with true
      by (symmetry; apply Z.leb_le; unfold emax, prec, e1; lia).
    exists 4503599627370496%positive, (e1 + 54 - 53).
    split; [reflexivity|]. split; [change (2 ^ 52) with 4503599627370496; change (2 ^ 53) with 9007199254740992; lia|].
    split; [lia|].
    replace (e1 + 54 - 53 - ex) with (e1 + 1 - ex) by lia. rewrite Hs2.
    change (2 ^ 53) with 9007199254740992 in *. nia.
Qed.

(** The quotient of two whole numbers, the first not above the second, is
    less than one unit in the last place away from their ratio. *)
Lemma num_div_near (c n : Z) :
  1 <= c <= n -> n < 2 ^ 53 ->
  exists (m : positive) (e : Z),
    num_div (Number_of_Z c) (Number_of_Z n) = S754_finite false m e /\
    2 ^ 52 <= Zpos m < 2 ^ 53 /\ -200 <= e <= 0 /\
    Zpos m <= 2 ^ (- e) /\
    (Zpos m - 1) * n <= c * 2 ^ (- e) /\
    c * 2 ^ (- e) + 1 <= (Zpos m + 1) * n.
Proof.
  intros Hc Hn.
  destruct (Number_of_Z_normal c ltac:(lia)) as [mx [ex [Ex [Hmx [Hex Hvx]]]]].
  destruct (Number_of_Z_normal n ltac:(lia)) as [my [ey [Ey [Hmy [Hey Hvy]]]]].
  rewrite Ex, Ey.
  assert (Hpex : 0 < 2 ^ (- ex)) by (apply pow2_pos; lia).
  assert (Hpey : 0 < 2 ^ (- ey)) by (apply pow2_pos; lia).
  assert (Hle : Zpos mx * 2 ^ (- ey) <= Zpos my * 2 ^ (- ex)).
  { rewrite Hvx, Hvy. nia. }
  destruct (num_div_le_one mx my ex ey Hmx Hmy Hex Hey Hle)
    as [m [e [Hres [Hm [He Hb]]]]].
  exists m, e. split; [exact Hres|]. split; [exact Hm|]. split; [exact He|].
  split; [lia|].
  revert Hres.
  unfold num_div, SFdiv, SFdiv_core_binary. cbn [xorb].
  rewrite (Zdigits2_unique (Zpos mx) 53), (Zdigits2_unique (Zpos my) 53) by lia.
  rewrite fexp_eq.
  replace (Z.min (Z.max (53 + ex - (53 + ey) - 53) (-1074)) (ex - ey))
    with (ex - ey - 53) by lia.
  replace (ex - ey - (ex - ey - 53)) with 53 by lia.
  rewrite Z.shiftl_mul_pow2 by lia.
  pose proof (Z_div_mod (Zpos mx * 2 ^ 53) (Zpos my) ltac:(lia)) as Hdiv.
  destruct (Z.div_eucl (Zpos mx * 2 ^ 53) (Zpos my)) as [q r].
  destruct Hdiv as [Hqr Hr].
  set (T := 2 ^ (53 + ey - ex)).
  assert (HT : T * 2 ^ (- ey) = 2 ^ 53 * 2 ^ (- ex)).
  { unfold T. rewrite <- !pow2_split by lia. f_equal. lia. }
  assert (HTpos : 0 < T) by (apply pow2_pos; lia).
  assert (HmT : Zpos mx * 2 ^ 53 <= Zpos my * T).
  { apply (Z.mul_le_mono_pos_r _ _ (2 ^ (- ey)) Hpey).
    assert (E : Zpos my * T * 2 ^ (- ey) = Zpos my * 2 ^ (- ex) * 2 ^ 53).
    { rewrite <- (Z.mul_assoc (Zpos my) T), HT. ring. }
    rewrite E.
    replace (Zpos mx * 2 ^ 53 * 2 ^ (- ey)) with (Zpos mx * 2 ^ (- ey) * 2 ^ 53)
      by ring.
    apply Z.mul_le_mono_nonneg_r; lia. }
  assert (Hq52 : 2 ^ 52 <= q) by nia.
  assert (Hq54 : q < 2 ^ 54) by nia.
  assert (Hnear : forall d, 53 <= d <= 54 -> 2 ^ (d - 1) <= q < 2 ^ d ->
            binary_round_aux prec emax false q (ex - ey - 53)
              (new_location (Zpos my) r) = S754_finite false m e ->
            (Zpos m - 1) * n <= c * 2 ^ (- e) /\
            c * 2 ^ (- e) + 1 <= (Zpos m + 1) * n).
  { intros d Hd Hq Hres.
    destruct (binary_round_aux_near q (ex - ey - 53) (new_location (Zpos my) r) d
                ltac:(lia) Hq ltac:(lia))
      as [m' [e' [Hres' [_ [He' [Hlo Hhi]]]]]].
    rewrite Hres in Hres'. injection Hres' as <- <-.
    set (s := 2 ^ (e - (ex - ey - 53))) in *.
    set (a := 2 ^ (- e)) in *.
    assert (Hs : 0 < s) by (apply pow2_pos; lia).
    assert (Ha : 0 < a) by (apply pow2_pos; lia).
    assert (K : s * a * 2 ^ (- ey) = 2 ^ 53 * 2 ^ (- ex)).
    { unfold s, a. rewrite <- !pow2_split by lia. f_equal. lia. }
    set (ux := 2 ^ (- ex)) in *. set (uy := 2 ^ (- ey)) in *.
    assert (E1 : c * a * (s * uy) = Zpos mx * 2 ^ 53).
    { replace (c * a * (s * uy)) with (c * (s * a * uy)) by ring.
      rewrite K, Hvx. ring. }
    assert (Hsu : 0 < s * uy) by nia.
    split.
    - apply (Z.mul_le_mono_pos_r _ _ (s * uy) Hsu).
      rewrite E1.
      replace ((Zpos m - 1) * n * (s * uy)) with ((Zpos m - 1) * s * Zpos my)
        by (rewrite Hvy; ring).
      assert (H : (Zpos m - 1) * s * Zpos my <= q * Zpos my)
        by (apply Z.mul_le_mono_nonneg_r; lia).
      lia.
    - assert (H : c * a * (s * uy) < (Zpos m + 1) * n * (s * uy)).
      { rewrite E1.
        replace ((Zpos m + 1) * n * (s * uy)) with ((Zpos m + 1) * s * Zpos my)
          by (rewrite Hvy; ring).
        assert (H : (q + 1) * Zpos my <= (Zpos m + 1) * s * Zpos my)
          by (apply Z.mul_le_mono_nonneg_r; lia).
        lia. }
      apply Z.mul_lt_mono_pos_r in H; lia. }
  destruct (Z.lt_ge_cases q (2 ^ 53)) as [Hlt|Hge].
  - apply (Hnear 53); [lia|]. split; lia.
  - apply (Hnear 54); [lia|]. split; lia.
Qed.

(** A number that is at most one, times 100: less than one unit in the
    last place away from the product. *)
Lemma num_mul_100_near (m : positive) (e : Z) :
  2 ^ 52 <= Zpos m < 2 ^ 53 -> -200 <= e <= 0 -> Zpos m <= 2 ^ (- e) ->
  exists (m' : positive) (e' : Z),
    num_mul (S754_finite false m e) (Number_of_Z 100) = S754_finite false m' e' /\
    2 ^ 52 <= Zpos m' < 2 ^ 53 /\ -200 <= e' < 0 /\
    Zpos m' <= 100 * 2 ^ (- e') /\
    (Zpos m' - 1) * 2 ^ (- e) <= 100 * Zpos m * 2 ^ (- e') /\
    100 * Zpos m * 2 ^ (- e') < (Zpos m' + 1) * 2 ^ (- e).
Proof.
  intros Hm He Hb.
  assert (Hle : normal_le 1 (S754_finite false m e)).
  { exists m, e. split; [reflexivity|]. split; [exact Hm|]. split; [exact He | lia]. }
  destruct (num_mul_100_le _ Hle) as [m' [e' [Hres [Hm' [He' Hb']]]]].
  assert (Hneg : e' < 0).
  { assert (52 < 52 + - e') by (apply (exponent_gap (Zpos m') 100); lia). lia. }
  exists m', e'. split; [exact Hres|]. split; [exact Hm'|]. split; [lia|].
  split; [exact Hb'|].
  revert Hres. rewrite Number_of_Z_100. unfold num_mul, SFmul. cbn [xorb].
  rewrite Pos2Z.inj_mul.
  set (P := Zpos m * 7036874417766400).
  assert (Hnear : forall d, 105 <= d <= 106 -> 2 ^ (d - 1) <= P < 2 ^ d ->
            binary_round_aux prec emax false P (e + -46) loc_Exact
            = S754_finite false m' e' ->
            (Zpos m' - 1) * 2 ^ (- e) <= 100 * Zpos m * 2 ^ (- e') /\
            100 * Zpos m * 2 ^ (- e') < (Zpos m' + 1) * 2 ^ (- e)).
  { intros d Hd HP Hres.
    destruct (binary_round_aux_near P (e + -46) loc_Exact d
                ltac:(lia) HP ltac:(lia))
      as [m2 [e2 [Hres2 [_ [He2 [Hlo Hhi]]]]]].
    rewrite Hres in Hres2. injection Hres2 as <- <-.
    set (s := 2 ^ (e' - (e + -46))) in *.
    set (a := 2 ^ (- e)) in *. set (b := 2 ^ (- e')) in *.
    assert (Hs : 0 < s) by (apply pow2_pos; lia).
    assert (Ha : 0 < a) by (apply pow2_pos; lia).
    assert (Hb0 : 0 < b) by (apply pow2_pos; lia).
    assert (K : s * b = 70368744177664 * a).
    { unfold s, a, b. change 70368744177664 with (2 ^ 46).
      rewrite <- !pow2_split by lia. f_equal. lia. }
    assert (E : P * b = 70368744177664 * (100 * Zpos m * b)) by (unfold P; ring).
    split.
    - assert (H : 70368744177664 * ((Zpos m' - 1) * a)
                  <= 70368744177664 * (100 * Zpos m * b)).
      { rewrite <- E.
        replace (70368744177664 * ((Zpos m' - 1) * a)) with ((Zpos m' - 1) * s * b)
          by (rewrite <- (Z.mul_assoc _ s b), K; ring).
        apply Z.mul_le_mono_nonneg_r; lia. }
      lia.
    - assert (H : 70368744177664 * (100 * Zpos m * b)
                  < 70368744177664 * ((Zpos m' + 1) * a)).
      { rewrite <- E.
        replace (70368744177664 * ((Zpos m' + 1) * a)) with ((Zpos m' + 1) * s * b)
          by (rewrite <- (Z.mul_assoc _ s b), K; ring).
        apply Z.mul_lt_mono_pos_r; lia. }
      lia. }
  destruct (Z.lt_ge_cases P (2 ^ 105)) as [Hlt|Hge].
  - apply (Hnear 105); [lia|]. split; [|lia].
    unfold P. change (2 ^ (105 - 1)) with (2 ^ 52 * 2 ^ 52).
    change (2 ^ 52) with 4503599627370496 in *. nia.
  - apply (Hnear 106); [lia|]. split; [lia|].
    unfold P. change (2 ^ 106) with (2 ^ 53 * 2 ^ 53).
    change (2 ^ 53) with 9007199254740992 in *. nia.
Qed.

(** The percentage of correct validations, as [voteOnQuality] computes
    it, is [100 * c / n] rounded to a whole number: no further from it
    than one half. *)
Lemma proposal_percent_near (c n : nat) :
  (c <= n)%nat -> (0 < n)%nat -> Z.of_nat n < 2 ^ 32 ->
  exists p : Z,
    0 <= p <= 100 /\
    200 * Z.of_nat c - Z.of_nat n <= 2 * p * Z.of_nat n <= 200 * Z.of_nat c + Z.of_nat n /\
    Number_toString
      (Math_round (num_mul (num_div (Number_of_nat c) (Number_of_nat n))
                           (Number_of_Z 100))) = Z_to_dec p.
Proof.
  intros Hcn Hn Hbig. unfold Number_of_nat.
  destruct c as [|c].
  - destruct (Number_of_Z_normal (Z.of_nat n) ltac:(lia))
      as [mn [en [-> _]]].
    exists 0. split; [lia|]. split; [lia | reflexivity].
  - set (C := Z.of_nat (S c)) in *. set (N := Z.of_nat n) in *.
    assert (HC : 1 <= C <= N) by (unfold C, N; lia).
    destruct (num_div_near C N HC ltac:(lia))
      as [mA [eA [-> [HmA [HeA [HbA [F1 F1']]]]]]].
    destruct (num_mul_100_near mA eA HmA HeA HbA)
      as [mB [eB [-> [HmB [HeB [HbB [F2 F2']]]]]]].
    unfold Math_round.
    replace (0 <=? eB) with false by (symmetry; apply Z.leb_gt; lia).
    cbn [cond_Zopp].
    set (a := 2 ^ (- eA)) in *. set (b := 2 ^ (- eB)) in *.
    assert (Ha : 0 < a) by (apply pow2_pos; lia).
    assert (Hb : 0 < b) by (apply pow2_pos; lia).
    replace (2 ^ (1 - eB)) with (2 * b)
      by (unfold b; replace (1 - eB) with (1 + - eB) by lia;
          rewrite pow2_split by lia; reflexivity).
    set (k := (2 * Zpos mB + b) / (2 * b)).
    assert (Hk0 : 0 <= k) by (apply Z.div_pos; lia).
    pose proof (Z.mul_div_le (2 * Zpos mB + b) (2 * b) ltac:(lia)) as F3.
    pose proof (Z.mul_succ_div_gt (2 * Zpos mB + b) (2 * b) ltac:(lia)) as F3'.
    fold k in F3, F3'.
    change (2 ^ 52) with 4503599627370496 in *.
    change (2 ^ 53) with 9007199254740992 in *.
    change (2 ^ 32) with 4294967296 in *.
    assert (Hupper : 2 * k * N <= 200 * C + N).
    { destruct (Z.le_gt_cases (2 * k * N) (200 * C + N)) as [H|H]; [exact H|].
      exfalso.
      assert (P1 : 2 * b * k * (N * a) <= (2 * Zpos mB + b) * (N * a))
        by (apply Z.mul_le_mono_nonneg_r; [apply Z.mul_nonneg_nonneg; lia | lia]).
      assert (P2 : (Zpos mB - 1) * a * (2 * N) <= 100 * Zpos mA * b * (2 * N))
        by (apply Z.mul_le_mono_nonneg_r; lia).
      assert (P3 : (Zpos mA - 1) * N * (200 * b) <= C * a * (200 * b))
        by (apply Z.mul_le_mono_nonneg_r; lia).
      assert (P4 : (200 * C + N + 1) * (a * b) <= 2 * k * N * (a * b))
        by (apply Z.mul_le_mono_nonneg_r; [apply Z.mul_nonneg_nonneg; lia | lia]).
      assert (P5 : 400 * N * b < a * b) by (apply Z.mul_lt_mono_pos_r; lia).
      assert (P6 : 4 * N * a < b * a) by (apply Z.mul_lt_mono_pos_r; lia).
      lia. }
    assert (Hlower : 200 * C - N <= 2 * k * N).
    { destruct (Z.le_gt_cases (200 * C - N) (2 * k * N)) as [H|H]; [exact H|].
      exfalso.
      assert (P1 : (2 * Zpos mB + b + 1) * (N * a) <= 2 * b * Z.succ k * (N * a))
        by (apply Z.mul_le_mono_nonneg_r; [apply Z.mul_nonneg_nonneg; lia | lia]).
      assert (P2 : (100 * Zpos mA * b + 1) * (2 * N) <= (Zpos mB + 1) * a * (2 * N))
        by (apply Z.mul_le_mono_nonneg_r; lia).
      assert (P3 : (C * a + 1) * (200 * b) <= (Zpos mA + 1) * N * (200 * b))
        by (apply Z.mul_le_mono_nonneg_r; lia).
      assert (P4 : (2 * k * N + 1) * (a * b) <= (200 * C - N) * (a * b))
        by (apply Z.mul_le_mono_nonneg_r; [apply Z.mul_nonneg_nonneg; lia | lia]).
      assert (P5 : 400 * N * b < a * b) by (apply Z.mul_lt_mono_pos_r; lia).
      assert (P6 : 4 * N * a < b * a) by (apply Z.mul_lt_mono_pos_r; lia).
      lia. }
    assert (Hk : k <= 100).
    { destruct (Z.le_gt_cases k 100) as [H|H]; [exact H|]. exfalso.
      assert (P : 101 * N <= k * N) by (apply Z.mul_le_mono_nonneg_r; lia).
      lia. }
    exists k. split; [lia|]. split; [lia|].
    destruct (Z.eqb_spec k 0) as [->|Hz]; [reflexivity|].
    apply Number_toString_percent. lia.
Qed.

End Nearness.

(** X16. The proposal [voteOnQuality] writes opens with the share of
    correct validations as a whole number of percent [p] and the two counts
    [c] and [n] in decimal, and [p] is [100 * c / n] rounded to a whole
    number: no further from it than one half, that is
    [200 * c - n <= 2 * p * n <= 200 * c + n], and [p = 0] for no
    validation; the summary has one line per validation. *)
Theorem build_proposal_shape :
  forall vs : list RoutingValidation,
    (Z.of_nat (length vs) < 2 ^ 32)%Z ->
    let c := Z.of_nat (count_correct vs) in
    let n := Z.of_nat (length vs) in
    exists p : Z,
      (0 <= p <= 100)%Z /\
      (200 * c - n <= 2 * p * n <= 200 * c + n)%Z /\
      build_proposal vs =
      ("Routing accuracy is " ++ Z_to_dec p ++ "% ("
         ++ nat_to_string (count_correct vs) ++ "/" ++ nat_to_string (length vs)
         ++ " correct)." ++ LF ++ LF
         ++ "Results:" ++ LF ++ join LF (map summary_line vs) ++ LF ++ LF
         ++ "Should we approve this routing quality?")%string /\
      (count_correct vs <= length vs)%nat /\
      (vs = [] -> p = 0%Z).
Proof.
  intros vs Hbig c n. unfold build_proposal. cbv zeta.
  pose proof (count_correct_le vs) as Hle.
  destruct (0 <? length vs)%nat eqn:Hn.
  - apply Nat.ltb_lt in Hn.
    destruct (proposal_percent_near (count_correct vs) (length vs) Hle Hn Hbig)
      as [p [Hp [Hnear Hs]]].
    exists p. split; [exact Hp|]. split; [exact Hnear|]. rewrite Hs.
    split; [reflexivity|]. split; [exact Hle|].
    intros ->. cbn in Hn. lia.
  - apply Nat.ltb_ge in Hn.
    exists 0%Z. split; [lia|]. split; [unfold c, n; lia|]. split; [reflexivity|].
    split; [exact Hle | reflexivity].
Qed.

Lemma build_proposal_shape_witness :
  let vs := [Fixtures.validation architecture "claude-opus" "claude" true;
             Fixtures.validation testing "gemini-flash" "codex" false;
             Fixtures.validation research "gemini-pro" "gemini" true] in
  exists p : Z,
    p = 67%Z /\
    build_proposal vs =
    ("Routing accuracy is " ++ Z_to_dec p ++ "% (2/3 correct)." ++ LF ++ LF
       ++ "Results:" ++ LF ++ join LF (map summary_line vs) ++ LF ++ LF
       ++ "Should we approve this routing quality?")%string.
Proof.
  intros vs.
  destruct (build_proposal_shape vs) as [p [_ [Hnear [Hs _]]]].
  - vm_compute. reflexivity.
  - exists p. split; [|exact Hs].
    change (Z.of_nat (count_correct vs)) with 2%Z in Hnear.
    change (Z.of_nat (length vs)) with 3%Z in Hnear. lia.
Defined.

(** One of one is 100%, one of eight 13% and seven of eight 88%;
    twenty-nine of two hundred, half way between 14% and 15%, is 14%. *)
Example build_proposal_percentages :
  let good := Fixtures.validation architecture "claude-opus" "claude" true in
  let bad := Fixtures.validation testing "gemini-flash" "codex" false in
  starts_with (build_proposal [good]) "Routing accuracy is 100% (1/1 correct)." = true /\
  starts_with (build_proposal (good :: repeat bad 7))
    "Routing accuracy is 13% (1/8 correct)." = true /\
  starts_with (build_proposal (bad :: repeat good 7))
    "Routing accuracy is 88% (7/8 correct)." = true /\
  starts_with (build_proposal (repeat good 29 ++ repeat bad 171))
    "Routing accuracy is 14% (29/200 correct)." = true.
Proof.
  intros good bad. split; [|split; [|split]]; vm_compute; reflexivity.
Qed.

Lemma join_cons2 (sep a : string) (l : list string) :
  l <> [] -> join sep (a :: l) = (a ++ sep ++ join sep l)%string.
Proof. destruct l; [congruence | reflexivity]. Qed.

(** ** The readable reports, line by line *)

Lemma generateMarkdownReport_lines (report : OracleReport) :
  generateMarkdownReport report = join LF (markdown_lines report).
Proof.
  unfold generateMarkdownReport, markdown_lines, misrouted_lines, weather_lines,
    vote_lines, getMisrouted, count_correct.
  cbv zeta. f_equal.
  change (fun v : RoutingValidation =>
            ("| " ++ TaskCategory_str (category v) ++ " | " ++ recommended v ++ " | " ++
             expected v ++ " | " ++ (if correct v then "PASS" else "FAIL") ++ " |")%string)
    with markdown_row.
  change (fun v : RoutingValidation =>
            [("- **" ++ TaskCategory_str (category v) ++ "**: got `" ++
              recommended v ++ "`, expected `" ++ expected v ++ "`")%string;
             ("  Reasoning: " ++ reasoning v)%string])
    with (fun v : RoutingValidation =>
            [misrouted_bullet v; ("  Reasoning: " ++ reasoning v)%string]).
  destruct (filter (fun v => negb (correct v)) (validations report)) as [|m ms];
    destruct (weather report), (voteResult report);
    cbn [length Nat.ltb Nat.leb app];
    rewrite <- ?app_assoc, ?app_nil_r; cbn [app];
    rewrite <- ?app_assoc; reflexivity.
Qed.

Lemma generateTextReport_lines (report : OracleReport) :
  generateTextReport report = join LF (text_lines report).
Proof.
  unfold generateTextReport, text_lines, text_vote_lines. cbv zeta. f_equal.
  destruct (voteResult report); cbn [app]; rewrite <- ?app_assoc, ?app_nil_r;
    reflexivity.
Qed.

(** X17. For a report whose accuracy is [computeAccuracy] of its
    validations, as every report of the pipeline is, both readable formats
    show the accuracy as a whole number of percent, from 0 to 100, within
    half a percent of it: the text format in its first line, the markdown
    format in its third, with the two counts. *)
Theorem generateReport_percent :
  forall report : OracleReport,
    accuracy report = computeAccuracy (validations report) ->
    (Z.of_nat (length (validations report)) < 2 ^ 53)%Z ->
    exists (k p : Z) (text_rest markdown_rest : list string),
      (0 <= k <= 1000)%Z /\ accuracy report = decimal_to_number k (-3) /\
      (0 <= p <= 100)%Z /\ (10 * p - 5 <= k <= 10 * p + 5)%Z /\
      generateReport report (Some text) =
        join LF (("Routing Oracle: " ++ Z_to_dec p ++ "% accuracy")%string
                 :: text_rest) /\
      generateReport report None =
        join LF ("# Routing Oracle Report" :: "" ::
                 ("**Accuracy:** " ++ Z_to_dec p ++ "% (" ++
                  nat_to_string (count_correct (validations report)) ++ "/" ++
                  nat_to_string (length (validations report)) ++ ")")%string
                 :: markdown_rest).
Proof.
  intros report Hacc Hbig.
  destruct (computeAccuracy_thousandths (validations report) Hbig)
    as [k [Hk [Hk3 _]]].
  destruct (percent_thousandths k Hk) as [p [Hp [Hpk Hs]]].
  rewrite <- Hk3, <- Hacc in Hs.
  exists k, p. do 2 eexists.
  split; [exact Hk|]. split; [now rewrite Hacc|].
  split; [exact Hp|]. split; [exact Hpk|].
  cbn [generateReport].
  rewrite generateTextReport_lines, generateMarkdownReport_lines.
  unfold text_lines, markdown_lines. rewrite Hs. cbn [app].
  split; reflexivity.
Qed.

Lemma generateReport_percent_witness :
  let report :=
    {| validations := [Fixtures.validation architecture "claude-opus" "claude" true;
                       Fixtures.validation testing "gemini-flash" "codex" false];
       accuracy := decimal_to_number 5 (-1);
       weather := None;
       voteResult := None |} in
  exists (k p : Z) (text_rest markdown_rest : list string),
    (0 <= k <= 1000)%Z /\ accuracy report = decimal_to_number k (-3) /\
    (0 <= p <= 100)%Z /\ (10 * p - 5 <= k <= 10 * p + 5)%Z /\
    generateReport report (Some text) =
      join LF (("Routing Oracle: " ++ Z_to_dec p ++ "% accuracy")%string
               :: text_rest) /\
    generateReport report None =
      join LF ("# Routing Oracle Report" :: "" ::
               ("**Accuracy:** " ++ Z_to_dec p ++ "% (" ++
                nat_to_string (count_correct (validations report)) ++ "/" ++
                nat_to_string (length (validations report)) ++ ")")%string
               :: markdown_rest).
Proof.
  intros report.
  apply (generateReport_percent report); vm_compute; reflexivity.
Defined.

(** The percentage voted on is rounded from the quotient, the percentage
    reported from the accuracy, itself rounded: they can differ.  With 29
    correct validations of 2000 the proposal says 1% and the reports 2%. *)
Example percentages_can_differ :
  let vs := repeat (Fixtures.validation architecture "claude-opus" "claude" true) 29
            ++ repeat (Fixtures.validation testing "gemini-flash" "codex" false) 1971 in
  let report := {| validations := vs; accuracy := computeAccuracy vs;
                   weather := None; voteResult := None |} in
  starts_with (build_proposal vs) "Routing accuracy is 1% (29/2000 correct)." = true /\
  Number_toString (accuracy report) = "0.015" /\
  starts_with (generateReport report (Some text)) "Routing Oracle: 2% accuracy" = true.
Proof.
  intros vs report. split; [|split]; vm_compute; reflexivity.
Qed.

(** ** What the readable reports contain *)

Lemma join_In_substring (sep x : string) (l : list string) :
  In x l -> substring x (join sep l).
Proof.
  induction l as [|a l IH]; [intros []|].
  destruct l as [|b l].
  - intros [<- | []]. exists "", "". cbn [join append]. now rewrite append_nil_r.
  - intros [<- | Hin].
    + exists "", (sep ++ join sep (b :: l))%string. reflexivity.
    + destruct (IH Hin) as [pre [post E]].
      exists (a ++ sep ++ pre)%string, post.
      change (join sep (a :: b :: l)) with (a ++ sep ++ join sep (b :: l))%string.
      rewrite E, !append_assoc. reflexivity.
Qed.

Lemma join_In_includes (sep x : string) (l : list string) :
  In x l -> includes (join sep l) x = true.
Proof. intros H. apply includes_spec. now apply join_In_substring. Qed.

Lemma In_misrouted_lines (vs : list RoutingValidation) (v : RoutingValidation) :
  In v vs -> correct v = false ->
  In "## Misrouted Categories" (misrouted_lines vs) /\
  In (misrouted_bullet v) (misrouted_lines vs) /\
  In ("  Reasoning: " ++ reasoning v)%string (misrouted_lines vs).
Proof.
  intros Hin Hc.
  assert (Hm : In v (getMisrouted vs)).
  { apply filter_In. split; [exact Hin | now rewrite Hc]. }
  unfold misrouted_lines. destruct (getMisrouted vs) as [|m ms] eqn:E; [destruct Hm|].
  rewrite <- E in *. clear E.
  split; [now left|].
  assert (Hflat : forall x : string,
            In x [misrouted_bullet v; ("  Reasoning: " ++ reasoning v)%string] ->
            In x (["## Misrouted Categories"; ""]
                  ++ flat_map (fun v => [misrouted_bullet v;
                                         ("  Reasoning: " ++ reasoning v)%string])
                              (getMisrouted vs)
                  ++ [""])).
  { intros x Hx. apply in_or_app. right. apply in_or_app. left.
    apply in_flat_map. exists v. split; [exact Hm | exact Hx]. }
  split; apply Hflat; [now left | right; now left].
Qed.

(** X18. The markdown report holds its title; one table row per
    validation; for every validation that is not correct the heading of the
    misrouted section, its bullet and its reasoning; the heading of the
    telemetry section and the number of CLIs when there is a snapshot; the
    heading of the vote section and the decision when there is a vote
    outcome. *)
Theorem generateReport_markdown_contains :
  forall report : OracleReport,
    let md := generateReport report None in
    includes md "# Routing Oracle Report" = true /\
    includes md "## Routing Results" = true /\
    (forall v : RoutingValidation,
       In v (validations report) ->
       includes md (markdown_row v) = true /\
       (correct v = false ->
        includes md "## Misrouted Categories" = true /\
        includes md (misrouted_bullet v) = true /\
        includes md ("  Reasoning: " ++ reasoning v) = true)) /\
    (forall w : WeatherResponse,
       weather report = Some w ->
       includes md "## Weather Context" = true /\
       includes md ("- CLIs reporting: " ++ nat_to_string (length (cliWeather w)))
       = true) /\
    (forall v : VoteResponse,
       voteResult report = Some v ->
       includes md "## Quality Vote" = true /\
       includes md ("- Decision: **" ++ VoteDecision_str (vr_decision v) ++ "**")
       = true).
Proof.
  intros report md. unfold md. cbn [generateReport].
  rewrite generateMarkdownReport_lines. unfold markdown_lines.
  split; [apply join_In_includes; now left|].
  split; [apply join_In_includes; do 4 right; now left|].
  split; [|split].
  - intros v Hin. split.
    + apply join_In_includes, in_or_app. right.
      apply in_or_app. left. now apply in_map.
    + intros Hc.
      destruct (In_misrouted_lines (validations report) v Hin Hc) as [H1 [H2 H3]].
      split; [|split]; apply join_In_includes, in_or_app; right;
        apply in_or_app; right; apply in_or_app; right;
        apply in_or_app; left; assumption.
  - intros w ->.
    split; apply join_In_includes, in_or_app; right;
      apply in_or_app; right; apply in_or_app; right;
      apply in_or_app; right; apply in_or_app; left; cbn [weather_lines].
    + now left.
    + do 4 right. now left.
  - intros v ->.
    split; apply join_In_includes, in_or_app; right;
      apply in_or_app; right; apply in_or_app; right;
      apply in_or_app; right; apply in_or_app; right; cbn [vote_lines].
    + now left.
    + do 2 right. now left.
Qed.

Lemma generateReport_markdown_contains_witness :
  includes (generateReport Fixtures.SAMPLE_REPORT None)
           "| code_generation | gemini-flash | codex | FAIL |" = true /\
  includes (generateReport Fixtures.SAMPLE_REPORT None) "## Misrouted Categories" = true /\
  includes (generateReport Fixtures.SAMPLE_REPORT None)
           "- **code_generation**: got `gemini-flash`, expected `codex`" = true /\
  includes (generateReport Fixtures.SAMPLE_REPORT None)
           "  Reasoning: Wrong model selected" = true.
Proof.
  destruct (proj1 (proj2 (proj2 (generateReport_markdown_contains Fixtures.SAMPLE_REPORT)))
              {| category := code_generation; recommended := "gemini-flash";
                 expected := "codex"; correct := false;
                 reasoning := "Wrong model selected"; alternatives := [] |}
              ltac:(right; left; reflexivity))
    as [Hrow Hmis].
  split; [exact Hrow | exact (Hmis eq_refl)].
Defined.

(** X19. The text report holds one line per validation, [[PASS]] or
    [[FAIL]] by its correctness flag, and the decision and the approval of
    the vote when there is a vote outcome; the lines it joins are as many
    as the validations, and two more, and two more again with a vote
    outcome. *)
Theorem generateReport_text_contains :
  forall report : OracleReport,
    let txt := generateReport report (Some text) in
    (forall v : RoutingValidation,
       In v (validations report) ->
       includes txt (formatValidationLine v) = true /\
       includes txt
         ((if correct v then "[PASS] " else "[FAIL] ")
          ++ TaskCategory_str (category v) ++ ": " ++ recommended v) = true) /\
    (forall v : VoteResponse,
       voteResult report = Some v ->
       includes txt ("Vote: " ++ VoteDecision_str (vr_decision v) ++ " (" ++
                     Number_toString (approvalPercentage v) ++ "%)") = true) /\
    txt = join LF (text_lines report) /\
    length (text_lines report) =
      (2 + length (validations report)
       + match voteResult report with Some _ => 2 | None => 0 end)%nat.
Proof.
  intros report txt. unfold txt. cbn [generateReport].
  rewrite generateTextReport_lines.
  split; [|split].
  - intros v Hin.
    assert (Hline : includes (join LF (text_lines report)) (formatValidationLine v)
                    = true).
    { apply join_In_includes. unfold text_lines. apply in_or_app. right.
      apply in_or_app. left. now apply in_map. }
    split; [exact Hline|].
    apply includes_spec. apply includes_spec in Hline.
    destruct Hline as [pre [post E]].
    exists pre, (" (expected: " ++ expected v ++ ")" ++ post)%string.
    rewrite E. unfold formatValidationLine. cbv zeta.
    destruct (correct v); cbn [append]; repeat (rewrite !append_assoc; cbn [append]);
      reflexivity.
  - intros v Hv. apply join_In_includes. unfold text_lines.
    apply in_or_app. right. apply in_or_app. right.
    rewrite Hv. cbn [text_vote_lines]. right. now left.
  - split; [reflexivity|].
    unfold text_lines. rewrite !length_app, length_map.
    destruct (voteResult report); cbn [length text_vote_lines]; lia.
Qed.

Lemma generateReport_text_contains_witness :
  includes (generateReport Fixtures.SAMPLE_REPORT (Some text))
           "[PASS] architecture: claude-opus (expected: claude)" = true /\
  includes (generateReport Fixtures.SAMPLE_REPORT (Some text))
           "[PASS] architecture: claude-opus" = true.
Proof.
  exact (proj1 (generateReport_text_contains Fixtures.SAMPLE_REPORT)
           {| category := architecture; recommended := "claude-opus";
              expected := "claude"; correct := true;
              reasoning := "Good architecture routing";
              alternatives := ["claude-sonnet"] |}
           ltac:(left; reflexivity)).
Defined.

(** *** The headings of the sections, among the lines pushed *)

Lemma heading_not_row (rest : string) (vs : list RoutingValidation) :
  ~ In (String "#" rest) (map markdown_row vs).
Proof.
  intros H. apply in_map_iff in H. destruct H as [v [E _]].
  unfold markdown_row in E. cbn [append] in E. discriminate.
Qed.

Lemma heading_not_bullet (rest : string) (vs : list RoutingValidation) :
  ~ In (String "#" rest)
       (flat_map (fun v => [misrouted_bullet v; ("  Reasoning: " ++ reasoning v)%string])
                 vs).
Proof.
  intros H. apply in_flat_map in H. destruct H as [v [_ [E | [E | []]]]].
  - unfold misrouted_bullet in E. cbn [append] in E. discriminate.
  - cbn [append] in E. discriminate.
Qed.

Lemma heading_in_misrouted_lines (rest : string) (vs : list RoutingValidation) :
  In (String "#" rest) (misrouted_lines vs) ->
  String "#" rest = "## Misrouted Categories" /\ getMisrouted vs <> [].
Proof.
  unfold misrouted_lines. destruct (getMisrouted vs) as [|m ms]; [intros []|].
  cbn [app In]. intros [E | [E | H]].
  - split; [now rewrite E | discriminate].
  - discriminate.
  - apply in_app_or in H. destruct H as [H | [E | []]].
    + now apply heading_not_bullet in H.
    + discriminate.
Qed.

Lemma heading_in_weather_lines (rest : string) (weather : option WeatherResponse) :
  In (String "#" rest) (weather_lines weather) ->
  String "#" rest = "## Weather Context" /\ weather <> None.
Proof.
  destruct weather as [w|]; [|intros []]. cbn [weather_lines In append].
  intros [E | [E | [E | [E | [E | [E | []]]]]]]; try discriminate.
  split; [now rewrite E | discriminate].
Qed.

Lemma heading_in_vote_lines (rest : string) (voteResult : option VoteResponse) :
  In (String "#" rest) (vote_lines voteResult) ->
  String "#" rest = "## Quality Vote" /\ voteResult <> None.
Proof.
  destruct voteResult as [v|]; [|intros []]. cbn [vote_lines In append].
  intros [E | [E | [E | [E | [E | [E | []]]]]]]; try discriminate.
  split; [now rewrite E | discriminate].
Qed.

Lemma heading_in_markdown_lines (rest : string) (report : OracleReport) :
  In (String "#" rest) (markdown_lines report) ->
  String "#" rest = "# Routing Oracle Report" \/
  String "#" rest = "## Routing Results" \/
  (String "#" rest = "## Misrouted Categories"
   /\ getMisrouted (validations report) <> []) \/
  (String "#" rest = "## Weather Context" /\ weather report <> None) \/
  (String "#" rest = "## Quality Vote" /\ voteResult report <> None).
Proof.
  unfold markdown_lines. intros H.
  apply in_app_or in H. destruct H as [H | H].
  { cbn [In append] in H.
    destruct H as [E | [E | [E | [E | [E | [E | [E | [E | []]]]]]]]];
      try discriminate; [left | right; left]; now rewrite E. }
  apply in_app_or in H. destruct H as [H | H].
  { now apply heading_not_row in H. }
  apply in_app_or in H. destruct H as [[E | []] | H]; [discriminate|].
  apply in_app_or in H. destruct H as [H | H].
  { right. right. left. now apply heading_in_misrouted_lines. }
  apply in_app_or in H. destruct H as [H | H].
  - right. right. right. left. now apply heading_in_weather_lines.
  - right. right. right. right. now apply heading_in_vote_lines.
Qed.

Lemma getMisrouted_nonempty (vs : list RoutingValidation) :
  getMisrouted vs <> [] <-> exists v, In v vs /\ correct v = false.
Proof.
  split.
  - destruct (getMisrouted vs) as [|m ms] eqn:E; [congruence|]. intros _.
    exists m. assert (H : In m (getMisrouted vs)) by (rewrite E; now left).
    apply filter_In in H. destruct H as [H1 H2].
    split; [exact H1 | now apply negb_true_iff].
  - intros [v [Hin Hc]] E.
    assert (H : In v (getMisrouted vs)).
    { apply filter_In. split; [exact Hin | now rewrite Hc]. }
    now rewrite E in H.
Qed.

(** X20. Among the lines [generateMarkdownReport] joins, the heading of the
    misrouted section is there exactly when some validation is not correct,
    that of the telemetry section exactly when the report has a snapshot,
    and that of the vote section exactly when it has a vote outcome;
    whatever the texts of the report are. *)
Theorem generateMarkdownReport_sections :
  forall report : OracleReport,
    generateReport report (Some markdown) = join LF (markdown_lines report) /\
    (In "## Misrouted Categories" (markdown_lines report) <->
     exists v, In v (validations report) /\ correct v = false) /\
    (In "## Weather Context" (markdown_lines report) <-> weather report <> None) /\
    (In "## Quality Vote" (markdown_lines report) <-> voteResult report <> None).
Proof.
  intros report. split; [apply generateMarkdownReport_lines|].
  split; [|split].
  - rewrite <- getMisrouted_nonempty. split.
    + intros H. apply heading_in_markdown_lines in H.
      destruct H as [E | [E | [[_ H] | [[E _] | [E _]]]]];
        try discriminate; exact H.
    + intros H. unfold markdown_lines.
      apply in_or_app; right; apply in_or_app; right; apply in_or_app; right.
      apply in_or_app. left. unfold misrouted_lines.
      destruct (getMisrouted (validations report)); [congruence | now left].
  - split.
    + intros H. apply heading_in_markdown_lines in H.
      destruct H as [E | [E | [[E _] | [[_ H] | [E _]]]]];
        try discriminate; exact H.
    + intros H. unfold markdown_lines.
      apply in_or_app; right; apply in_or_app; right; apply in_or_app; right.
      apply in_or_app; right. apply in_or_app. left.
      destruct (weather report); [now left | congruence].
  - split.
    + intros H. apply heading_in_markdown_lines in H.
      destruct H as [E | [E | [[E _] | [[E _] | [_ H]]]]];
        try discriminate; exact H.
    + intros H. unfold markdown_lines.
      apply in_or_app; right; apply in_or_app; right; apply in_or_app; right.
      apply in_or_app; right. apply in_or_app. right.
      destruct (voteResult report); [now left | congruence].
Qed.
